(** * indextr scrapers: crawl orchestration, verified against the sources

    A shallow embedding of the orchestration code of the three scrapers
    ([scrapers/Doaj_scraper_multiproces.py], [scrapers/dergipark_hybric.py],
    [scrapers/holy_yoktez_scraper.py]): chunking of work for the process pool,
    the per-chunk worker loops, journal discovery, URL de-duplication, batch
    saving and the year-sharded browser crawl.

    Python integers are [Z]; list lengths and indices are [nat]; a Python
    exception is a value of [exn] carried by [result]; a network or browser
    call is an oracle passed as a section variable, and whatever the code
    does to the outside world (requests, log lines, sleeps, files) is
    recorded in an explicit trace or store. *)

From stdpp Require Import gmap strings list.
From Stdlib Require Import ZArith Lia.
From Stdlib Require PrimFloat.

(** ** Python primitives used by the scrapers *)

Module Py.

Inductive exn : Type :=
  | ValueError
  | ZeroDivisionError
  | AttributeError
  | TypeError
  | CancelledError
  | OtherException.

(** [isinstance(e, Exception)]: [asyncio.CancelledError] derives from
    [BaseException] only. *)
Definition is_Exception (e : exn) : bool :=
  match e with
  | CancelledError => false
  | _ => true
  end.

Inductive result (A : Type) : Type :=
  | Ok (a : A)
  | Raise (e : exn).
Arguments Ok {A} a.
Arguments Raise {A} e.

Definition bind {A B : Type} (r : result A) (k : A -> result B) : result B :=
  match r with
  | Ok a => k a
  | Raise e => Raise e
  end.

Notation "'do' x <- r ; k" := (bind r (fun x => k))
  (at level 10, x name, r at level 100, k at level 200).

Local Open Scope Z_scope.

(** [math.ceil(a / b)] on integers: true division raises on a zero divisor;
    the quotient is rounded up.  (The source divides in floating point; for
    list lengths below 2^53 the rounded-up quotient is the exact one.) *)
Definition ceil_div (a b : Z) : result Z :=
  if b =? 0 then Raise ZeroDivisionError else Ok (- ((- a) / b)).

(** [len(range(start, stop, step))] for a non-zero step. *)
Definition range_len (start stop step : Z) : Z :=
  if (0 <? step) && (start <? stop) then 1 + (stop - 1 - start) / step
  else if (step <? 0) && (stop <? start) then 1 + (start - 1 - stop) / (- step)
  else 0.

(** [list(range(start, stop, step))]; a zero step is a [ValueError]. *)
Definition range (start stop step : Z) : result (list Z) :=
  if step =? 0 then Raise ValueError
  else Ok (map (fun k : nat => start + Z.of_nat k * step)
               (seq 0 (Z.to_nat (range_len start stop step)))).

(** [l[i:j]] for non-negative [i] and [j] (the only slices the scrapers
    take): out-of-range bounds are clamped to the list. *)
Definition slice {A : Type} (l : list A) (i j : Z) : list A :=
  take (Z.to_nat j - Z.to_nat i)%nat (drop (Z.to_nat i) l).

Definition len {A : Type} (l : list A) : Z := Z.of_nat (length l).

(** The loop the three scrapers share:
    [for i in range(0, len(l), step): l[i:i + step]]. *)
Definition slices {A : Type} (l : list A) (step : Z) : result (list (list A)) :=
  do starts <- range 0 (len l) step;
  Ok (map (fun i => slice l i (i + step)) starts).

(** Truthiness of a list ([if chunk:]). *)
Definition truthy {A : Type} (l : list A) : bool :=
  match l with [] => false | _ => true end.

(** [multiprocessing.Pool(processes=n)] raises [ValueError] for [n < 1]. *)
Definition Pool (processes : Z) : result unit :=
  if processes <? 1 then Raise ValueError else Ok tt.

End Py.
Import Py.

(** ** The partitioner: chunks for the process pool *)

Module Partitioner.

Local Open Scope Z_scope.

(** [self.num_processes = num_processes or cpu_count()] (both classes). *)
Definition init_num_processes (num_processes : option Z) (cpu_count : Z) : Z :=
  match num_processes with
  | None => cpu_count
  | Some n => if n =? 0 then cpu_count else n
  end.

(** [hybrid_scrape_articles], up to the arguments handed to the pool
    (dergipark_hybric.py, lines 559-583): the empty list returns at once,
    otherwise the URLs are cut into slices of
    [math.ceil(len(all_article_urls) / self.num_processes)] and the non-empty
    slices become one pool task each. *)
Definition hybrid_scrape_articles_chunks {A : Type}
    (num_processes : Z) (all_article_urls : list A) : result (list (list A)) :=
  if negb (truthy all_article_urls) then Ok []
  else
    do chunk_size <- ceil_div (len all_article_urls) num_processes;
    do url_chunks <- slices all_article_urls chunk_size;
    Ok (filter (fun chunk => truthy chunk = true) url_chunks).

Definition MAX_PAGES_CAP : Z := 6524.

(** [self.discover_total_pages(query=..., year_filter=...)], line 208: the
    class defines no such method and has no base class, and nothing in the
    sources adds one, so the attribute lookup raises [AttributeError]. *)
Definition discover_total_pages : result Z := Raise AttributeError.

(** Lines 207-209 of [scrape_all_articles_SIMPLE]: the page budget. *)
Definition effective_max_pages (max_pages : option Z) : result Z :=
  match max_pages with
  | None =>
      do discovered <- discover_total_pages;
      Ok (Z.min discovered MAX_PAGES_CAP)
  | Some m => Ok m
  end.

(** Line 217: [page_numbers = list(range(1, max_pages + 1))]. *)
Definition page_numbers (max_pages : Z) : result (list Z) :=
  range 1 (max_pages + 1) 1.

(** Lines 217-227 of [scrape_all_articles_SIMPLE]: the page chunks handed
    to the pool.  There is no guard for an empty page list here. *)
Definition scrape_all_articles_SIMPLE_chunks
    (num_processes : Z) (max_pages : Z) : result (list (list Z)) :=
  do pages <- page_numbers max_pages;
  do chunk_size <- ceil_div (len pages) num_processes;
  do chunks <- slices pages chunk_size;
  Ok (filter (fun chunk => truthy chunk = true) chunks).

(** Lines 207-227 of [scrape_all_articles_SIMPLE]: from the [max_pages]
    argument to the page chunks. *)
Definition scrape_all_articles_SIMPLE_schedule
    (num_processes : Z) (max_pages : option Z) : result (list (list Z)) :=
  do max_pages <- effective_max_pages max_pages;
  scrape_all_articles_SIMPLE_chunks num_processes max_pages.

(** What the pool ends up being asked to fetch. *)
Definition scheduled {A : Type} (r : result (list (list A))) : list A :=
  match r with
  | Ok chunks => concat chunks
  | Raise _ => []
  end.

(** The chunk size both partitioners compute (for a non-zero process
    count): [math.ceil(len(l) / num_processes)]. *)
Definition chunk_size_of {A : Type} (num_processes : Z) (l : list A) : Z :=
  - (- len l / num_processes).

(** Estimated unit count of a chunk of Targets (the spec's chunk weight);
    a Target is given by its estimated unit count. *)
Definition chunk_weight (chunk : list Z) : Z := foldr Z.add 0 chunk.

(** The spec's balance requirement: chunks were produced and any two of
    them differ in weight by less than the tolerance. *)
Definition balanced_within (tolerance : Z) (r : result (list (list Z))) : Prop :=
  exists chunks,
    r = Ok chunks /\
    forall c1 c2, c1 ∈ chunks -> c2 ∈ chunks ->
      Z.abs (chunk_weight c1 - chunk_weight c2) < tolerance.

End Partitioner.

(** ** The TRDizin page worker (Doaj_scraper_multiproces.py) *)

Module Doaj.

(** What [session.get], [raise_for_status] and [response.json] can raise. *)
Inductive FetchError : Type :=
  | Timeout
  | ConnectionReset
  | HttpStatus (code : Z)
  | JSONDecodeError.

(** The spec's [TransientNetwork] class: timeout, reset, 5xx. *)
Definition transient (e : FetchError) : bool :=
  match e with
  | Timeout | ConnectionReset => true
  | HttpStatus code => ((500 <=? code) && (code <? 600))%Z
  | JSONDecodeError => false
  end.

(** What a worker does to the outside world, in program order. *)
Inductive Event : Type :=
  | EvGet (page : Z)        (* session.get(api_endpoint, params={page}) *)
  | EvLogError (page : Z)   (* logging.error("Page ... failed") *)
  | EvSleep.                (* time.sleep(delay) *)

Global Instance Event_eq_dec : EqDecision Event.
Proof. solve_decision. Defined.

(** Requests made so far for one page. *)
Definition attempts (page : Z) (tr : list Event) : nat :=
  length (filter (fun e => e = EvGet page) tr).

Definition sleeps (tr : list Event) : nat :=
  length (filter (fun e => e = EvSleep) tr).

Section Worker.
Context {Resp Article : Type}.

(** The remote API: the outcome of the [k]-th request (counting from 0)
    for a page. *)
Variable fetch : Z -> nat -> FetchError + Resp.
(** [if response_data:] *)
Variable resp_truthy : Resp -> bool.
(** [extract_articles_from_response_standalone]; it can raise on a payload
    of an unexpected shape ([response_data.items()] on a non-dict). *)
Variable extract : Resp -> result (list Article).
(** [delay > 0] *)
Variable delay_positive : bool.

(** [get_articles_page_standalone]: one request; every exception is
    logged and turned into [None]. *)
Definition get_articles_page_standalone (page : Z) (tr : list Event)
    : option Resp * list Event :=
  match fetch page (attempts page tr) with
  | inr response => (Some response, tr ++ [EvGet page])
  | inl _ => (None, tr ++ [EvGet page; EvLogError page])
  end.

Definition sleep_if_delay (tr : list Event) : list Event :=
  if delay_positive then tr ++ [EvSleep] else tr.

(** The body of the [for page_num in page_numbers] loop of
    [process_page_chunk_simple], with its [try]/[except Exception]. *)
Definition process_page (st : list Article * list Event) (page_num : Z)
    : list Article * list Event :=
  let '(all_articles, tr) := st in
  let '(response_data, tr1) := get_articles_page_standalone page_num tr in
  match response_data with
  | Some response =>
      if resp_truthy response then
        match extract response with
        | Ok page_articles => (all_articles ++ page_articles, sleep_if_delay tr1)
        | Raise _ => (all_articles, tr1 ++ [EvLogError page_num])
        end
      else (all_articles, sleep_if_delay tr1)
  | None => (all_articles, sleep_if_delay tr1)
  end.

(** [process_page_chunk_simple]: returns
    [(all_articles, len(page_numbers), batch_time)]; the wall-clock
    [batch_time] is left out, the trace is added. *)
Definition process_page_chunk_simple (page_numbers : list Z) (tr : list Event)
    : list Article * nat * list Event :=
  let '(all_articles, tr') := fold_left process_page page_numbers ([], tr) in
  (all_articles, length page_numbers, tr').

(** A unit that yields nothing at its [k]-th request: the request raised,
    the payload was falsy, or extraction raised. *)
Definition attempt_fails (page : Z) (k : nat) : bool :=
  match fetch page k with
  | inl _ => true
  | inr response =>
      if resp_truthy response then
        match extract response with Ok _ => false | Raise _ => true end
      else true
  end.
(** What the [k]-th request for a page adds to [all_articles]. *)
Definition page_yield (page : Z) (k : nat) : list Article :=
  match fetch page k with
  | inl _ => []
  | inr response =>
      if resp_truthy response then
        match extract response with Ok page_articles => page_articles | Raise _ => [] end
      else []
  end.
End Worker.

(** How often a page occurs in a chunk. *)
Definition occurrences (page : Z) (pages : list Z) : nat :=
  length (filter (fun q => q = page) pages).

(** The trace of a unit whose request raises: the request, the log line
    and the fixed pause (if any); no second request, no growing pause. *)
Definition failed_unit_trace (delay_positive : bool) (page : Z) : list Event :=
  EvGet page :: EvLogError page :: (if delay_positive then [EvSleep] else []).

(** The spec's retry bound for a configured [retry_count]: a unit whose
    every request fails with a transient error is requested exactly
    [retry_count + 1] times. *)
Definition retry_bound_claim (retry_count : nat) : Prop :=
  forall (fetch : Z -> nat -> FetchError + unit) (page : Z),
    (forall k, exists e, fetch page k = inl e /\ transient e = true) ->
    attempts page
      (process_page_chunk_simple (Article := unit) fetch (fun _ => true)
         (fun _ => Ok []) true [page] []).2
    = (retry_count + 1)%nat.

End Doaj.

(** ** DergiPark: discovery, de-duplication, batches (dergipark_hybric.py) *)

Module Dergipark.

Definition MAX_JOURNAL_EXPLORE_PAGES : Z := 3.
Definition BATCH_SAVE_SIZE : nat := 1000.

(** A journal as discovery returns it. *)
Record Journal : Type := mkJournal {
  journal_slug : string;
  title : string;
  explore_url : string
}.

(** One try at a listing page: [requests.get] + [raise_for_status] + the
    selector raised, or the [(href, text)] pairs of the selected links. *)
Inductive PageOutcome : Type :=
  | PageRaises
  | PageLinks (links : list (string * string)).

Inductive DEvent : Type :=
  | DGet (page_num : Z)
  | DLogError
  | DLogNoLinks (page_num : Z).

Global Instance DEvent_eq_dec : EqDecision DEvent.
Proof. solve_decision. Defined.

Definition page_attempts (page_num : Z) (tr : list DEvent) : nat :=
  length (filter (fun e => e = DGet page_num) tr).

Section Discovery.
(** The [k]-th request (from 0) for listing page [page_num]. *)
Variable get_page : Z -> nat -> PageOutcome.
(** [re.search(r'/pub/([a-zA-Z0-9_-]+)$', href)] and its group 1. *)
Variable slug_of : string -> option string.

(** The [for link in journal_elements] loop. *)
Definition add_link (st : list Journal * gset string) (link : string * string)
    : list Journal * gset string :=
  let '(journal_data, seen_slugs) := st in
  let '(href, text) := link in
  match slug_of href with
  | Some slug =>
      if decide (slug ∈ seen_slugs) then (journal_data, seen_slugs)
      else (journal_data ++ [mkJournal slug text href], {[slug]} ∪ seen_slugs)
  | None => (journal_data, seen_slugs)
  end.

(** The [while page_num <= MAX_JOURNAL_EXPLORE_PAGES] loop, by recursion
    on the pages still to visit: [page_num] goes up by one per round, and
    both an exception and a page without links [break]. *)
Fixpoint explore (pages : list Z) (st : list Journal * gset string)
    (tr : list DEvent) : list Journal * list DEvent :=
  match pages with
  | [] => (st.1, tr)
  | page_num :: rest =>
      match get_page page_num (page_attempts page_num tr) with
      | PageRaises => (st.1, tr ++ [DGet page_num; DLogError])
      | PageLinks [] => (st.1, tr ++ [DGet page_num; DLogNoLinks page_num])
      | PageLinks journal_elements =>
          explore rest (fold_left add_link journal_elements st)
                  (tr ++ [DGet page_num])
      end
  end.

(** The pages the loop can visit: [page_num = 2], then up to the bound. *)
Definition explore_pages (max_pages : Z) : list Z :=
  map (fun k : nat => 2 + Z.of_nat k)%Z (seq 0 (Z.to_nat (max_pages - 1))).

(** [get_journal_slugs_and_titles_by_scraping] *)
Definition get_journal_slugs_and_titles_by_scraping
    : list Journal * list DEvent :=
  explore (explore_pages MAX_JOURNAL_EXPLORE_PAGES) ([], ∅) [].
End Discovery.

(** A listing page that raises once and would answer at the second request. *)
Definition flaky_page (page_num : Z) (k : nat) : PageOutcome :=
  match k with
  | O => PageRaises
  | S _ => PageLinks [("/pub/abc", "ABC")]%string
  end.

(** The spec's discovery retry for a bound [retries]: a listing page that
    raises [retries] times and then answers still has its journals
    discovered (shown on the first page visited, page 2). *)
Definition discovery_retry_claim (retries : nat) : Prop :=
  forall (get_page : Z -> nat -> PageOutcome) (slug_of : string -> option string),
    (forall k, (k < retries)%nat -> get_page 2%Z k = PageRaises) ->
    forall links, get_page 2%Z retries = PageLinks links ->
    forall j, j ∈ (fold_left (add_link slug_of) links ([], ∅)).1 ->
      j ∈ (get_journal_slugs_and_titles_by_scraping get_page slug_of).1.

(** An article record; its identity for de-duplication is [url]. *)
Record ArticleData {Payload : Type} : Type := mkArticle {
  a_journal_slug : string;
  url : string;
  payload : Payload
}.
Arguments ArticleData : clear implicits.
Arguments mkArticle {Payload}.

(** The inline de-duplication step of [collect_all_dergipark_data_HYBRID]
    (lines 369-371), as the spec's [accept]: [true] and the identity
    recorded when new, [false] and nothing changed when known. *)
Definition accept (seen_article_urls : gset string) (u : string)
    : bool * gset string :=
  if decide (u ∈ seen_article_urls) then (false, seen_article_urls)
  else (true, {[u]} ∪ seen_article_urls).

(** Lines 367-371: the [for article_data in articles_overview] loop. *)
Definition filter_new (articles_overview : list string)
    (seen_article_urls : gset string) : list string * gset string :=
  fold_left
    (fun '(new_article_urls, seen) u =>
       let '(fresh, seen') := accept seen u in
       (if fresh then new_article_urls ++ [u] else new_article_urls, seen'))
    articles_overview ([], seen_article_urls).

(** What reaches the batch manager.  [UnifiedParquetBatchManager] comes from
    [scrape_time_calculator], which is not among the sources: a call of
    [save_batch] is recorded with the records it was given, and
    [total_articles_saved] is taken as the running total of those calls. *)
Inductive PEvent {Payload : Type} : Type :=
  | SaveBatch (records : list (ArticleData Payload))
  | CreateBackup.
Arguments PEvent : clear implicits.

Definition saved {Payload : Type} (e : PEvent Payload)
    : list (ArticleData Payload) :=
  match e with SaveBatch records => records | CreateBackup => [] end.

(** Everything handed to [save_batch] so far, in order. *)
Definition persisted {Payload : Type} (log : list (PEvent Payload))
    : list (ArticleData Payload) :=
  concat (map saved log).

Definition flushes {Payload : Type} (log : list (PEvent Payload)) : nat :=
  length (filter (fun e => match e with SaveBatch _ => true | _ => false end = true) log).

(** Modelled from the spec: [UnifiedParquetBatchManager] (module
    [scrape_time_calculator]) is not among the sources; its
    [total_articles_saved] is the running total across all flushed
    batches. *)
Definition total_articles_saved {Payload : Type} (log : list (PEvent Payload))
    : nat := length (persisted log).

Section Collect.
Context {Payload : Type}.

(** [scrape_single_article_standalone]: the record of a page that came
    back with status 200 and parsed, [None] otherwise (any exception is
    caught inside). *)
Variable scrape_single : string -> string -> option Payload.
(** Whether [asyncio.run] itself raises for a chunk (the [except] of
    [process_article_chunk_standalone]). *)
Variable loop_raises : list string -> bool.
(** [collect_all_article_urls_for_journal], the URLs of its result. *)
Variable article_urls_of : string -> list string.
Variable num_processes : Z.
(** [BATCH_SAVE_SIZE], 1000 in the source. *)
Variable batch_save_size : nat.

(** [process_article_chunk_async_standalone]: [gather] keeps the order of
    the tasks; [None] results are filtered out. *)
Definition process_article_chunk_async_standalone
    (article_urls : list string) (slug : string)
    : list (ArticleData Payload) :=
  omap (fun u => mkArticle slug u <$> scrape_single u slug) article_urls.

(** [process_article_chunk_standalone] *)
Definition process_article_chunk_standalone
    (article_urls : list string) (slug : string)
    : list (ArticleData Payload) :=
  if loop_raises article_urls then []
  else process_article_chunk_async_standalone article_urls slug.

(** [hybrid_scrape_articles]: the empty list returns before any pool is
    made; [pool.map] keeps the order of the chunks. *)
Definition hybrid_scrape_articles (all_article_urls : list string)
    (slug : string) : result (list (ArticleData Payload)) :=
  if negb (truthy all_article_urls) then Ok []
  else
    do chunks <- Partitioner.hybrid_scrape_articles_chunks
                   num_processes all_article_urls;
    do pool <- Pool num_processes;
    Ok (concat (map (fun chunk => process_article_chunk_standalone chunk slug)
                    chunks)).

(** The state of the main loop of [collect_all_dergipark_data_HYBRID]. *)
Record CollectState : Type := mkState {
  seen_article_urls : gset string;
  all_articles_data : list (ArticleData Payload);
  log : list (PEvent Payload)
}.

(** Lines 386-394: the size check after a journal's articles were added.
    The backup test divides by [BATCH_SAVE_SIZE * 10]. *)
Definition maybe_flush (all_articles : list (ArticleData Payload))
    (log : list (PEvent Payload))
    : result (list (ArticleData Payload) * list (PEvent Payload)) :=
  if decide (batch_save_size <= length all_articles)%nat then
    let log1 := log ++ [SaveBatch all_articles] in
    if decide (batch_save_size * 10 = 0)%nat then Raise ZeroDivisionError
    else
      Ok ([], if decide (total_articles_saved log1 `mod` (batch_save_size * 10) = 0)%nat
              then log1 ++ [CreateBackup] else log1)
  else Ok (all_articles, log).

(** One round of [for j_data in journal_slugs_and_titles] (lines 348-394).
    The time oracle and the list of journals only log and count; they
    are left out. *)
Definition collect_journal (st : result CollectState) (j : Journal)
    : result CollectState :=
  do s <- st;
  let '(new_article_urls, seen') :=
    filter_new (article_urls_of (journal_slug j)) (seen_article_urls s) in
  if truthy new_article_urls then
    do journal_articles <- hybrid_scrape_articles new_article_urls (journal_slug j);
    do flushed <- maybe_flush (all_articles_data s ++ journal_articles) (log s);
    Ok (mkState seen' flushed.1 flushed.2)
  else Ok (mkState seen' (all_articles_data s) (log s)).

(** Everything collected so far: flushed or still in memory. *)
Definition held (s : CollectState) : list (ArticleData Payload) :=
  persisted (log s) ++ all_articles_data s.

(** The invariant of the main loop: no URL is held twice, and every held
    URL is in the seen set. *)
Definition unique_held (s : CollectState) : Prop :=
  NoDup (map url (held s)) /\
  forall r, r ∈ held s -> url r ∈ seen_article_urls s.

(** Lines 400-402: the final save. *)
Definition final_save (s : CollectState) : list (PEvent Payload) :=
  if truthy (all_articles_data s) then log s ++ [SaveBatch (all_articles_data s)]
  else log s.

(** [collect_all_dergipark_data_HYBRID], from the discovered journals to
    the calls made on the batch manager. *)
Definition collect_all_dergipark_data_HYBRID (journals : list Journal)
    : result (list (PEvent Payload)) :=
  do s <- fold_left collect_journal journals (Ok (mkState ∅ [] []));
  Ok (final_save s).
End Collect.

End Dergipark.

(** ** YOK Tez: incremental CSV and the year-sharded crawl
       (holy_yoktez_scraper.py) *)

Module YokTez.

(** A thesis is a Python dict from field names to strings. *)
Abbreviation Thesis := (gmap string string).
(** A CSV file is its lines, each a list of cells; the store maps a file
    name to its content. *)
Abbreviation Csv := (list (list string)).

Definition headers (has_pdfs : bool) : list string :=
  ["article_id"; "title"; "author"; "publication_date"; "university";
   "detail_url"] ++ (if has_pdfs then ["pdf_url"] else []).

(** [{k: t.get(k, '') for k in headers}], in header order. *)
Definition row (hs : list string) (t : Thesis) : list string :=
  map (fun k => default EmptyString (t !! k)) hs.

Definition csv_of (theses : list Thesis) (has_pdfs : bool) : Csv :=
  headers has_pdfs :: map (row (headers has_pdfs)) theses.

(** How one [open(filename, 'w')] ... [writerow] sequence goes: [open]
    raises (nothing is touched), or the file is truncated and a write
    raises after [k] lines, or everything is written. *)
Inductive IOOutcome : Type :=
  | OpenRaises
  | WriteRaisesAfter (k : nat)
  | WriteOk.

(** [_save_csv]: mode ['w'] truncates the named file and writes header and
    rows anew; any exception is caught and printed. *)
Definition _save_csv (fs : gmap string Csv) (theses : list Thesis)
    (filename : string) (has_pdfs : bool) (io : IOOutcome) : gmap string Csv :=
  if negb (truthy theses) then fs
  else
    match io with
    | OpenRaises => fs
    | WriteRaisesAfter k => <[filename := take k (csv_of theses has_pdfs)]> fs
    | WriteOk => <[filename := csv_of theses has_pdfs]> fs
    end.

(** One university of [scrape_all_universities] (lines 102-110 and
    135-143): tag the new theses, extend [all_theses], save everything
    collected so far under the one [output_filename]. *)
Definition save_incrementally (filename : string) (has_pdfs : bool)
    (st : list Thesis * gmap string Csv)
    (uni : string * list Thesis * IOOutcome) : list Thesis * gmap string Csv :=
  let '(all_theses, fs) := st in
  let '(uni_name, theses, io) := uni in
  let all_theses' :=
    if truthy theses
    then all_theses ++ map (fun t : Thesis => <["university" := uni_name]> t) theses
    else all_theses in
  (all_theses',
   if truthy all_theses' then _save_csv fs all_theses' filename has_pdfs io
   else fs).

Definition scrape_all_universities_saves (filename : string) (has_pdfs : bool)
    (unis : list (string * list Thesis * IOOutcome)) (fs : gmap string Csv)
    : list Thesis * gmap string Csv :=
  fold_left (save_incrementally filename has_pdfs) unis ([], fs).

(** Events of the year-sharded crawl; [b] is the sub-batch, [i] the slot
    of a year (and of its browser context) inside the sub-batch. *)
Inductive BEvent : Type :=
  | NewContext (b i : nat)
  | TaskStart (b i : nat)
  | TaskDone (b i : nat)
  | CloseContext (b i : nat)
  | BSleep (b : nat).

Global Instance BEvent_eq_dec : EqDecision BEvent.
Proof. solve_decision. Defined.

Definition batch_of (e : BEvent) : nat :=
  match e with
  | NewContext b _ | TaskStart b _ | TaskDone b _ | CloseContext b _ | BSleep b => b
  end.

Section ByYear.
Context {T : Type}.

(** Whether [browser.new_context] / [ctx.close] returns (or raises) for
    slot [i] of sub-batch [b]. *)
Variable new_context_ok : nat -> nat -> bool.
Variable close_ok : nat -> nat -> bool.
(** [_scrape_single_year] for a year: its list, or the exception it let
    through ([context.new_page] and [page.close] are outside its [try],
    and its [except Exception] lets a [CancelledError] pass). *)
Variable single_year : Z -> result (list T).
(** The event loop: the order in which the starts and completions of the
    tasks of sub-batch [b] happen under [asyncio.gather]. *)
Variable schedule : nat -> list BEvent -> list BEvent.
(** The [extract_pdfs] argument, and what
    [self._extract_pdf_urls_concurrent(context, all_theses, pdf_batch)]
    returns or raises. *)
Variable extract_pdfs : bool.
Variable pdf_pass : list T -> result (list T).

(** Lines 232-238: one context per year of the sub-batch, one after the
    other; an exception leaves the loop (and the function). *)
Fixpoint open_contexts (b : nat) (slots : list nat) (tr : list BEvent)
    : result unit * list BEvent :=
  match slots with
  | [] => (Ok tt, tr)
  | i :: rest =>
      if new_context_ok b i then open_contexts b rest (tr ++ [NewContext b i])
      else (Raise OtherException, tr)
  end.

(** Lines 256-258: the [finally] block. *)
Fixpoint close_contexts (b : nat) (slots : list nat) (tr : list BEvent)
    : result unit * list BEvent :=
  match slots with
  | [] => (Ok tt, tr)
  | i :: rest =>
      if close_ok b i then close_contexts b rest (tr ++ [CloseContext b i])
      else (Raise OtherException, tr)
  end.

Definition task_events (b n : nat) : list BEvent :=
  flat_map (fun i => [TaskStart b i; TaskDone b i]) (seq 0 n).

(** Lines 248-254: the results of [gather(..., return_exceptions=True)]
    in year order. A result that is an instance of [Exception] is skipped.
    A [CancelledError] is not one: it is truthy and goes to
    [all_theses.extend], which raises [TypeError]. *)
Fixpoint collect_results (batch_years : list Z) (all_theses : list T)
    : result (list T) :=
  match batch_years with
  | [] => Ok all_theses
  | year :: rest =>
      match single_year year with
      | Ok theses => collect_results rest (all_theses ++ theses)
      | Raise e =>
          if is_Exception e then collect_results rest all_theses
          else Raise TypeError
      end
  end.

(** One round of [for batch_start in range(0, len(years), year_batch)]:
    the contexts are opened, the tasks run and their results are
    collected in the [try], the [finally] closes the contexts (an
    exception of [close] replaces one of the [try]), then the pause. *)
Definition run_batch (b : nat) (batch_years : list Z)
    (all_theses : list T) (tr : list BEvent) : result (list T) * list BEvent :=
  let slots := seq 0 (length batch_years) in
  match open_contexts b slots tr with
  | (Raise e, tr1) => (Raise e, tr1)
  | (Ok _, tr1) =>
      let tr2 := tr1 ++ schedule b (task_events b (length batch_years)) in
      match close_contexts b slots tr2 with
      | (Raise e, tr3) => (Raise e, tr3)
      | (Ok _, tr3) =>
          match collect_results batch_years all_theses with
          | Raise e => (Raise e, tr3)
          | Ok all_theses' => (Ok all_theses', tr3 ++ [BSleep b])
          end
      end
  end.

Fixpoint run_batches (b : nat) (batches : list (list Z))
    (all_theses : list T) (tr : list BEvent) : result (list T) * list BEvent :=
  match batches with
  | [] => (Ok all_theses, tr)
  | batch_years :: rest =>
      match run_batch b batch_years all_theses tr with
      | (Raise e, tr') => (Raise e, tr')
      | (Ok all_theses', tr') => run_batches (S b) rest all_theses' tr'
      end
  end.

(** Lines 262-271: the PDF pass after the loop, in a context of its own
    (slot 0 of the round after the last sub-batch). Nothing is caught here:
    when the pass raises, [context.close()] is not reached. *)
Definition pdf_extraction (b : nat) (all_theses : list T) (tr : list BEvent)
    : result (list T) * list BEvent :=
  if extract_pdfs && truthy all_theses then
    if new_context_ok b 0 then
      match pdf_pass all_theses with
      | Raise e => (Raise e, tr ++ [NewContext b 0])
      | Ok theses =>
          if close_ok b 0
          then (Ok theses, tr ++ [NewContext b 0; CloseContext b 0])
          else (Raise OtherException, tr ++ [NewContext b 0])
      end
    else (Raise OtherException, tr)
  else (Ok all_theses, tr).

(** [_scrape_university_by_year], lines 222-273. *)
Definition _scrape_university_by_year (years : list Z) (year_batch : Z)
    : result (list T) * list BEvent :=
  match slices years year_batch with
  | Raise e => (Raise e, [])
  | Ok batches =>
      match run_batches 0 batches [] [] with
      | (Raise e, tr) => (Raise e, tr)
      | (Ok all_theses, tr) => pdf_extraction (length batches) all_theses tr
      end
  end.
End ByYear.


(** Contexts opened and not yet closed after a trace. *)
Definition track (open : list (nat * nat)) (e : BEvent) : list (nat * nat) :=
  match e with
  | NewContext b i => open ++ [(b, i)]
  | CloseContext b i => filter (fun c => c <> (b, i)) open
  | _ => open
  end.

Definition unreleased (tr : list BEvent) : list (nat * nat) :=
  fold_left track tr [].

(** Sub-batches are strictly sequential: whenever anything of a sub-batch
    happens (a context is opened, a year's task starts or completes, ...),
    every context still open belongs to that same sub-batch. *)
Definition sequential (tr : list BEvent) : Prop :=
  forall tr1 e tr2, tr = tr1 ++ e :: tr2 ->
    forall c, c ∈ unreleased tr1 -> c.1 = batch_of e.

(** Every open context belongs to sub-batch [b]. *)
Definition owned (b : nat) (tr : list BEvent) : Prop :=
  forall c, c ∈ unreleased tr -> c.1 = b.

Definition is_task (e : BEvent) : Prop :=
  match e with TaskStart _ _ | TaskDone _ _ => True | _ => False end.

(** The spec's append-only persistence: a flush leaves every artifact
    written before it as it was, also when the flush fails. *)
Definition append_only_claim : Prop :=
  forall (fs : gmap string Csv) theses filename has_pdfs io f content,
    fs !! f = Some content ->
    _save_csv fs theses filename has_pdfs io !! f = Some content.

End YokTez.

(** ** The page worker that counts its pages
       (Doaj_scraper_multiproces.py, lines 530-572) *)

Module DoajOracle.
Import Doaj.

(** The [logging.info] and [logging.warning] lines of the loop. *)
Inductive LogLine : Type :=
  | InfoPage (page : Z) (articles : nat)   (* "Page p: n articles" *)
  | WarnNoData (page : Z).                 (* "Page p: No data returned" *)

Section Worker.
Context {Resp Article : Type}.
Variable fetch : Z -> nat -> FetchError + Resp.
Variable resp_truthy : Resp -> bool.
Variable extract : Resp -> result (list Article).
Variable delay_positive : bool.

(** The state of the loop: [all_articles],
    [pages_successfully_processed], the trace of requests, error lines and
    sleeps, and the info and warning lines. *)
Record State : Type := mkState {
  all_articles : list Article;
  pages_successfully_processed : nat;
  trace : list Event;
  log_lines : list LogLine
}.

(** The body of the loop of [process_page_chunk_with_oracle_standalone]. *)
Definition process_page (st : State) (page_num : Z) : State :=
  let '(response_data, tr1) :=
    get_articles_page_standalone fetch page_num (trace st) in
  let no_data :=
    mkState (all_articles st) (pages_successfully_processed st)
      (sleep_if_delay delay_positive tr1)
      (log_lines st ++ [WarnNoData page_num]) in
  match response_data with
  | Some response =>
      if resp_truthy response then
        match extract response with
        | Ok page_articles =>
            mkState (all_articles st ++ page_articles)
              (S (pages_successfully_processed st))
              (sleep_if_delay delay_positive tr1)
              (log_lines st ++ [InfoPage page_num (length page_articles)])
        | Raise _ =>
            mkState (all_articles st) (pages_successfully_processed st)
              (tr1 ++ [EvLogError page_num]) (log_lines st)
        end
      else no_data
  | None => no_data
  end.

(** [process_page_chunk_with_oracle_standalone]: the final state holds the
    returned [all_articles] and [pages_successfully_processed] (the
    [process_id] is handed back unchanged). *)
Definition process_page_chunk_with_oracle_standalone
    (page_numbers : list Z) (tr : list Event) : State :=
  fold_left process_page page_numbers (mkState [] 0 tr []).
End Worker.

End DoajOracle.

(** ** PDF links of the theses (holy_yoktez_scraper.py, lines 322-359) *)

Module PdfUrls.
Import YokTez.

Definition base_url : string := "https://tez.yok.gov.tr/UlusalTezMerkezi".

(** What happens when [extract_single] visits a detail page:
    [context.new_page] raises; or the page is opened and [page.close] (in
    the [finally]) raises; or the visit ends with the key of the
    [TezGoster?key=...] link, [None] when [goto] or [content] raised (the
    bare [except]) or the page has no such link. *)
Inductive Visit : Type :=
  | NewPageRaises
  | CloseRaises
  | Visited (key : option string).

(** [asyncio.gather] without [return_exceptions]: all results in task
    order, or an exception of a task. *)
Fixpoint gather {A : Type} (tasks : list (result A)) : result (list A) :=
  match tasks with
  | [] => Ok []
  | task :: rest =>
      do r <- task;
      do rs <- gather rest;
      Ok (r :: rs)
  end.

Section Extract.
Variable visit : string -> Visit.

(** [extract_single]: sets [thesis['pdf_url']] and returns the thesis. *)
Definition extract_single (thesis : Thesis) : result Thesis :=
  match thesis !! "detail_url"%string with
  | None | Some EmptyString => Ok (<["pdf_url"%string := EmptyString]> thesis)
  | Some detail_url =>
      match visit detail_url with
      | NewPageRaises | CloseRaises => Raise OtherException
      | Visited (Some key) =>
          Ok (<["pdf_url"%string :=
                (base_url ++ "/TezGoster?key=" ++ key)%string]> thesis)
      | Visited None => Ok (<["pdf_url"%string := EmptyString]> thesis)
      end
  end.

(** The loop over the batches; the second component counts the
    [asyncio.sleep] calls between batches. *)
Fixpoint extract_batches (batches : list (list Thesis)) (i : Z)
    (batch_size : Z) (total : Z) (results : list Thesis) (sleeps : nat)
    : result (list Thesis) * nat :=
  match batches with
  | [] => (Ok results, sleeps)
  | batch :: rest =>
      match gather (map extract_single batch) with
      | Raise e => (Raise e, sleeps)
      | Ok batch_results =>
          extract_batches rest (i + batch_size) batch_size total
            (results ++ batch_results)
            (if (i + batch_size <? total)%Z then S sleeps else sleeps)
      end
  end.

(** [_extract_pdf_urls_concurrent] *)
Definition _extract_pdf_urls_concurrent (theses : list Thesis) (batch_size : Z)
    : result (list Thesis) * nat :=
  match slices theses batch_size with
  | Raise e => (Raise e, 0%nat)
  | Ok batches => extract_batches batches 0 batch_size (len theses) [] 0
  end.
End Extract.

End PdfUrls.

(** ** Articles out of a TRDizin response
    (Doaj_scraper_multiproces.py, lines 389-502) *)

Module DoajParse.

(** The values [response.json()] can return. A dict is the list of its
    items in insertion order; its keys are distinct. *)
Inductive Json : Type :=
  | JNone
  | JBool (b : bool)
  | JInt (n : Z)
  | JFloat (f : PrimFloat.float)
  | JStr (s : string)
  | JList (elems : list Json)
  | JDict (items : list (string * Json)).

(** [bool(v)] *)
Definition truth (v : Json) : bool :=
  match v with
  | JNone => false
  | JBool b => b
  | JInt n => negb (n =? 0)%Z
  | JFloat f => negb (PrimFloat.eqb f PrimFloat.zero)
  | JStr s => match s with EmptyString => false | _ => true end
  | JList elems => match elems with [] => false | _ => true end
  | JDict items => match items with [] => false | _ => true end
  end.

(** [key in d], [d[key]] and [d.get(key)] on the items of a dict. *)
Fixpoint dict_lookup (items : list (string * Json)) (key : string) : option Json :=
  match items with
  | [] => None
  | (k, v) :: rest => if String.eqb k key then Some v else dict_lookup rest key
  end.

(** [d.get(key, default)] *)
Definition dict_get (items : list (string * Json)) (key : string) (default : Json) : Json :=
  match dict_lookup items key with
  | Some v => v
  | None => default
  end.

(** [isinstance(v, int)]: [bool] is a subclass of [int]. *)
Definition isinstance_int (v : Json) : bool :=
  match v with
  | JInt _ | JBool _ => true
  | _ => false
  end.

(** The [Article] dataclass; the fields hold what the parser puts there. *)
Record Article : Type := {
  article_id : string;
  titles : list Json;
  abstracts : list Json;
  authors : list Json;
  publication_year : Json;
  journal_info : Json;
  doi : Json
}.

(** [{'language': language, 'title': title}] *)
Definition title_entry (language title : Json) : Json :=
  JDict [("language"%string, language); ("title"%string, title)].

(** The body of the loop over [abstracts]. *)
Definition title_of_abstract (abstract_obj : Json) : option Json :=
  match abstract_obj with
  | JDict a =>
      match dict_lookup a "title", dict_lookup a "language" with
      | Some title, Some language => Some (title_entry language title)
      | _, _ => None
      end
  | _ => None
  end.

(** [x in l] for a string [x]: equality with an element. *)
Definition list_has_str (x : string) (elems : list Json) : bool :=
  existsb (fun v => match v with JStr s => String.eqb x s | _ => false end) elems.

(** The [for key, value in response_data.items()] loop: the first value
    that is a non-empty list starting with a dict that has [_source]. *)
Fixpoint find_hits (items : list (string * Json)) : list Json :=
  match items with
  | [] => []
  | (key, value) :: rest =>
      match value with
      | JList (JDict first :: others) =>
          match dict_lookup first "_source" with
          | Some _ => JDict first :: others
          | None => find_hits rest
          end
      | _ => find_hits rest
      end
  end.

(** A hit that carries an object under [_source]. *)
Definition source_of (hit : Json) : option (list (string * Json)) :=
  match hit with
  | JDict h =>
      match dict_lookup h "_source" with
      | Some (JDict source_data) => Some source_data
      | _ => None
      end
  | _ => None
  end.

(** A value [for hit in hits] cannot iterate over. *)
Definition scalar (v : Json) : bool :=
  match v with
  | JNone | JBool _ | JInt _ | JFloat _ => true
  | _ => false
  end.

Section Parse.
(** [str(v)] *)
Variable py_str : Json -> string.
(** [int(s)] for a string; [None] when it raises [ValueError]. *)
Variable py_int : string -> option Z.

(** The identifier the parser gives to a source object:
    [str(source_data.get('id', 'unknown'))]. *)
Definition source_id (src : list (string * Json)) : string :=
  py_str (dict_get src "id" (JStr "unknown")).

(** [parse_article_from_source_standalone]. On a dict nothing in the [try]
    raises. On any other value [source_data.get] raises in the [try] and
    again in the handler, so the exception leaves the function. *)
Definition parse_article_from_source_standalone (source_data : Json)
    : result Article :=
  match source_data with
  | JDict src =>
      let article_id := dict_get src "id" (JStr "unknown") in
      let abstracts := dict_get src "abstracts" (JList []) in
      let titles :=
        match abstracts with
        | JList elems => omap title_of_abstract elems
        | _ =>
            match dict_lookup src "title" with
            | Some title =>
                [title_entry (dict_get src "language" (JStr "UNK")) title]
            | None => []
            end
        end in
      let authors :=
        match dict_get src "authors" (JList []) with
        | JList elems => elems
        | JDict a => [JDict a]
        | _ => []
        end in
      let pub_year :=
        match dict_get src "publicationYear" JNone with
        | JStr s =>
            match py_int s with
            | Some n => JInt n
            | None => JNone
            end
        | v => if isinstance_int v then v else JNone
        end in
      let journal_info :=
        match dict_get src "journal" (JDict []) with
        | JNone => JDict []
        | v => v
        end in
      let doi :=
        match dict_get src "doi" JNone with
        | JNone => JNone
        | JStr s => JStr s
        | v => if truth v then JStr (py_str v) else JNone
        end in
      let abstracts :=
        match abstracts with
        | JList elems => elems
        | JDict a => [JDict a]
        | _ => []
        end in
      Ok {| article_id := py_str article_id;
            titles := titles;
            abstracts := abstracts;
            authors := authors;
            publication_year := pub_year;
            journal_info := journal_info;
            doi := doi |}
  | _ => Raise OtherException
  end.

(** The body of the [for hit in hits] loop, with its [try]/[except]: the
    article of the hit, if it adds one. *)
Definition parse_hit (hit : Json) : option Article :=
  match hit with
  | JDict h =>
      match dict_lookup h "_source" with
      | Some source_data =>
          match parse_article_from_source_standalone source_data with
          | Ok article => Some article
          | Raise _ => None
          end
      | None => None
      end
  | _ => None
  end.

(** [for hit in hits]: a list gives its elements; a dict gives its keys
    and a string its characters, which are strings and add nothing;
    iterating over anything else raises [TypeError]. *)
Definition articles_of_hits (hits : Json) : result (list Article) :=
  match hits with
  | JList elems => Ok (omap parse_hit elems)
  | JDict _ | JStr _ => Ok []
  | _ => Raise OtherException
  end.

(** [extract_articles_from_response_standalone]. A string raises at
    [response_data['hits']] or at [.items()], a number at
    ['hits' in response_data]; a list that has the string ['hits'] among
    its elements raises at [response_data['hits']]. *)
Definition extract_articles_from_response_standalone (response_data : Json)
    : result (list Article) :=
  if negb (truth response_data) then Ok []
  else
    match response_data with
    | JDict d =>
        match dict_lookup d "hits" with
        | Some (JDict inner) => articles_of_hits (dict_get inner "hits" (JList []))
        | _ => articles_of_hits (JList (find_hits d))
        end
    | JList elems =>
        if list_has_str "hits" elems then Raise OtherException
        else articles_of_hits (JList elems)
    | _ => Raise OtherException
    end.
End Parse.

End DoajParse.

(** ** The TRDizin run (Doaj_scraper_multiproces.py, lines 197-251) *)

Module DoajRun.
Import Partitioner Doaj.

(** What a run leaves behind: its return value, the
    [file_manager.save_batch] calls and the page counts of the
    [tracker.update_progress] calls, in program order.
    [SimpleFileManager] and [SimpleTRDizinTracker] are not in the sources. *)
Record Run (Article : Type) : Type := mkRun {
  returned : list Article;
  save_batch_calls : list (list Article);
  update_progress_calls : list nat
}.
Arguments mkRun {Article} _ _ _.
Arguments returned {Article} _.
Arguments save_batch_calls {Article} _.
Arguments update_progress_calls {Article} _.

Section Run.
Context {Resp Article : Type}.
Variable fetch : Z -> nat -> FetchError + Resp.
Variable resp_truthy : Resp -> bool.
Variable extract : Resp -> result (list Article).
Variable delay_positive : bool.

(** [pool.map(process_page_chunk_simple, process_args)]: each chunk goes to
    a worker that starts from an empty article list and makes its own
    requests; the results come back in the order of the chunks. *)
Definition pool_map (process_args : list (list Z))
    : list (list Article * nat * list Event) :=
  map (fun chunk =>
         process_page_chunk_simple fetch resp_truthy extract delay_positive
           chunk [])
      process_args.

(** [scrape_all_articles_SIMPLE]: it returns [[]]; the articles go to
    [save_batch], one call per chunk that has any. *)
Definition scrape_all_articles_SIMPLE (num_processes : Z)
    (max_pages : option Z) : result (Run Article) :=
  do process_args <- scrape_all_articles_SIMPLE_schedule num_processes max_pages;
  do pool <- Pool num_processes;
  let chunk_results := pool_map process_args in
  Ok (mkRun []
        (filter (fun chunk_articles => truthy chunk_articles = true)
                (map (fun r => r.1.1) chunk_results))
        (map (fun r => r.1.2) chunk_results)).
End Run.

End DoajRun.

(** ** DergiPark: the article links of one journal
    (dergipark_hybric.py, lines 110-193 and 240-327) *)

Module DergiparkIssues.

Definition BASE_URL : string := "https://dergipark.org.tr".

(** [needle in hay] on strings. *)
Fixpoint contains (needle hay : string) : bool :=
  if String.prefix needle hay then true
  else
    match hay with
    | EmptyString => false
    | String _ rest => contains needle rest
    end.

(** [{'url': ..., 'title': ...}] *)
Record IssueLink : Type := mkIssue {
  issue_url : string;
  issue_title : string
}.

(** [{'url': ..., 'title': ..., 'journal_slug': ...}] *)
Record ArticleLink : Type := mkLink {
  url : string;
  title : string;
  journal_slug : string
}.

(** The outcome of a GET: an exception (also one raised while the body is
    read), or a status code and a body. *)
Inductive Response (Html : Type) : Type :=
  | GetRaises
  | Status (code : Z) (html : Html).
Arguments GetRaises {Html}.
Arguments Status {Html} code html.

(** The requests of a crawl: [requests.get] and the [session.get] of the
    asynchronous path. *)
Inductive Request : Type :=
  | RequestsGet (u : string)
  | SessionGet (u : string).

(** [response.raise_for_status()] raises on 4xx and 5xx. *)
Definition raise_for_status (code : Z) : bool :=
  ((400 <=? code) && (code <? 600))%Z.

Section Journal.
Context {Html : Type}.
Variable requests_get : string -> Response Html.
Variable session_get : string -> Response Html.
(** [href] and text of the elements matched by
    [a[href*="/issue/"]:not([href*="/article/"])]. *)
Variable issue_anchors : Html -> list (string * string).
(** [href] and text of the article link of every card that has one. *)
Variable article_cards : Html -> list (string * string).
Variable urljoin : string -> string -> string.

(** [scrape_issue_links_from_archive]: every exception ends in the empty
    list. *)
Definition scrape_issue_links_from_archive (archive_url : string)
    : list IssueLink :=
  match requests_get archive_url with
  | GetRaises => []
  | Status code html =>
      if raise_for_status code then []
      else
        omap (fun link : string * string =>
                let full_url := urljoin archive_url link.1 in
                if contains "/issue/" full_url
                   && negb (contains "article" full_url)
                then Some (mkIssue full_url link.2)
                else None)
             (issue_anchors html)
  end.

(** [extract_articles_from_issue_html] *)
Definition extract_articles_from_issue_html (html_content : Html)
    (issue_url journal_slug : string) : list ArticleLink :=
  map (fun card : string * string =>
         mkLink (urljoin issue_url card.1) card.2 journal_slug)
      (article_cards html_content).

(** [scrape_articles_from_issue_page]: the same cards, read with
    [requests.get]; every exception ends in the empty list. *)
Definition scrape_articles_from_issue_page (issue_url journal_slug : string)
    : list ArticleLink :=
  match requests_get issue_url with
  | GetRaises => []
  | Status code html =>
      if raise_for_status code then []
      else
        map (fun card : string * string =>
               mkLink (urljoin issue_url card.1) card.2 journal_slug)
            (article_cards html)
  end.

(** [scrape_single_issue_async]: [[]] on an exception, and nothing at all
    ([None]) on a status other than 200. *)
Definition scrape_single_issue_async (issue_data : IssueLink)
    (journal_slug : string) : option (list ArticleLink) :=
  match session_get (issue_url issue_data) with
  | GetRaises => Some []
  | Status code html =>
      if (code =? 200)%Z
      then Some (extract_articles_from_issue_html html (issue_url issue_data)
                   journal_slug)
      else None
  end.

(** [scrape_all_issues_parallel]: the results that are lists, flattened in
    the order of the issues. The session is taken to open. *)
Definition scrape_all_issues_parallel (issue_links : list IssueLink)
    (journal_slug : string) : list ArticleLink :=
  concat (omap (fun issue => scrape_single_issue_async issue journal_slug)
               issue_links).

(** [collect_all_article_urls_for_journal], with the requests it makes:
    the archive, then either the journal's main page or one request per
    issue. *)
Definition collect_all_article_urls_for_journal (journal_slug : string)
    : list ArticleLink * list Request :=
  let archive_url := (BASE_URL ++ "/en/pub/" ++ journal_slug ++ "/archive")%string in
  let issue_links := scrape_issue_links_from_archive archive_url in
  if negb (truthy issue_links) then
    let main_journal_url := (BASE_URL ++ "/en/pub/" ++ journal_slug)%string in
    (scrape_articles_from_issue_page main_journal_url journal_slug,
     [RequestsGet archive_url; RequestsGet main_journal_url])
  else
    (scrape_all_issues_parallel issue_links journal_slug,
     RequestsGet archive_url
       :: map (fun issue => SessionGet (issue_url issue)) issue_links).
End Journal.

End DergiparkIssues.

(** ** YOK Tez: a run that is cut short
    (holy_yoktez_scraper.py, lines 82-170) *)

Module YokTezRun.
Import YokTez.

(** A university with the end of its scrape and of the save after it. The
    scrape ends with its theses or with an exception, of
    [_scrape_university_by_year], [browser.new_context],
    [_scrape_university_simple] or [context.close]; nothing in
    [scrape_all_universities] catches it. *)
Abbreviation University := (string * result (list Thesis) * IOOutcome)%type.

(** The two loops of [scrape_all_universities], over the large and then
    the small universities, with the file store they leave; an exception
    of a scrape ends them. *)
Fixpoint visit_universities (filename : string) (has_pdfs : bool)
    (unis : list University) (all_theses : list Thesis)
    (fs : gmap string Csv) : result (list Thesis) * gmap string Csv :=
  match unis with
  | [] => (Ok all_theses, fs)
  | (uni_name, Raise e, _) :: _ => (Raise e, fs)
  | (uni_name, Ok theses, io) :: rest =>
      let st := save_incrementally filename has_pdfs (all_theses, fs)
                  (uni_name, theses, io) in
      visit_universities filename has_pdfs rest st.1 st.2
  end.

(** [scrape_all_universities] from the launch of the browser on: the
    loops, then the [finally] with [browser.close()], whose exception
    replaces the outcome of the loops. *)
Definition scrape_all_universities (filename : string) (has_pdfs : bool)
    (unis : list University) (browser_close : result unit)
    (fs : gmap string Csv) : result (list Thesis) * gmap string Csv :=
  let loops := visit_universities filename has_pdfs unis [] fs in
  (match browser_close with
   | Raise e => Raise e
   | Ok _ => loops.1
   end,
   loops.2).


(** A university whose scrape returns. *)
Definition returns (uni : string * list Thesis * IOOutcome) : University :=
  (uni.1.1, Ok uni.1.2, uni.2).

End YokTezRun.

(** ** Further notions about the crawls *)

Module Crawl.

(** Every batch handed to [save_batch] so far held at least
    [batch_save_size] records. *)
Definition full_batches {Payload : Type} (batch_save_size : nat)
    (log : list (Dergipark.PEvent Payload)) : Prop :=
  Forall (fun e => match e with
                   | Dergipark.SaveBatch records =>
                       (batch_save_size <= length records)%nat
                   | Dergipark.CreateBackup => True
                   end) log.

(** Reference for the de-duplication index, after the spec's
    [DedupIndex]: of a list of offers, the first offer of every identity
    that is not in [seen], in order. *)
Fixpoint first_offers {A : Type} (identity : A -> string) (seen : gset string)
    (offers : list A) : list A :=
  match offers with
  | [] => []
  | o :: rest =>
      if decide (identity o ∈ seen) then first_offers identity seen rest
      else o :: first_offers identity ({[identity o]} ∪ seen) rest
  end.

(** Every article URL that the overviews of the journals list, in the
    order of the run, each with the slug of the journal that lists it. *)
Definition offers (article_urls_of : string -> list string)
    (journals : list Dergipark.Journal) : list (string * string) :=
  flat_map (fun j => map (fun u => (u, Dergipark.journal_slug j))
                         (article_urls_of (Dergipark.journal_slug j)))
           journals.

(** The record of an offer, if its page is fetched and parsed. *)
Definition record_of {Payload : Type}
    (scrape_single : string -> string -> option Payload)
    (o : string * string) : option (Dergipark.ArticleData Payload) :=
  Dergipark.mkArticle o.2 o.1 <$> scrape_single o.1 o.2.

(** What a run in which no worker loop raises is to persist: the record
    of the first offer of each URL, where there is one. *)
Definition expected_records {Payload : Type}
    (scrape_single : string -> string -> option Payload)
    (article_urls_of : string -> list string)
    (journals : list Dergipark.Journal)
    : list (Dergipark.ArticleData Payload) :=
  omap (record_of scrape_single)
       (first_offers fst ∅ (offers article_urls_of journals)).

(** The copies of an identity among records. *)
Definition copies {Payload : Type} (u : string)
    (records : list (Dergipark.ArticleData Payload)) : nat :=
  length (filter (fun r => Dergipark.url r = u) records).

(** The spec's "the persisted output contains exactly one copy per
    identity", for the identities the run offers to the index. *)
Definition exactly_one_copy_claim : Prop :=
  forall (Payload : Type) (scrape_single : string -> string -> option Payload)
         (loop_raises : list string -> bool)
         (article_urls_of : string -> list string)
         (num_processes : Z) (batch_save_size : nat)
         (journals : list Dergipark.Journal) log j u,
    (1 <= num_processes)%Z -> (0 < batch_save_size)%nat ->
    Dergipark.collect_all_dergipark_data_HYBRID scrape_single loop_raises
      article_urls_of num_processes batch_save_size journals = Ok log ->
    j ∈ journals ->
    u ∈ article_urls_of (Dergipark.journal_slug j) ->
    copies u (Dergipark.persisted log) = 1%nat.

(** At no point of a trace are more than [k] browser contexts open. *)
Definition pool_bounded (k : nat) (tr : list YokTez.BEvent) : Prop :=
  forall tr1 tr2, tr = tr1 ++ tr2 -> (length (YokTez.unreleased tr1) <= k)%nat.

(** The theses of the years whose task returned, in year order. *)
Definition year_theses {T : Type} (single_year : Z -> result (list T))
    (years : list Z) : list T :=
  concat (map (fun y => match single_year y with
                        | Ok theses => theses
                        | Raise _ => []
                        end) years).

(** Lines 103-104 and 136-137 of [scrape_all_universities]:
    [t['university'] = uni_name] for every thesis of a university. *)
Definition tag_university (uni : string * list YokTez.Thesis * YokTez.IOOutcome)
    : list YokTez.Thesis :=
  map (fun t : YokTez.Thesis => <["university" := uni.1.1]> t) uni.1.2.

(** What discovery keeps true of its state: slugs are distinct, every slug
    found is in [seen_slugs], and each journal's slug is the one its link
    matched. *)
Definition discovery_inv (slug_of : string -> option string)
    (st : list Dergipark.Journal * gset string) : Prop :=
  NoDup (map Dergipark.journal_slug st.1) /\
  (forall j, j ∈ st.1 -> Dergipark.journal_slug j ∈ st.2) /\
  (forall j, j ∈ st.1 ->
     slug_of (Dergipark.explore_url j) = Some (Dergipark.journal_slug j)).

End Crawl.

(** * Facts *)

(** ** Slices and chunks *)

Import Partitioner.

Section SliceFacts.
Context {A : Type}.
Implicit Types l : list A.

Lemma concat_take_drop l (s m : nat) :
  concat (map (fun k => take s (drop (k * s) l)) (seq 0 m)) = take (m * s) l.
Proof.
  induction m as [|m IH]; [by rewrite take_0|].
  rewrite seq_S, map_app, concat_app, IH. simpl.
  rewrite app_nil_r, take_take_drop. f_equal. lia.
Qed.

Lemma range_len_pos (n step : Z) :
  (0 < step)%Z -> (0 <= n)%Z ->
  (n <= range_len 0 n step * step < n + step)%Z.
Proof.
  intros Hs Hn. unfold range_len.
  destruct (0 <? step)%Z eqn:E1; [|lia].
  destruct (0 <? n)%Z eqn:E2; simpl.
  - apply Z.ltb_lt in E2.
    pose proof (Z.mul_div_le (n - 1 - 0) step Hs).
    pose proof (Z.mul_succ_div_gt (n - 1 - 0) step Hs). lia.
  - apply Z.ltb_ge in E2. assert (n = 0)%Z by lia. subst.
    destruct (step <? 0)%Z eqn:E3; simpl; lia.
Qed.

Lemma slices_pos l (step : Z) :
  (0 < step)%Z ->
  slices l step =
    Ok (map (fun k => take (Z.to_nat step) (drop (k * Z.to_nat step) l))
            (seq 0 (Z.to_nat (range_len 0 (len l) step)))).
Proof.
  intros Hs. unfold slices, range.
  destruct (step =? 0)%Z eqn:E; [lia|]. simpl. f_equal.
  rewrite map_map. apply map_ext. intros k. unfold slice.
  f_equal; [lia|f_equal; lia].
Qed.

Lemma slices_concat l (step : Z) chunks :
  (0 < step)%Z -> slices l step = Ok chunks -> concat chunks = l.
Proof.
  intros Hs. rewrite slices_pos by done. intros [= <-].
  rewrite concat_take_drop. apply take_ge.
  pose proof (range_len_pos (len l) step Hs ltac:(unfold len; lia)).
  unfold len in *. nia.
Qed.

Lemma slices_lookup l (step : Z) chunks (k : nat) c :
  (0 < step)%Z -> slices l step = Ok chunks -> chunks !! k = Some c ->
  c = take (Z.to_nat step) (drop (k * Z.to_nat step) l) /\
  (k * Z.to_nat step < length l)%nat.
Proof.
  intros Hs. rewrite slices_pos by done. intros [= <-] Hk.
  change (map ?f ?l0) with (f <$> l0) in Hk.
  apply list_lookup_fmap_Some in Hk as (j & -> & Hj).
  apply lookup_seq in Hj as [-> Hlt]. split; [done|].
  pose proof (range_len_pos (len l) step Hs ltac:(unfold len; lia)).
  unfold len in *. simpl. nia.
Qed.

Lemma slices_length l (step : Z) chunks :
  (0 < step)%Z -> slices l step = Ok chunks ->
  length chunks = Z.to_nat (range_len 0 (len l) step).
Proof.
  intros Hs. rewrite slices_pos by done. intros [= <-].
  by rewrite length_map, length_seq.
Qed.

Lemma slices_nonempty l (step : Z) chunks :
  (0 < step)%Z -> slices l step = Ok chunks ->
  Forall (fun c => truthy c = true) chunks.
Proof.
  intros Hs Hsl. apply Forall_lookup. intros k c Hk.
  destruct (slices_lookup _ _ _ _ _ Hs Hsl Hk) as [-> Hlt].
  assert (Hlen : length (take (Z.to_nat step) (drop (k * Z.to_nat step) l)) <> 0%nat).
  { rewrite length_take, length_drop. lia. }
  by destruct (take _ _).
Qed.

Lemma filter_truthy_id (chunks : list (list A)) :
  Forall (fun c => truthy c = true) chunks ->
  filter (fun c => truthy c = true) chunks = chunks.
Proof.
  induction 1 as [|c cs Hc _ IH]; [done|].
  rewrite filter_cons. destruct (decide _); [by rewrite IH | done].
Qed.

Lemma slices_zero l : slices l 0 = Raise ValueError.
Proof. reflexivity. Qed.
End SliceFacts.

Lemma ceil_div_pos (a n : Z) :
  (0 < a)%Z -> (1 <= n)%Z ->
  exists s, ceil_div a n = Ok s /\ (0 < s)%Z /\ (a <= s * n < a + n)%Z.
Proof.
  intros Ha Hn. unfold ceil_div.
  destruct (n =? 0)%Z eqn:E; [lia|].
  eexists; split; [done|].
  pose proof (Z.mul_div_le (- a) n ltac:(lia)).
  pose proof (Z.mul_succ_div_gt (- a) n ltac:(lia)).
  assert (- a / n < 0)%Z by (apply Z.div_lt_upper_bound; lia).
  lia.
Qed.

Lemma slices_map {A B : Type} (f : A -> B) (l : list A) (step : Z) :
  slices (map f l) step =
    match slices l step with
    | Ok chunks => Ok (map (map f) chunks)
    | Raise e => Raise e
    end.
Proof.
  unfold slices, len. rewrite length_map.
  destruct (range 0 _ step) as [starts|e]; simpl; [|done].
  f_equal. rewrite map_map. apply map_ext. intros i. unfold slice.
  change (@map A B f) with (@fmap list _ A B f).
  change (@map A B f l) with (f <$> l).
  by rewrite fmap_take, fmap_drop.
Qed.

Lemma truthy_length {A : Type} (l : list A) :
  truthy l = true <-> (0 < length l)%nat.
Proof. destruct l; simpl; split; (lia || done). Qed.

(** For a non-empty list and at least one process, the chunks are the
    consecutive slices of [chunk_size_of] elements. *)
Lemma chunk_loop_explicit {A : Type} (n : Z) (l : list A) :
  (1 <= n)%Z -> truthy l = true ->
  let s := Z.to_nat (chunk_size_of n l) in
  (0 < s)%nat /\
  (length l <= s * Z.to_nat n)%nat /\
  (do chunk_size <- ceil_div (len l) n;
   do chunks <- slices l chunk_size;
   Ok (filter (fun chunk => truthy chunk = true) chunks)) =
  Ok (map (fun k => take s (drop (k * s) l))
          (seq 0 (Z.to_nat (range_len 0 (len l) (chunk_size_of n l))))).
Proof.
  intros Hn Hl s. apply truthy_length in Hl.
  destruct (ceil_div_pos (len l) n) as (cs & Hcs & Hpos & Hbound);
    [unfold len; lia | done |].
  assert (cs = chunk_size_of n l) as ->.
  { unfold ceil_div in Hcs. destruct (n =? 0)%Z; [done|]. by injection Hcs. }
  split; [subst s; lia|]. split; [unfold len in Hbound; subst s; nia|].
  rewrite Hcs. simpl. rewrite slices_pos by done. simpl. f_equal.
  apply filter_truthy_id. eapply slices_nonempty; [exact Hpos|].
  by apply slices_pos.
Qed.

Lemma hybrid_chunks_partition {A : Type} (n : Z) (l : list A) :
  (1 <= n)%Z ->
  exists chunks,
    hybrid_scrape_articles_chunks n l = Ok chunks /\
    concat chunks = l /\
    Forall (fun c => truthy c = true) chunks.
Proof.
  intros Hn. unfold hybrid_scrape_articles_chunks.
  destruct (truthy l) eqn:Hl; simpl.
  - destruct (chunk_loop_explicit n l Hn Hl) as (Hs & _ & ->).
    eexists; split; [done|].
    assert (Hsl : slices l (chunk_size_of n l) = Ok
      (map (fun k => take (Z.to_nat (chunk_size_of n l))
                       (drop (k * Z.to_nat (chunk_size_of n l)) l))
           (seq 0 (Z.to_nat (range_len 0 (len l) (chunk_size_of n l))))))
      by (apply slices_pos; lia).
    split.
    + eapply slices_concat; [|exact Hsl]. lia.
    + eapply slices_nonempty; [|exact Hsl]. lia.
  - destruct l; [|done]. by exists [].
Qed.

Lemma page_numbers_explicit (max_pages : Z) :
  page_numbers max_pages =
    Ok (map (fun k : nat => 1 + Z.of_nat k)%Z (seq 0 (Z.to_nat max_pages))).
Proof.
  unfold page_numbers, range. simpl. f_equal.
  assert (range_len 1 (max_pages + 1) 1 = Z.max 0 max_pages) as ->.
  { unfold range_len. simpl.
    destruct (1 <? max_pages + 1)%Z eqn:E.
    - apply Z.ltb_lt in E. rewrite Z.div_1_r. lia.
    - apply Z.ltb_ge in E. lia. }
  replace (Z.to_nat (Z.max 0 max_pages)) with (Z.to_nat max_pages) by lia.
  apply map_ext. intros k. lia.
Qed.

Lemma page_numbers_length (max_pages : Z) pages :
  page_numbers max_pages = Ok pages -> len pages = Z.max 0 max_pages.
Proof.
  rewrite page_numbers_explicit. intros [= <-].
  unfold len. rewrite length_map, length_seq. lia.
Qed.

(** With at least one page and one process, the page chunks of
    [scrape_all_articles_SIMPLE] are a partition of the page list. *)
Lemma simple_chunks_partition (n max_pages : Z) :
  (1 <= n)%Z -> (1 <= max_pages)%Z ->
  exists pages chunks,
    page_numbers max_pages = Ok pages /\
    scrape_all_articles_SIMPLE_chunks n max_pages = Ok chunks /\
    concat chunks = pages /\
    Forall (fun c => truthy c = true) chunks.
Proof.
  intros Hn Hm. unfold scrape_all_articles_SIMPLE_chunks.
  destruct (page_numbers max_pages) as [pages|] eqn:Hp;
    [|by rewrite page_numbers_explicit in Hp].
  pose proof (page_numbers_length _ _ Hp) as Hlen.
  assert (Hl : truthy pages = true) by (apply truthy_length; unfold len in Hlen; lia).
  exists pages. simpl.
  destruct (chunk_loop_explicit n pages Hn Hl) as (Hs & _ & ->).
  eexists; split; [done|]. split; [done|].
  assert (Hsl : slices pages (chunk_size_of n pages) = Ok
    (map (fun k => take (Z.to_nat (chunk_size_of n pages))
                     (drop (k * Z.to_nat (chunk_size_of n pages)) pages))
         (seq 0 (Z.to_nat (range_len 0 (len pages) (chunk_size_of n pages))))))
    by (apply slices_pos; lia).
  split.
  - eapply slices_concat; [|exact Hsl]. lia.
  - eapply slices_nonempty; [|exact Hsl]. lia.
Qed.

Lemma simple_chunks_empty_page_list (n max_pages : Z) :
  n <> 0%Z -> (max_pages <= 0)%Z ->
  page_numbers max_pages = Ok [] /\
  scrape_all_articles_SIMPLE_chunks n max_pages = Raise ValueError /\
  hybrid_scrape_articles_chunks n (@nil Z) = Ok [].
Proof.
  intros Hn Hm.
  assert (Hp : page_numbers max_pages = Ok []).
  { rewrite page_numbers_explicit.
    by replace (Z.to_nat max_pages) with 0%nat by lia. }
  split; [done|]. split; [|done].
  unfold scrape_all_articles_SIMPLE_chunks. rewrite Hp. simpl.
  unfold ceil_div. destruct (n =? 0)%Z eqn:E; [lia|]. reflexivity.
Qed.

(** C2: on an empty page list ([max_pages <= 0]) the page partitioner of
    [scrape_all_articles_SIMPLE] computes a chunk size of 0 and
    [range(0, 0, 0)] raises [ValueError]: no chunk is produced, where the URL
    partitioner of [hybrid_scrape_articles] returns the empty partition. *)
Theorem simple_chunks_empty_raises (n max_pages : Z) :
  n <> 0%Z -> (max_pages <= 0)%Z ->
  page_numbers max_pages = Ok [] /\
  scrape_all_articles_SIMPLE_chunks n max_pages = Raise ValueError /\
  hybrid_scrape_articles_chunks n (@nil Z) = Ok [].
Proof. apply simple_chunks_empty_page_list. Qed.

Lemma simple_chunks_empty_raises_witness :
  4%Z <> 0%Z /\ (0 <= 0)%Z /\
  scrape_all_articles_SIMPLE_chunks 4 0 = Raise ValueError.
Proof.
  split; [lia|]. split; [lia|].
  apply (simple_chunks_empty_raises 4 0); lia.
Defined.

(** C3, as stated, fails: for unit counts [5, 500, 5] and two processes the
    chunks are [[5, 500], [5]], of weights 505 and 5.  They differ by 500,
    although the split [[500], [5, 5]] of the same Targets is within that
    tolerance.  No tolerance saves the claim: for unit counts
    [t, 2t, t] the chunks [[t, 2t], [t]] are never within [t], while the
    split [[2t], [t, t]] is perfectly balanced. *)
Lemma weight_balance_counterexample :
  hybrid_scrape_articles_chunks 2 [5; 500; 5]%Z = Ok [[5; 500]; [5]]%Z /\
  map chunk_weight [[5; 500]; [5]]%Z = [505; 5]%Z /\
  ~ balanced_within 500 (hybrid_scrape_articles_chunks 2 [5; 500; 5]%Z) /\
  balanced_within 500 (Ok [[500]; [5; 5]]%Z) /\
  (forall tolerance : Z,
     ~ balanced_within tolerance
         (hybrid_scrape_articles_chunks 2
            [tolerance; 2 * tolerance; tolerance]%Z) /\
     ((0 < tolerance)%Z ->
      balanced_within tolerance
        (Ok [[2 * tolerance]; [tolerance; tolerance]]%Z))).
Proof.
  split; [reflexivity|]. split; [reflexivity|]. split; [|split].
  - intros (chunks & [= <-] & Hbal).
    specialize (Hbal [5; 500]%Z [5]%Z). unfold chunk_weight in Hbal. simpl in Hbal.
    assert (500 < 500)%Z; [|lia].
    apply Hbal; [apply list_elem_of_here | apply list_elem_of_further, list_elem_of_here].
  - eexists; split; [done|]. intros c1 c2 H1 H2.
    apply elem_of_cons in H1 as [->|H1]; [|apply list_elem_of_singleton in H1 as ->];
    (apply elem_of_cons in H2 as [->|H2]; [|apply list_elem_of_singleton in H2 as ->]);
    unfold chunk_weight; simpl; lia.
  - intros tolerance. split.
    + intros (chunks & Hchunks & Hbal).
      assert (Hcode : hybrid_scrape_articles_chunks 2
                        [tolerance; 2 * tolerance; tolerance]%Z
                      = Ok [[tolerance; 2 * tolerance]; [tolerance]]%Z)
        by reflexivity.
      rewrite Hcode in Hchunks. injection Hchunks as <-.
      specialize (Hbal [tolerance; 2 * tolerance]%Z [tolerance]%Z
                    ltac:(apply list_elem_of_here)
                    ltac:(apply list_elem_of_further, list_elem_of_here)).
      unfold chunk_weight in Hbal. simpl in Hbal. lia.
    + intros Hpos. eexists; split; [done|]. intros c1 c2 H1 H2.
      apply elem_of_cons in H1 as [->|H1]; [|apply list_elem_of_singleton in H1 as ->];
      (apply elem_of_cons in H2 as [->|H2]; [|apply list_elem_of_singleton in H2 as ->]);
      unfold chunk_weight; simpl; lia.
Qed.

(** C3, amended: chunks are sized by Target count alone.  With [n >= 1]
    processes the list is cut, in order, into consecutive chunks: put
    together they give the list back, and chunk [k] is the stretch of
    [ceil(len / n)] Targets that starts at position [k * ceil(len / n)].
    There are at most [n] chunks, each holds between 1 and
    [ceil(len / n)] Targets, each but the last exactly that many, and the
    grouping is by position: relabelling the Targets (changing their unit
    counts) relabels the chunks and nothing else. *)
Theorem chunks_sized_by_count {A : Type} (n : Z) (l : list A) :
  (1 <= n)%Z ->
  exists chunks,
    hybrid_scrape_articles_chunks n l = Ok chunks /\
    concat chunks = l /\
    (forall k c, chunks !! k = Some c ->
       c = take (Z.to_nat (chunk_size_of n l))
             (drop (k * Z.to_nat (chunk_size_of n l)) l)) /\
    (length chunks <= Z.to_nat n)%nat /\
    (forall k c, chunks !! k = Some c ->
       (1 <= length c <= Z.to_nat (chunk_size_of n l))%nat /\
       (S k < length chunks -> length c = Z.to_nat (chunk_size_of n l))%nat) /\
    (forall (B : Type) (f : A -> B),
       hybrid_scrape_articles_chunks n (map f l) = Ok (map (map f) chunks)) /\
    (forall max_pages, (1 <= max_pages)%Z ->
       exists pages,
         page_numbers max_pages = Ok pages /\
         scrape_all_articles_SIMPLE_chunks n max_pages =
           hybrid_scrape_articles_chunks n pages).
Proof.
  intros Hn.
  assert (Hsame : forall max_pages, (1 <= max_pages)%Z ->
            exists pages,
              page_numbers max_pages = Ok pages /\
              scrape_all_articles_SIMPLE_chunks n max_pages =
                hybrid_scrape_articles_chunks n pages).
  { intros max_pages Hm. unfold scrape_all_articles_SIMPLE_chunks.
    destruct (page_numbers max_pages) as [pages|] eqn:Hp;
      [|by rewrite page_numbers_explicit in Hp].
    exists pages. split; [done|].
    pose proof (page_numbers_length _ _ Hp) as Hlen.
    unfold hybrid_scrape_articles_chunks.
    destruct pages; [unfold len in Hlen; simpl in Hlen; lia | done]. }
  unfold hybrid_scrape_articles_chunks.
  destruct (truthy l) eqn:Hl; simpl.
  2:{ destruct l; [|done]. exists []. repeat split; try done; simpl; lia. }
  destruct (chunk_loop_explicit n l Hn Hl) as (Hs & Hcover & ->).
  set (s := Z.to_nat (chunk_size_of n l)) in *.
  set (m := Z.to_nat (range_len 0 (len l) (chunk_size_of n l))).
  assert (Hpos : (0 < chunk_size_of n l)%Z) by lia.
  pose proof (range_len_pos (len l) _ Hpos ltac:(unfold len; lia)) as Hrl.
  assert (Hsl : slices l (chunk_size_of n l) =
                Ok (map (fun k => take s (drop (k * s) l)) (seq 0 m)))
    by (by apply slices_pos).
  eexists; split; [done|]. split; [|split; [|split; [|split; [|split]]]].
  6: exact Hsame.
  - by apply (slices_concat l (chunk_size_of n l)).
  - intros k c Hk.
    by destruct (slices_lookup _ _ _ _ _ Hpos Hsl Hk) as [-> _].
  - rewrite length_map, length_seq. subst m s. unfold len in *. nia.
  - intros k c Hk.
    destruct (slices_lookup _ _ _ _ _ Hpos Hsl Hk) as [-> Hlt]. fold s in Hlt |- *.
    rewrite length_take, length_drop. split; [lia|].
    intros Hnext. destruct (lookup_lt_is_Some_2 _ _ Hnext) as [c' Hk'].
    destruct (slices_lookup _ _ _ _ _ Hpos Hsl Hk') as [_ Hlt']. fold s in Hlt'.
    simpl in Hlt'. lia.
  - intros B f.
    assert (Hl' : truthy (map f l) = true) by (by destruct l).
    rewrite Hl'. simpl.
    destruct (chunk_loop_explicit n (map f l) Hn Hl') as (_ & _ & ->).
    assert (chunk_size_of n (map f l) = chunk_size_of n l) as ->
      by (unfold chunk_size_of, len; by rewrite length_map).
    assert (len (map f l) = len l) as -> by (unfold len; by rewrite length_map).
    fold s m. f_equal. rewrite map_map. apply map_ext. intros k.
    change (@map A B f) with (@fmap list _ A B f).
    by rewrite fmap_take, fmap_drop.
Qed.

Lemma chunks_sized_by_count_witness :
  (1 <= 2)%Z /\
  exists chunks,
    hybrid_scrape_articles_chunks 2 [5; 500; 5]%Z = Ok chunks /\
    concat chunks = [5; 500; 5]%Z /\
    chunks !! 0%nat = Some [5; 500]%Z /\
    chunks !! 1%nat = Some [5]%Z /\
    map chunk_weight chunks = [505; 5]%Z.
Proof.
  split; [lia|].
  destruct (chunks_sized_by_count 2 [5; 500; 5]%Z ltac:(lia))
    as (chunks & Hc & Hcat & _).
  exists chunks. split; [exact Hc|]. split; [exact Hcat|].
  injection Hc as <-. repeat split; reflexivity.
Defined.

(** C10: with [max_pages = None] the run does not get as far as a page
    list. Line 208 looks up [discover_total_pages], which the class does
    not have, and raises [AttributeError]: no page is scheduled, whatever
    the number of processes, and the cap of line 209 is never applied. A
    page budget that is passed in is used as it is, without a cap. *)
Theorem max_pages_none_raises (n : Z) :
  effective_max_pages None = Raise AttributeError /\
  scrape_all_articles_SIMPLE_schedule n None = Raise AttributeError /\
  scheduled (scrape_all_articles_SIMPLE_schedule n None) = [] /\
  (forall m, (1 <= n)%Z -> (1 <= m)%Z ->
     len (scheduled (scrape_all_articles_SIMPLE_schedule n (Some m))) = m).
Proof.
  split; [done|]. split; [done|]. split; [done|].
  intros m Hn Hm. unfold scrape_all_articles_SIMPLE_schedule. simpl.
  destruct (simple_chunks_partition n m Hn Hm)
    as (pages & chunks & Hp & -> & Hcat & _).
  cbn [scheduled]. rewrite Hcat, (page_numbers_length _ _ Hp). lia.
Qed.

Lemma max_pages_none_raises_witness :
  scheduled (scrape_all_articles_SIMPLE_schedule 4 None) = [] /\
  len (scheduled (scrape_all_articles_SIMPLE_schedule 4 (Some 7000%Z)))
  = 7000%Z.
Proof.
  destruct (max_pages_none_raises 4) as (_ & _ & Hnone & Hsome).
  split; [exact Hnone | apply Hsome; lia].
Defined.

(** ** The page worker *)

Section DoajFacts.
Import Doaj.
Context {Resp Article : Type}.
Variable fetch : Z -> nat -> FetchError + Resp.
Variable resp_truthy : Resp -> bool.
Variable extract : Resp -> result (list Article).
Variable delay_positive : bool.

Abbreviation process_page' :=
  (process_page fetch resp_truthy extract delay_positive).
Abbreviation process_chunk :=
  (process_page_chunk_simple fetch resp_truthy extract delay_positive).
Abbreviation page_yield' := (page_yield fetch resp_truthy extract).

Lemma attempts_app page tr1 tr2 :
  attempts page (tr1 ++ tr2) = (attempts page tr1 + attempts page tr2)%nat.
Proof. unfold attempts. by rewrite filter_app, length_app. Qed.

Lemma attempts_cons page e tr :
  attempts page (e :: tr) =
    ((if decide (e = EvGet page) then 1 else 0) + attempts page tr)%nat.
Proof. unfold attempts. rewrite filter_cons. by destruct (decide _). Qed.

Lemma attempts_sleep_if_delay page tr :
  attempts page (sleep_if_delay delay_positive tr) = attempts page tr.
Proof.
  unfold sleep_if_delay. destruct delay_positive; [|done].
  rewrite attempts_app, attempts_cons. rewrite decide_False by done.
  unfold attempts. simpl. lia.
Qed.

Lemma process_page_articles all_articles tr page_num :
  (process_page' (all_articles, tr) page_num).1 =
    all_articles ++ page_yield' page_num (attempts page_num tr).
Proof.
  unfold process_page, get_articles_page_standalone, page_yield.
  destruct (fetch page_num (attempts page_num tr)) as [e|response]; simpl.
  - by rewrite app_nil_r.
  - destruct (resp_truthy response); [|by rewrite app_nil_r].
    destruct (extract response); simpl; [done | by rewrite app_nil_r].
Qed.

(** Whatever the outcome, a round makes one request, for its own page. *)
Lemma process_page_attempts all_articles tr page_num p :
  attempts p (process_page' (all_articles, tr) page_num).2 =
    (attempts p tr + if decide (page_num = p) then 1 else 0)%nat.
Proof.
  assert (Hget : forall rest, (forall e, e ∈ rest -> e <> EvGet p) ->
    attempts p (tr ++ EvGet page_num :: rest) =
      (attempts p tr + if decide (page_num = p) then 1 else 0)%nat).
  { intros rest Hrest. rewrite attempts_app, attempts_cons.
    assert (attempts p rest = 0%nat) as ->.
    { unfold attempts. induction rest as [|e rest IH]; [done|].
      rewrite filter_cons. rewrite decide_False.
      - apply IH. intros e' He'. apply Hrest. by apply list_elem_of_further.
      - apply Hrest. apply list_elem_of_here. }
    destruct (decide (page_num = p)) as [->|Hne].
    - rewrite decide_True by done. lia.
    - rewrite decide_False by congruence. lia. }
  unfold process_page, get_articles_page_standalone.
  destruct (fetch page_num (attempts page_num tr)) as [e|response]; cbn [snd].
  - rewrite attempts_sleep_if_delay. apply Hget.
    intros e' He'. apply list_elem_of_singleton in He' as ->. done.
  - destruct (resp_truthy response).
    + destruct (extract response); cbn [snd].
      * rewrite attempts_sleep_if_delay. apply Hget. intros e' He'.
        by apply not_elem_of_nil in He'.
      * rewrite <- app_assoc. apply Hget.
        intros e' He'. apply list_elem_of_singleton in He' as ->. done.
    + cbn [snd]. rewrite attempts_sleep_if_delay. apply Hget. intros e' He'.
      by apply not_elem_of_nil in He'.
Qed.

Lemma fold_process_page_attempts pages all_articles tr p :
  attempts p (fold_left process_page' pages (all_articles, tr)).2 =
    (attempts p tr + occurrences p pages)%nat.
Proof.
  revert all_articles tr.
  induction pages as [|q pages IH]; intros all_articles tr; cbn [fold_left].
  - unfold occurrences. simpl. lia.
  - pose proof (process_page_attempts all_articles tr q p) as H.
    destruct (process_page' (all_articles, tr) q) as [a' tr'].
    rewrite IH. cbn [snd] in H. rewrite H.
    unfold occurrences. rewrite filter_cons.
    destruct (decide (q = p)); simpl; lia.
Qed.

(** Every page of a chunk is requested once per occurrence, whatever
    the requests return. *)
Lemma process_chunk_attempts pages p :
  attempts p (process_chunk pages []).2 = occurrences p pages.
Proof.
  unfold process_page_chunk_simple.
  pose proof (fold_process_page_attempts pages [] [] p) as H.
  destruct (fold_left _ _ _) as [a tr]. simpl in *. rewrite H.
  unfold attempts. simpl. lia.
Qed.
Lemma process_page_fetch_raises all_articles tr page_num e :
  fetch page_num (attempts page_num tr) = inl e ->
  process_page' (all_articles, tr) page_num =
    (all_articles, tr ++ failed_unit_trace delay_positive page_num).
Proof.
  intros He. unfold process_page, get_articles_page_standalone,
    failed_unit_trace, sleep_if_delay.
  rewrite He. destruct delay_positive; [|done].
  by rewrite <- app_assoc.
Qed.

Lemma fold_process_page_all_raise pages all_articles tr :
  (forall p k, p ∈ pages -> exists e, fetch p k = inl e) ->
  fold_left process_page' pages (all_articles, tr) =
    (all_articles, tr ++ flat_map (failed_unit_trace delay_positive) pages).
Proof.
  revert tr. induction pages as [|q pages IH]; intros tr Hfail; cbn [fold_left].
  - by rewrite app_nil_r.
  - destruct (Hfail q (attempts q tr)) as [e He]; [apply list_elem_of_here|].
    rewrite (process_page_fetch_raises _ _ _ _ He), IH.
    + by rewrite <- app_assoc.
    + intros p k Hp. apply Hfail. by apply list_elem_of_further.
Qed.

(** C1, amended: no unit is ever requested twice. In every chunk, and
    whatever the requests answer, each page is requested exactly as often
    as the chunk lists it, and the worker reports the whole chunk as done.
    A unit whose request raises, with a transient error or with any other,
    among units that succeed or fail, makes one request, one log line and
    the fixed pause; it adds no article, and the worker goes on with the
    rest of the chunk from there. When every request raises, the chunk
    ends with no article after exactly one request per unit. *)
Theorem failing_unit_requested_once (pages : list Z) :
  (forall p, attempts p (process_chunk pages []).2 = occurrences p pages) /\
  (process_chunk pages []).1.2 = length pages /\
  (forall before u after e,
     pages = before ++ u :: after ->
     let st := fold_left process_page' before ([], []) in
     fetch u (attempts u st.2) = inl e ->
     fold_left process_page' pages ([], []) =
       fold_left process_page' after
         (st.1, st.2 ++ failed_unit_trace delay_positive u)) /\
  ((forall p k, p ∈ pages -> exists e, fetch p k = inl e) ->
   process_chunk pages [] =
     ([], length pages, flat_map (failed_unit_trace delay_positive) pages)).
Proof.
  split; [intros p; apply process_chunk_attempts|]. split; [|split].
  - unfold process_page_chunk_simple. by destruct (fold_left _ _ _).
  - intros before u after e -> st He. rewrite fold_left_app. cbn [fold_left].
    fold st. destruct st as [all_articles tr]. cbn [fst snd] in *.
    by rewrite (process_page_fetch_raises _ _ _ _ He).
  - intros Hfail. unfold process_page_chunk_simple.
    by rewrite fold_process_page_all_raise.
Qed.



End DoajFacts.

Lemma failing_unit_requested_once_witness :
  let fetch := fun (page : Z) (_ : nat) =>
    if (page =? 7)%Z then @inl Doaj.FetchError unit (Doaj.HttpStatus 404)
    else inr tt in
  Doaj.attempts 7
    (Doaj.process_page_chunk_simple (Article := unit) fetch (fun _ => true)
       (fun _ => Ok [tt]) true [3; 7; 9]%Z []).2 = 1%nat /\
  Doaj.process_page_chunk_simple (Article := unit) fetch (fun _ => true)
    (fun _ => Ok [tt]) true [3; 7; 9]%Z []
  = ([tt; tt], 3%nat,
     [Doaj.EvGet 3; Doaj.EvSleep;
      Doaj.EvGet 7; Doaj.EvLogError 7; Doaj.EvSleep;
      Doaj.EvGet 9; Doaj.EvSleep]).
Proof.
  intros fetch.
  destruct (failing_unit_requested_once (Article := unit) fetch (fun _ => true)
              (fun _ => Ok [tt]) true [3; 7; 9]%Z) as (Honce & _ & Hunit & _).
  split; [exact (Honce 7%Z)|].
  unfold Doaj.process_page_chunk_simple.
  rewrite (Hunit [3%Z] 7%Z [9%Z] (Doaj.HttpStatus 404) eq_refl eq_refl).
  reflexivity.
Defined.

(** C1, as stated, fails for every positive [retry_count]: a unit whose
    requests all time out is requested once, not [3 + 1] times. *)
Lemma retry_bound_counterexample : ~ Doaj.retry_bound_claim 3.
Proof.
  intros Hclaim.
  specialize (Hclaim (fun _ _ => inl Doaj.Timeout) 1%Z).
  assert (H : forall k : nat, exists e,
             (fun (_ : Z) (_ : nat) => @inl Doaj.FetchError unit Doaj.Timeout) 1%Z k = inl e /\
             Doaj.transient e = true)
    by (intros k; exists Doaj.Timeout; split; reflexivity).
  specialize (Hclaim H). vm_compute in Hclaim. discriminate.
Qed.

(** The retry bound holds for [retry_count = 0] only. *)
Lemma retry_bound_zero_only (retry_count : nat) :
  Doaj.retry_bound_claim retry_count <-> retry_count = 0%nat.
Proof.
  split.
  - intros Hclaim.
    specialize (Hclaim (fun _ _ => inl Doaj.Timeout) 1%Z).
    assert (H : forall k : nat, exists e,
               (fun (_ : Z) (_ : nat) => @inl Doaj.FetchError unit Doaj.Timeout) 1%Z k = inl e /\
               Doaj.transient e = true)
      by (intros k; exists Doaj.Timeout; split; reflexivity).
    specialize (Hclaim H). rewrite process_chunk_attempts in Hclaim.
    change (Doaj.occurrences 1 [1%Z]) with 1%nat in Hclaim. lia.
  - intros -> fetch page Hfail.
    rewrite process_chunk_attempts. unfold Doaj.occurrences.
    rewrite filter_cons, decide_True by done. reflexivity.
Qed.

(** ** De-duplication and batches *)

Section DergiparkFacts.
Import Dergipark.
Context {Payload : Type}.
Variable scrape_single : string -> string -> option Payload.
Variable loop_raises : list string -> bool.
Variable article_urls_of : string -> list string.
Variable num_processes : Z.
Variable batch_save_size : nat.
Hypothesis processes_pos : (1 <= num_processes)%Z.
Hypothesis batch_pos : (0 < batch_save_size)%nat.

Abbreviation hybrid :=
  (hybrid_scrape_articles scrape_single loop_raises num_processes).
Abbreviation collect_journal' :=
  (collect_journal scrape_single loop_raises article_urls_of num_processes
     batch_save_size).
Abbreviation State := (@CollectState Payload).

Lemma accept_known seen u : u ∈ seen -> accept seen u = (false, seen).
Proof. intros Hu. unfold accept. by rewrite decide_True. Qed.

Lemma accept_fresh seen u : u ∉ seen -> accept seen u = (true, {[u]} ∪ seen).
Proof. intros Hu. unfold accept. by rewrite decide_False. Qed.

(** Offering an identity a second time is always rejected and changes
    nothing; the first offer is accepted exactly when it is new. *)
Lemma accept_twice seen u :
  (accept (accept seen u).2 u) = (false, (accept seen u).2) /\
  u ∈ (accept seen u).2 /\
  ((accept seen u).1 = true <-> u ∉ seen).
Proof.
  destruct (decide (u ∈ seen)) as [Hu|Hu].
  - rewrite (accept_known _ _ Hu). simpl. rewrite (accept_known _ _ Hu).
    repeat split; try done.
  - rewrite (accept_fresh _ _ Hu). simpl.
    rewrite accept_known by set_solver.
    repeat split; try done. set_solver.
Qed.

Lemma filter_new_fold (l acc : list string) (seen : gset string) :
  exists new,
    fold_left
      (fun '(new_article_urls, seen) u =>
         let '(fresh, seen') := accept seen u in
         (if fresh then new_article_urls ++ [u] else new_article_urls, seen'))
      l (acc, seen) = (acc ++ new, list_to_set l ∪ seen) /\
    NoDup new /\
    (forall u, u ∈ new <-> u ∈ l /\ u ∉ seen).
Proof.
  revert acc seen. induction l as [|u l IH]; intros acc seen; cbn [fold_left].
  - exists []. rewrite app_nil_r. split; [f_equal; set_solver|].
    split; [constructor|]. set_solver.
  - destruct (decide (u ∈ seen)) as [Hu|Hu].
    + rewrite (accept_known _ _ Hu).
      destruct (IH acc seen) as (new & -> & Hnd & Hin).
      exists new. split; [f_equal; set_solver|]. split; [done|].
      intros u'. rewrite Hin. set_solver.
    + rewrite (accept_fresh _ _ Hu).
      destruct (IH (acc ++ [u]) ({[u]} ∪ seen)) as (new & -> & Hnd & Hin).
      exists (u :: new). split; [rewrite <- app_assoc; f_equal; set_solver|].
      split.
      * constructor; [|done]. rewrite Hin. set_solver.
      * intros u'. rewrite elem_of_cons, Hin. split.
        -- intros [->|[Hl Hns]].
           ++ split; [apply list_elem_of_here | done].
           ++ split; [by apply list_elem_of_further|].
              intros Hs. apply Hns. by apply elem_of_union_r.
        -- intros [Hl Hns]. apply elem_of_cons in Hl as [->|Hl]; [by left|].
           destruct (decide (u' = u)) as [->|Hne]; [by left|].
           right. split; [done|].
           rewrite elem_of_union, elem_of_singleton. by intros [?|?].
Qed.

Lemma filter_new_spec (l : list string) (seen : gset string) :
  exists new,
    filter_new l seen = (new, list_to_set l ∪ seen) /\
    NoDup new /\
    (forall u, u ∈ new <-> u ∈ l /\ u ∉ seen).
Proof. apply (filter_new_fold l [] seen). Qed.

Lemma chunk_urls_sublist (chunk : list string) slug :
  map url (process_article_chunk_standalone scrape_single loop_raises chunk slug)
    `sublist_of` chunk.
Proof.
  unfold process_article_chunk_standalone.
  destruct (loop_raises chunk); [apply sublist_nil_l|].
  unfold process_article_chunk_async_standalone.
  induction chunk as [|u chunk IH]; [constructor|]. simpl.
  destruct (scrape_single u slug); simpl.
  - by apply sublist_skip.
  - by apply sublist_cons.
Qed.

Lemma Pool_pos : Pool num_processes = Ok tt.
Proof.
  unfold Pool. by rewrite (proj2 (Z.ltb_ge num_processes 1) processes_pos).
Qed.

(** With at least one process [hybrid_scrape_articles] returns: what the
    workers return for the chunks, which make up the URL list. *)
Lemma hybrid_chunked (new : list string) slug :
  exists chunks,
    concat chunks = new /\
    hybrid new slug =
      Ok (concat (map (fun chunk =>
                         process_article_chunk_standalone scrape_single
                           loop_raises chunk slug) chunks)).
Proof.
  unfold hybrid_scrape_articles.
  destruct (truthy new) eqn:Hnew; cbn [negb].
  - destruct (hybrid_chunks_partition num_processes new processes_pos)
      as (chunks & -> & Hcat & _).
    cbn [bind]. rewrite Pool_pos. cbn [bind]. by exists chunks.
  - destruct new; [|done]. by exists [].
Qed.

(** [hybrid_scrape_articles] returns, and with at most one record per
    URL it was given, in their order. *)
Lemma hybrid_urls_sublist (new : list string) slug :
  exists records,
    hybrid new slug = Ok records /\ map url records `sublist_of` new.
Proof.
  destruct (hybrid_chunked new slug) as (chunks & Hcat & ->).
  eexists; split; [done|]. rewrite <- Hcat. clear Hcat.
  induction chunks as [|c chunks IH]; [constructor|]. simpl.
  rewrite map_app. apply sublist_app; [apply chunk_urls_sublist | apply IH].
Qed.

Lemma persisted_app (log1 log2 : list (PEvent Payload)) :
  persisted (log1 ++ log2) = persisted log1 ++ persisted log2.
Proof. unfold persisted. by rewrite map_app, concat_app. Qed.

Lemma flushes_app (log1 log2 : list (PEvent Payload)) :
  flushes (log1 ++ log2) = (flushes log1 + flushes log2)%nat.
Proof. unfold flushes. by rewrite filter_app, length_app. Qed.

(** The size check: at or above the threshold one [save_batch] of the
    whole accumulation and an empty batch, below it nothing. *)
Lemma maybe_flush_spec (batch : list (ArticleData Payload)) log :
  ((batch_save_size <= length batch)%nat ->
     exists log',
       maybe_flush batch_save_size batch log = Ok ([], log') /\
       flushes log' = S (flushes log) /\
       persisted log' = persisted log ++ batch) /\
  ((length batch < batch_save_size)%nat ->
     maybe_flush batch_save_size batch log = Ok (batch, log)).
Proof.
  unfold maybe_flush. split; intros Hlen.
  - rewrite decide_True by done. rewrite decide_False by lia.
    eexists; split; [done|].
    destruct (decide _); rewrite ?flushes_app, ?persisted_app;
      unfold flushes, persisted; simpl; rewrite ?app_nil_r; split; (lia || done).
  - rewrite decide_False by lia. done.
Qed.

Lemma maybe_flush_held (batch : list (ArticleData Payload)) log :
  exists batch' log',
    maybe_flush batch_save_size batch log = Ok (batch', log') /\
    persisted log' ++ batch' = persisted log ++ batch.
Proof.
  destruct (maybe_flush_spec batch log) as [Hge Hlt].
  destruct (le_lt_dec batch_save_size (length batch)) as [H|H].
  - destruct (Hge H) as (log' & -> & _ & Hp). exists [], log'.
    by rewrite Hp, app_nil_r.
  - rewrite (Hlt H). by exists batch, log.
Qed.

Lemma collect_journal_step (s : State) (j : Journal) :
  unique_held s ->
  exists s' added,
    collect_journal' (Ok s) j = Ok s' /\
    held s' = held s ++ added /\
    unique_held s'.
Proof.
  intros [Hnd Hseen]. unfold collect_journal. cbn [bind].
  destruct (filter_new_spec (article_urls_of (journal_slug j))
              (seen_article_urls s)) as (new & -> & Hnew & Hin).
  destruct (truthy new) eqn:Hnonempty.
  - destruct (hybrid_urls_sublist new (journal_slug j)) as (records & -> & Hsub).
    cbn [bind].
    destruct (maybe_flush_held (all_articles_data s ++ records) (log s))
      as (batch' & log' & -> & Hheld).
    cbn [bind fst snd]. eexists _, records. split; [done|].
    assert (Hh : held (mkState (list_to_set (article_urls_of (journal_slug j))
                                ∪ seen_article_urls s) batch' log')
                 = held s ++ records).
    { unfold held. cbn [log all_articles_data]. rewrite Hheld.
      by rewrite app_assoc. }
    split; [exact Hh|]. unfold unique_held. rewrite Hh. cbn [seen_article_urls].
    assert (Hrec : forall u, u ∈ map url records -> u ∈ new).
    { intros u Hu. by eapply elem_of_sublist. }
    split.
    + rewrite map_app. apply NoDup_app. split; [done|]. split.
      * intros u Hu Hu'. apply Hrec, Hin in Hu' as [_ Hu'].
        apply Hu'. change (map url (held s)) with (url <$> held s) in Hu.
        apply list_elem_of_fmap in Hu as (r & -> & Hr). by apply Hseen.
      * eapply sublist_NoDup; [exact Hnew | exact Hsub].
    + intros r Hr. apply elem_of_app in Hr as [Hr|Hr].
      * apply elem_of_union_r. by apply Hseen.
      * apply elem_of_union_l, elem_of_list_to_set.
        assert (url r ∈ new) as Hu.
        { apply Hrec. change (map url records) with (url <$> records).
          by apply list_elem_of_fmap_2. }
        by apply Hin in Hu as [Hu _].
  - eexists _, []. split; [done|]. rewrite app_nil_r.
    split; [done|]. split; [done|].
    intros r Hr. cbn [seen_article_urls]. apply elem_of_union_r. by apply Hseen.
Qed.

Lemma collect_loop (journals : list Journal) (s : State) :
  unique_held s ->
  exists s' added,
    fold_left collect_journal' journals (Ok s) = Ok s' /\
    held s' = held s ++ added /\
    unique_held s'.
Proof.
  revert s. induction journals as [|j journals IH]; intros s Hs; cbn [fold_left].
  - exists s, []. by rewrite app_nil_r.
  - destruct (collect_journal_step s j Hs) as (s1 & added1 & -> & Hh1 & Hs1).
    destruct (IH s1 Hs1) as (s2 & added2 & -> & Hh2 & Hs2).
    exists s2, (added1 ++ added2). split; [done|]. split; [|done].
    by rewrite Hh2, Hh1, app_assoc.
Qed.

(** The final save leaves nothing behind. *)
Lemma final_save_spec (s : State) :
  persisted (final_save s) = held s /\
  flushes (final_save s) =
    (flushes (log s) + if truthy (all_articles_data s) then 1 else 0)%nat.
Proof.
  unfold final_save, held. destruct (all_articles_data s) eqn:E; simpl.
  - rewrite app_nil_r. split; [done|lia].
  - rewrite persisted_app, flushes_app. unfold persisted, flushes. simpl.
    rewrite app_nil_r. split; [done|lia].
Qed.
Abbreviation collect_all :=
  (collect_all_dergipark_data_HYBRID scrape_single loop_raises article_urls_of
     num_processes batch_save_size).

Lemma collect_all_spec (journals : list Journal) :
  exists s : State,
    fold_left collect_journal' journals (Ok (mkState ∅ [] [])) = Ok s /\
    collect_all journals = Ok (final_save s) /\
    unique_held s.
Proof.
  destruct (collect_loop journals (mkState ∅ [] [])) as (s & added & Hs & _ & Hu).
  { split; [constructor|]. intros r Hr. by apply not_elem_of_nil in Hr. }
  exists s. split; [done|]. split; [|done].
  unfold collect_all_dergipark_data_HYBRID. by rewrite Hs.
Qed.

End DergiparkFacts.

(** ** Discovery *)

Section DiscoveryFacts.
Import Dergipark.
Variable get_page : Z -> nat -> PageOutcome.
Variable slug_of : string -> option string.

Abbreviation explore' := (explore get_page slug_of).
Abbreviation add_link' := (add_link slug_of).

Lemma add_link_prefix st link : st.1 `prefix_of` (add_link' st link).1.
Proof.
  destruct st as [journal_data seen], link as [href text]. simpl.
  destruct (slug_of href) as [slug|]; [|done].
  destruct (decide (slug ∈ seen)); simpl; [done|]. by apply prefix_app_r.
Qed.

Lemma add_links_prefix links st : st.1 `prefix_of` (fold_left add_link' links st).1.
Proof.
  revert st. induction links as [|link links IH]; intros st; [done|].
  cbn [fold_left]. etrans; [apply add_link_prefix | apply IH].
Qed.

(** Journals found so far are never dropped, whatever the later pages do. *)
Lemma explore_prefix pages st tr : st.1 `prefix_of` (explore' pages st tr).1.
Proof.
  revert st tr. induction pages as [|page_num rest IH]; intros st tr; [done|].
  cbn [explore].
  destruct (get_page page_num (page_attempts page_num tr)) as [|[|link links]];
    [done | done |].
  etrans; [|apply IH]. apply (add_links_prefix (link :: links)).
Qed.

(** A page that raises ends discovery at once: the journals found so far
    are returned, the page is not requested again and no later page is
    requested. *)
Lemma explore_page_raises page_num rest st tr :
  get_page page_num (page_attempts page_num tr) = PageRaises ->
  explore' (page_num :: rest) st tr = (st.1, tr ++ [DGet page_num; DLogError]).
Proof. intros H. cbn [explore]. by rewrite H. Qed.

Lemma explore_page_links page_num rest st tr link links :
  get_page page_num (page_attempts page_num tr) = PageLinks (link :: links) ->
  explore' (page_num :: rest) st tr =
    explore' rest (fold_left add_link' (link :: links) st) (tr ++ [DGet page_num]).
Proof. intros H. cbn [explore]. by rewrite H. Qed.

Lemma page_attempts_app p tr1 tr2 :
  page_attempts p (tr1 ++ tr2) = (page_attempts p tr1 + page_attempts p tr2)%nat.
Proof. unfold page_attempts. by rewrite filter_app, length_app. Qed.

Lemma page_attempts_get p q rest :
  (forall e, e ∈ rest -> e <> DGet p) ->
  page_attempts p (DGet q :: rest) = if decide (q = p) then 1%nat else 0%nat.
Proof.
  intros Hrest. unfold page_attempts. rewrite filter_cons.
  assert (filter (fun e => e = DGet p) rest = []) as Hnil.
  { induction rest as [|e rest IH]; [done|]. rewrite filter_cons.
    rewrite decide_False by (apply Hrest, list_elem_of_here).
    apply IH. intros e' He'. by apply Hrest, list_elem_of_further. }
  rewrite Hnil. destruct (decide (q = p)) as [->|Hne].
  - by rewrite decide_True.
  - rewrite decide_False; [done|]. congruence.
Qed.

(** Each visit of a page is one request. *)
Lemma explore_attempts pages st tr p :
  (page_attempts p (explore' pages st tr).2 <=
     page_attempts p tr + length (filter (fun q => q = p) pages))%nat.
Proof.
  revert st tr. induction pages as [|page_num rest IH]; intros st tr.
  - simpl. lia.
  - cbn [explore]. rewrite filter_cons.
    assert (Hone : forall tail, (forall e, e ∈ tail -> e <> DGet p) ->
      (page_attempts p (tr ++ DGet page_num :: tail) <=
         page_attempts p tr +
         length (if decide (page_num = p)
                 then page_num :: filter (fun q => q = p) rest
                 else filter (fun q => q = p) rest))%nat).
    { intros tail Htail. rewrite page_attempts_app, page_attempts_get by done.
      destruct (decide (page_num = p)); simpl; lia. }
    destruct (get_page page_num (page_attempts page_num tr)) as [|[|link links]];
      cbn [snd].
    + apply Hone. intros e He. by apply list_elem_of_singleton in He as ->.
    + apply Hone. intros e He. by apply list_elem_of_singleton in He as ->.
    + etrans; [apply IH|].
      rewrite page_attempts_app. unfold page_attempts at 2.
      rewrite filter_cons.
      destruct (decide (page_num = p)) as [->|Hne].
      * rewrite decide_True by done. simpl. lia.
      * rewrite decide_False by congruence. simpl. lia.
Qed.

(** C8, amended: discovery never raises and does not retry.  A listing
    page that raises is requested that one time only; discovery stops
    there and returns the journals found on the pages before it; nothing
    found earlier is ever dropped; no page is requested twice. *)
Theorem discovery_stops_at_first_failure :
  (forall page_num rest st tr,
     get_page page_num (page_attempts page_num tr) = PageRaises ->
     explore' (page_num :: rest) st tr =
       (st.1, tr ++ [DGet page_num; DLogError])) /\
  (forall pages st tr, st.1 `prefix_of` (explore' pages st tr).1) /\
  (forall p,
     (page_attempts p
        (get_journal_slugs_and_titles_by_scraping get_page slug_of).2 <= 1)%nat).
Proof.
  split; [apply explore_page_raises|]. split; [apply explore_prefix|].
  intros p. unfold get_journal_slugs_and_titles_by_scraping.
  etrans; [apply explore_attempts|].
  change (explore_pages MAX_JOURNAL_EXPLORE_PAGES) with [2; 3]%Z.
  unfold page_attempts. rewrite !filter_cons, filter_nil.
  destruct (decide (2%Z = p)) as [<-|]; [by rewrite decide_False|].
  destruct (decide (3%Z = p)); simpl; lia.
Qed.
End DiscoveryFacts.

Lemma discovery_stops_at_first_failure_witness :
  Dergipark.explore (fun _ _ => Dergipark.PageRaises) (fun _ => None)
    [2; 3]%Z ([], ∅) []
  = ([], [Dergipark.DGet 2; Dergipark.DLogError]).
Proof.
  apply (discovery_stops_at_first_failure
           (fun _ _ => Dergipark.PageRaises) (fun _ => None)).
  reflexivity.
Defined.

(** C8, as stated, fails for one retry: the page that raises once is not
    requested again, and its journal is not discovered. *)
Lemma discovery_retry_counterexample : ~ Dergipark.discovery_retry_claim 1.
Proof.
  intros Hclaim.
  specialize (Hclaim Dergipark.flaky_page (fun _ => Some "abc"%string)).
  assert (H0 : forall k, (k < 1)%nat -> Dergipark.flaky_page 2%Z k = Dergipark.PageRaises)
    by (intros [|k] Hk; [done|lia]).
  specialize (Hclaim H0 _ eq_refl
                (Dergipark.mkJournal "abc" "ABC" "/pub/abc")).
  assert (Hin : Dergipark.mkJournal "abc" "ABC" "/pub/abc" ∈
                (fold_left (Dergipark.add_link (fun _ => Some "abc"%string))
                   [("/pub/abc", "ABC")]%string ([], ∅)).1).
  { cbn [fold_left Dergipark.add_link]. rewrite decide_False by set_solver.
    apply list_elem_of_here. }
  specialize (Hclaim Hin).
  change ((Dergipark.get_journal_slugs_and_titles_by_scraping Dergipark.flaky_page
             (fun _ => Some "abc"%string)).1) with (@nil Dergipark.Journal) in Hclaim.
  by apply not_elem_of_nil in Hclaim.
Qed.

(** Without any retry the claim holds: a page that answers at its first
    request has its journals discovered. *)
Lemma discovery_retry_zero : Dergipark.discovery_retry_claim 0.
Proof.
  intros get_page slug_of _ links Hlinks j Hj.
  unfold Dergipark.get_journal_slugs_and_titles_by_scraping.
  change (Dergipark.explore_pages Dergipark.MAX_JOURNAL_EXPLORE_PAGES)
    with [2; 3]%Z.
  destruct links as [|link links]; [by apply not_elem_of_nil in Hj|].
  rewrite (explore_page_links get_page slug_of 2%Z [3%Z] ([], ∅) [] link links Hlinks).
  eapply elem_of_prefix; [exact Hj|]. apply explore_prefix.
Qed.

(** ** The incremental CSV *)

Section CsvFacts.
Import YokTez.

Lemma csv_of_app (a b : list Thesis) has_pdfs :
  csv_of (a ++ b) has_pdfs = csv_of a has_pdfs ++ map (row (headers has_pdfs)) b.
Proof. unfold csv_of. by rewrite map_app. Qed.

(** [_save_csv] touches no file but the one it is given. *)
Lemma save_csv_frame (fs : gmap string Csv) theses filename has_pdfs io g :
  g <> filename -> _save_csv fs theses filename has_pdfs io !! g = fs !! g.
Proof.
  intros Hg. unfold _save_csv. destruct (truthy theses); simpl; [|done].
  destruct io; [done | |]; by rewrite lookup_insert_ne.
Qed.

(** A save that goes through replaces the file by header and rows of the
    theses it was given, whatever the file held. *)
Lemma save_csv_ok (fs : gmap string Csv) theses filename has_pdfs :
  truthy theses = true ->
  _save_csv fs theses filename has_pdfs WriteOk !! filename =
    Some (csv_of theses has_pdfs).
Proof.
  intros Ht. unfold _save_csv. rewrite Ht. simpl. by rewrite lookup_insert_eq.
Qed.

(** C6, amended: every save rewrites the one output file and no other.
    A save that goes through leaves in it the header and one row per
    thesis collected so far; as the collection only grows, the rows of
    an earlier save are a prefix of the rows of a later one. *)
Theorem save_rewrites_the_one_file :
  (forall (fs : gmap string Csv) theses filename has_pdfs io g,
     g <> filename -> _save_csv fs theses filename has_pdfs io !! g = fs !! g) /\
  (forall (fs : gmap string Csv) theses filename has_pdfs,
     truthy theses = true ->
     _save_csv fs theses filename has_pdfs WriteOk !! filename =
       Some (csv_of theses has_pdfs)) /\
  (forall filename has_pdfs all_theses (fs : gmap string Csv) uni_name theses,
     let st' := save_incrementally filename has_pdfs (all_theses, fs)
                  (uni_name, theses, WriteOk) in
     all_theses `prefix_of` st'.1 /\
     csv_of all_theses has_pdfs `prefix_of` csv_of st'.1 has_pdfs /\
     (truthy st'.1 = true -> st'.2 !! filename = Some (csv_of st'.1 has_pdfs))).
Proof.
  split; [apply save_csv_frame|]. split; [apply save_csv_ok|].
  intros filename has_pdfs all_theses fs uni_name theses. cbn zeta.
  unfold save_incrementally. cbn [fst snd].
  destruct (truthy theses) eqn:Ht.
  - split; [by apply prefix_app_r|]. split.
    + rewrite csv_of_app. by apply prefix_app_r.
    + intros Hall. rewrite Hall. by apply save_csv_ok.
  - split; [done|]. split; [done|].
    intros Hall. rewrite Hall. by apply save_csv_ok.
Qed.
End CsvFacts.

Lemma save_rewrites_the_one_file_witness :
  "other.csv"%string <> "out.csv"%string /\
  YokTez._save_csv {["other.csv"%string := [["x"%string]]]}
    [{["title"%string := "T"%string]}] "out.csv" false YokTez.WriteOk
    !! "other.csv"%string = Some [["x"%string]].
Proof.
  split; [done|].
  destruct save_rewrites_the_one_file as (Hframe & _).
  rewrite Hframe by done. apply lookup_singleton_eq.
Defined.

(** C6, as stated, fails: a second save to the same name replaces what
    the first one wrote and adds no new file; and a save that fails after
    the header was written leaves only the header of what was there. *)
Lemma append_only_counterexample :
  let t1 : YokTez.Thesis := {["article_id"%string := "1"%string]} in
  let t2 : YokTez.Thesis := {["article_id"%string := "2"%string]} in
  let fs1 := YokTez._save_csv ∅ [t1] "out.csv" false YokTez.WriteOk in
  ~ YokTez.append_only_claim /\
  fs1 !! "out.csv"%string = Some (YokTez.csv_of [t1] false) /\
  YokTez._save_csv fs1 [t1; t2] "out.csv" false YokTez.WriteOk
    = {["out.csv"%string := YokTez.csv_of [t1; t2] false]} /\
  YokTez._save_csv fs1 [t1; t2] "out.csv" false (YokTez.WriteRaisesAfter 1)
    = {["out.csv"%string := [YokTez.headers false]]}.
Proof.
  intros t1 t2 fs1.
  assert (Hfs1 : fs1 = {["out.csv"%string := YokTez.csv_of [t1] false]}).
  { subst fs1. unfold YokTez._save_csv. simpl. apply insert_empty. }
  split; [|split; [|split]].
  - intros Hclaim.
    specialize (Hclaim fs1 [t1; t2] "out.csv"%string false YokTez.WriteOk
                  "out.csv"%string (YokTez.csv_of [t1] false)).
    rewrite Hfs1 in Hclaim. rewrite lookup_singleton_eq in Hclaim.
    specialize (Hclaim eq_refl). unfold YokTez._save_csv in Hclaim.
    simpl in Hclaim. rewrite lookup_insert_eq in Hclaim.
    apply (f_equal (fmap length)) in Hclaim. simpl in Hclaim. discriminate.
  - rewrite Hfs1. apply lookup_singleton_eq.
  - rewrite Hfs1. unfold YokTez._save_csv. simpl. apply insert_singleton_eq.
  - rewrite Hfs1. unfold YokTez._save_csv. simpl. apply insert_singleton_eq.
Qed.

(** ** The year-sharded crawl *)

Lemma elem_of_map {A B : Type} (f : A -> B) (l : list A) (y : B) :
  y ∈ map f l <-> exists x, y = f x /\ x ∈ l.
Proof. exact (list_elem_of_fmap f l y). Qed.

Lemma elem_of_map_intro {A B : Type} (f : A -> B) (l : list A) (x : A) :
  x ∈ l -> f x ∈ map f l.
Proof. exact (list_elem_of_fmap_2 f l x). Qed.

Section TraceFacts.
Import YokTez.

Lemma unreleased_app tr l : unreleased (tr ++ l) = fold_left track l (unreleased tr).
Proof. unfold unreleased. by rewrite fold_left_app. Qed.

Lemma sequential_nil : sequential [].
Proof. intros [|e' tr1] e tr2 H; simplify_eq. Qed.

Lemma sequential_snoc tr e :
  sequential tr -> owned (batch_of e) tr -> sequential (tr ++ [e]).
Proof.
  intros Hseq Hown tr1 e' tr2 Heq c Hc.
  destruct tr2 as [|x tr2 _] using rev_ind.
  - apply app_inj_tail in Heq as [-> ->]. by apply Hown.
  - rewrite app_comm_cons, app_assoc in Heq.
    apply app_inj_tail in Heq as [-> _]. by eapply Hseq.
Qed.

Lemma owned_snoc b tr e : owned b tr -> batch_of e = b -> owned b (tr ++ [e]).
Proof.
  intros Hown He c. rewrite unreleased_app. cbn [fold_left].
  destruct e as [b' i|b' i|b' i|b' i|b']; cbn [track batch_of] in *;
    try apply Hown.
  - intros Hc. apply elem_of_app in Hc as [Hc|Hc]; [by apply Hown|].
    by apply list_elem_of_singleton in Hc as ->.
  - intros Hc. apply list_elem_of_filter in Hc as [_ Hc]. by apply Hown.
Qed.

(** Events of sub-batch [b] keep a trace sequential as long as only
    contexts of [b] are open. *)
Lemma sequential_app b tr l :
  sequential tr -> owned b tr -> Forall (fun e => batch_of e = b) l ->
  sequential (tr ++ l) /\ owned b (tr ++ l).
Proof.
  intros Hseq Hown Hl. revert tr Hseq Hown.
  induction Hl as [|e l He _ IH]; intros tr Hseq Hown.
  - by rewrite app_nil_r.
  - replace (tr ++ e :: l) with ((tr ++ [e]) ++ l) by (by rewrite <- app_assoc).
    apply IH.
    + apply sequential_snoc; [done|]. by rewrite He.
    + by apply owned_snoc.
Qed.

Lemma unreleased_opens b slots tr :
  unreleased (tr ++ map (NewContext b) slots) =
    unreleased tr ++ map (pair b) slots.
Proof.
  rewrite unreleased_app. generalize (unreleased tr) as open.
  induction slots as [|i slots IH]; intros open; simpl.
  - by rewrite app_nil_r.
  - by rewrite IH, <- app_assoc.
Qed.

Lemma unreleased_tasks tr l : Forall is_task l -> unreleased (tr ++ l) = unreleased tr.
Proof.
  intros Hl. rewrite unreleased_app. generalize (unreleased tr) as open.
  induction Hl as [|e l He _ IH]; intros open; [done|]. simpl.
  destruct e; try done; apply IH.
Qed.

Lemma unreleased_closes b slots tr :
  unreleased (tr ++ map (CloseContext b) slots) =
    filter (fun c => c ∉ map (pair b) slots) (unreleased tr).
Proof.
  rewrite unreleased_app. generalize (unreleased tr) as open.
  induction slots as [|i slots IH]; intros open; simpl.
  - induction open as [|c open IHo]; [done|].
    rewrite filter_cons, decide_True by apply not_elem_of_nil. by f_equal.
  - rewrite IH. clear IH. induction open as [|c open IHo]; [done|].
    rewrite !filter_cons.
    destruct (decide (c <> (b, i))) as [Hne|Heq].
    + rewrite filter_cons. destruct (decide (c ∉ map (pair b) slots)) as [Hn|Hn].
      * rewrite decide_True; [by f_equal|].
        rewrite not_elem_of_cons. done.
      * rewrite decide_False; [done|].
        intros Hc. apply Hn. by apply not_elem_of_cons in Hc as [_ Hc].
    + rewrite decide_False; [done|].
      intros Hc. apply not_elem_of_cons in Hc as [Hc _]. by apply Heq.
Qed.

Lemma filter_closed_nil (closed l : list (nat * nat)) :
  (forall c, c ∈ l -> c ∈ closed) -> filter (fun c => c ∉ closed) l = [].
Proof.
  induction l as [|c l IH]; intros Hl; [done|].
  rewrite filter_cons, decide_False.
  - apply IH. intros c' Hc'. by apply Hl, list_elem_of_further.
  - intros Hc. apply Hc, Hl, list_elem_of_here.
Qed.

Lemma unreleased_all_closed b slots tr :
  unreleased tr = map (pair b) slots ->
  unreleased (tr ++ map (CloseContext b) slots) = [].
Proof.
  intros Hopen. rewrite unreleased_closes, Hopen.
  by apply filter_closed_nil.
Qed.

Lemma task_events_spec b n e :
  e ∈ task_events b n -> is_task e /\ batch_of e = b.
Proof.
  unfold task_events. intros He.
  apply list_elem_of_In, in_flat_map in He as (i & _ & He).
  destruct He as [<-|[<-|[]]]; by split.
Qed.
End TraceFacts.

Section ByYearFacts.
Import YokTez.
Context {T : Type}.
Variable new_context_ok : nat -> nat -> bool.
Variable close_ok : nat -> nat -> bool.
Variable single_year : Z -> result (list T).
Variable schedule : nat -> list BEvent -> list BEvent.
Variable extract_pdfs : bool.
Variable pdf_pass : list T -> result (list T).
(** [gather] runs every task of the sub-batch, each once, in any order. *)
Hypothesis schedule_perm : forall b l, schedule b l ≡ₚ l.

Abbreviation run_batch' :=
  (run_batch new_context_ok close_ok single_year schedule).
Abbreviation run_batches' :=
  (run_batches new_context_ok close_ok single_year schedule).

Lemma open_contexts_spec b slots tr :
  exists opened,
    (open_contexts new_context_ok b slots tr).2 = tr ++ map (NewContext b) opened /\
    ((open_contexts new_context_ok b slots tr).1 = Ok tt -> opened = slots).
Proof.
  revert tr. induction slots as [|i slots IH]; intros tr; cbn [open_contexts].
  - exists []. by rewrite app_nil_r.
  - destruct (new_context_ok b i).
    + destruct (IH (tr ++ [NewContext b i])) as (opened & -> & Hall).
      exists (i :: opened). split; [by rewrite <- app_assoc|].
      intros Hok. by rewrite (Hall Hok).
    + exists []. by rewrite app_nil_r.
Qed.

Lemma close_contexts_spec b slots tr :
  exists closed,
    (close_contexts close_ok b slots tr).2 = tr ++ map (CloseContext b) closed /\
    ((close_contexts close_ok b slots tr).1 = Ok tt -> closed = slots).
Proof.
  revert tr. induction slots as [|i slots IH]; intros tr; cbn [close_contexts].
  - exists []. by rewrite app_nil_r.
  - destruct (close_ok b i).
    + destruct (IH (tr ++ [CloseContext b i])) as (closed & -> & Hall).
      exists (i :: closed). split; [by rewrite <- app_assoc|].
      intros Hok. by rewrite (Hall Hok).
    + exists []. by rewrite app_nil_r.
Qed.

Lemma Forall_map_batch (f : nat -> BEvent) b (l : list nat) :
  (forall i, batch_of (f i) = b) -> Forall (fun e => batch_of e = b) (map f l).
Proof. intros Hf. induction l; constructor; auto. Qed.

Lemma schedule_tasks b n :
  Forall is_task (schedule b (task_events b n)) /\
  Forall (fun e => batch_of e = b) (schedule b (task_events b n)).
Proof.
  split; apply Forall_forall; intros e He;
    rewrite (schedule_perm b (task_events b n)) in He;
    by apply task_events_spec in He as [? ?].
Qed.

(** One sub-batch, started with no context open: the trace stays
    sequential, and if the round ends normally no context is open. *)
Lemma run_batch_spec b batch_years all_theses tr :
  sequential tr -> unreleased tr = [] ->
  sequential (run_batch' b batch_years all_theses tr).2 /\
  (forall all', (run_batch' b batch_years all_theses tr).1 = Ok all' ->
     unreleased (run_batch' b batch_years all_theses tr).2 = []).
Proof.
  intros Hseq Hnone. unfold run_batch.
  set (slots := seq 0 (length batch_years)).
  assert (Hown : owned b tr).
  { intros c Hc. rewrite Hnone in Hc. by apply not_elem_of_nil in Hc. }
  destruct (open_contexts_spec b slots tr) as (opened & Htr1 & Hall1).
  destruct (open_contexts new_context_ok b slots tr) as [[[]|e1] tr1];
    cbn [fst snd] in *; subst tr1.
  2:{ split; [|done].
      eapply sequential_app; [done | done |]. by apply Forall_map_batch. }
  rewrite (Hall1 eq_refl) in *. clear Hall1 opened.
  destruct (sequential_app b tr (map (NewContext b) slots) Hseq Hown
              ltac:(by apply Forall_map_batch)) as [Hseq1 Hown1].
  destruct (schedule_tasks b (length batch_years)) as [Htask Hbatch].
  destruct (sequential_app b _ _ Hseq1 Hown1 Hbatch) as [Hseq2 Hown2].
  set (tr2 := (tr ++ map (NewContext b) slots) ++
              schedule b (task_events b (length batch_years))) in *.
  assert (Hopen2 : unreleased tr2 = map (pair b) slots).
  { subst tr2. rewrite unreleased_tasks by done.
    by rewrite unreleased_opens, Hnone. }
  destruct (close_contexts_spec b slots tr2) as (closed & Htr3 & Hall3).
  destruct (close_contexts close_ok b slots tr2) as [[[]|e3] tr3];
    cbn [fst snd] in *; subst tr3.
  2:{ split; [|done].
      eapply sequential_app; [done | done |]. by apply Forall_map_batch. }
  rewrite (Hall3 eq_refl) in *. clear Hall3 closed.
  destruct (sequential_app b tr2 (map (CloseContext b) slots) Hseq2 Hown2
              ltac:(by apply Forall_map_batch)) as [Hseq3 Hown3].
  destruct (collect_results single_year batch_years all_theses) as [all1|e1];
    cbn [fst snd]; [|by split].
  split.
  - apply sequential_snoc; [done|]. exact Hown3.
  - intros all' _. rewrite unreleased_app. cbn [fold_left track].
    by apply unreleased_all_closed.
Qed.

Lemma run_batches_spec batches b all_theses tr :
  sequential tr -> unreleased tr = [] ->
  sequential (run_batches' b batches all_theses tr).2 /\
  (forall all', (run_batches' b batches all_theses tr).1 = Ok all' ->
     unreleased (run_batches' b batches all_theses tr).2 = []).
Proof.
  revert b all_theses tr.
  induction batches as [|batch_years rest IH]; intros b all_theses tr Hseq Hnone;
    cbn [run_batches]; [done|].
  destruct (run_batch_spec b batch_years all_theses tr Hseq Hnone) as [Hseq1 Hnone1].
  destruct (run_batch' b batch_years all_theses tr) as [[all1|e1] tr1];
    cbn [fst snd] in *; [|done].
  apply IH; [done|]. by apply (Hnone1 all1).
Qed.

(** The theses returned do not depend on the order of completion. *)
Lemma run_batches_result batches b all_theses tr tr' :
  (run_batches' b batches all_theses tr).1 =
  (run_batches new_context_ok close_ok single_year (fun _ l => l)
     b batches all_theses tr').1.
Proof.
  revert b all_theses tr tr'.
  induction batches as [|batch_years rest IH]; intros b all_theses tr tr';
    cbn [run_batches]; [done|].
  assert (Hsame : forall sched t,
    (run_batch new_context_ok close_ok single_year sched
       b batch_years all_theses t).1 =
    match (open_contexts new_context_ok b (seq 0 (length batch_years)) []).1 with
    | Raise e => Raise e
    | Ok _ =>
        match (close_contexts close_ok b (seq 0 (length batch_years)) []).1 with
        | Raise e => Raise e
        | Ok _ => collect_results single_year batch_years all_theses
        end
    end).
  { intros sched t. unfold run_batch.
    assert (Ho : forall slots t1 t2,
      (open_contexts new_context_ok b slots t1).1 =
      (open_contexts new_context_ok b slots t2).1).
    { induction slots as [|i slots IHs]; intros t1 t2; cbn [open_contexts]; [done|].
      destruct (new_context_ok b i); [apply IHs | done]. }
    assert (Hc : forall slots t1 t2,
      (close_contexts close_ok b slots t1).1 =
      (close_contexts close_ok b slots t2).1).
    { induction slots as [|i slots IHs]; intros t1 t2; cbn [close_contexts]; [done|].
      destruct (close_ok b i); [apply IHs | done]. }
    rewrite (Ho _ [] t).
    destruct (open_contexts new_context_ok b _ t) as [[[]|e1] t1]; cbn [fst]; [|done].
    rewrite (Hc _ [] (t1 ++ sched b (task_events b (length batch_years)))).
    destruct (close_contexts close_ok b _ _) as [[[]|e3] t3]; cbn [fst]; [|done].
    by destruct (collect_results single_year batch_years all_theses). }
  pose proof (Hsame schedule tr) as H1.
  pose proof (Hsame (fun _ l => l) tr') as H2.
  destruct (run_batch' b batch_years all_theses tr) as [r1 t1].
  destruct (run_batch new_context_ok close_ok single_year (fun _ l => l)
              b batch_years all_theses tr') as [r2 t2].
  cbn [fst] in H1, H2. rewrite <- H1 in H2. subst r2.
  destruct r1; [apply IH | done].
Qed.

(** The PDF pass, started with no context open: it opens one context and,
    if it ends normally, has closed it. *)
Lemma pdf_extraction_spec b all_theses tr :
  sequential tr -> unreleased tr = [] ->
  sequential
    (pdf_extraction new_context_ok close_ok extract_pdfs pdf_pass
       b all_theses tr).2 /\
  (forall all',
     (pdf_extraction new_context_ok close_ok extract_pdfs pdf_pass
        b all_theses tr).1 = Ok all' ->
     unreleased
       (pdf_extraction new_context_ok close_ok extract_pdfs pdf_pass
          b all_theses tr).2 = []).
Proof.
  intros Hseq Hnone. unfold pdf_extraction.
  assert (Hown : owned b tr).
  { intros c Hc. rewrite Hnone in Hc. by apply not_elem_of_nil in Hc. }
  assert (Hopen : sequential (tr ++ [NewContext b 0]))
    by (by apply sequential_snoc).
  destruct (extract_pdfs && truthy all_theses); [|by split].
  destruct (new_context_ok b 0); [|by split].
  destruct (pdf_pass all_theses) as [theses|e]; [|by split].
  destruct (close_ok b 0); [|by split]. cbn [fst snd]. split.
  - replace (tr ++ [NewContext b 0; CloseContext b 0])
      with ((tr ++ [NewContext b 0]) ++ [CloseContext b 0])
      by (by rewrite <- app_assoc).
    apply sequential_snoc; [done|]. by apply owned_snoc.
  - intros _ _. rewrite unreleased_app, Hnone. cbn [fold_left track app].
    rewrite filter_cons, decide_False; [done|]. by intros H.
Qed.

Lemma pdf_extraction_result b all_theses tr tr' :
  (pdf_extraction new_context_ok close_ok extract_pdfs pdf_pass
     b all_theses tr).1 =
  (pdf_extraction new_context_ok close_ok extract_pdfs pdf_pass
     b all_theses tr').1.
Proof.
  unfold pdf_extraction.
  destruct (extract_pdfs && truthy all_theses); [|done].
  destruct (new_context_ok b 0); [|done].
  destruct (pdf_pass all_theses); [|done]. by destruct (close_ok b 0).
Qed.

(** C9: in every run of the year-sharded crawl, whatever the order in
    which the tasks of a sub-batch start and complete, anything that
    happens for a sub-batch happens while only contexts of that sub-batch
    are open: no task of the next sub-batch starts before every context of
    the previous one is closed.  A run that ends normally leaves no
    context open, and the theses returned are the same for every order of
    completion. *)
Theorem sub_batches_sequential (years : list Z) (year_batch : Z) :
  let run := _scrape_university_by_year new_context_ok close_ok single_year
               schedule extract_pdfs pdf_pass years year_batch in
  sequential run.2 /\
  (forall all_theses, run.1 = Ok all_theses -> unreleased run.2 = []) /\
  run.1 = (_scrape_university_by_year new_context_ok close_ok single_year
             (fun _ l => l) extract_pdfs pdf_pass years year_batch).1.
Proof.
  cbn zeta. unfold _scrape_university_by_year.
  destruct (slices years year_batch) as [batches|e].
  - destruct (run_batches_spec batches 0 [] [] sequential_nil eq_refl) as [H1 H2].
    pose proof (run_batches_result batches 0 [] [] []) as Hres.
    destruct (run_batches' 0 batches [] []) as [[all1|e1] tr1].
    + destruct (run_batches new_context_ok close_ok single_year (fun _ l => l)
                  0 batches [] []) as [r2 tr2].
      cbn [fst snd] in *. subst r2.
      destruct (pdf_extraction_spec (length batches) all1 tr1 H1 (H2 all1 eq_refl))
        as [H3 H4].
      split; [done|]. split; [done|]. apply pdf_extraction_result.
    + destruct (run_batches new_context_ok close_ok single_year (fun _ l => l)
                  0 batches [] []) as [r2 tr2].
      cbn [fst snd] in *. subst r2. by repeat split.
  - split; [apply sequential_nil|]. by split.
Qed.
End ByYearFacts.

Lemma sub_batches_sequential_witness :
  (forall (b : nat) (l : list YokTez.BEvent), reverse l ≡ₚ l) /\
  YokTez.sequential
    (YokTez._scrape_university_by_year (T := nat)
       (fun _ _ => true) (fun _ _ => true) (fun _ => Ok [])
       (fun _ l => reverse l) false (fun l => Ok l)
       [1980; 1981; 1982]%Z 2).2.
Proof.
  split; [intros b l; apply reverse_Permutation|].
  apply (sub_batches_sequential (T := nat)
           (fun _ _ => true) (fun _ _ => true) (fun _ => Ok [])
           (fun _ l => reverse l) false (fun l => Ok l)).
  intros b l. apply reverse_Permutation.
Defined.

(** The trace of three years in sub-batches of two, the tasks of a
    sub-batch completing in reverse order. *)
Example by_year_trace :
  (YokTez._scrape_university_by_year (T := nat)
     (fun _ _ => true) (fun _ _ => true) (fun y => Ok [Z.to_nat y])
     (fun _ l => reverse l) true (fun l => Ok l)
     [1980; 1981; 1982]%Z 2).2
  = [YokTez.NewContext 0 0; YokTez.NewContext 0 1;
     YokTez.TaskDone 0 1; YokTez.TaskStart 0 1;
     YokTez.TaskDone 0 0; YokTez.TaskStart 0 0;
     YokTez.CloseContext 0 0; YokTez.CloseContext 0 1; YokTez.BSleep 0;
     YokTez.NewContext 1 0;
     YokTez.TaskDone 1 0; YokTez.TaskStart 1 0;
     YokTez.CloseContext 1 0; YokTez.BSleep 1;
     YokTez.NewContext 2 0; YokTez.CloseContext 2 0].
Proof. reflexivity. Qed.

(** * Further facts *)

(** ** The article pool is transparent *)

Section HybridFacts.
Import Dergipark.
Context {Payload : Type}.
Variable scrape_single : string -> string -> option Payload.
Variable loop_raises : list string -> bool.
Variable num_processes : Z.
Hypothesis processes_pos : (1 <= num_processes)%Z.

Lemma omap_concat {A B : Type} (f : A -> option B) (ls : list (list A)) :
  concat (map (omap f) ls) = omap f (concat ls).
Proof.
  induction ls as [|l ls IH]; [done|]. simpl. by rewrite omap_app, IH.
Qed.

Lemma chunk_records_sublist (chunk : list string) slug :
  process_article_chunk_standalone scrape_single loop_raises chunk slug
    `sublist_of` process_article_chunk_async_standalone scrape_single chunk slug.
Proof.
  unfold process_article_chunk_standalone.
  destruct (loop_raises chunk); [apply sublist_nil_l | done].
Qed.

Lemma async_chunk_length (urls : list string) slug :
  (length (process_article_chunk_async_standalone scrape_single urls slug)
     <= length urls)%nat.
Proof.
  pose proof (chunk_urls_sublist scrape_single (fun _ => false) urls slug) as H.
  apply sublist_length in H. by rewrite length_map in H.
Qed.

Lemma hybrid_records (all_article_urls : list string) slug :
  exists records,
    hybrid_scrape_articles scrape_single loop_raises num_processes
      all_article_urls slug = Ok records /\
    records `sublist_of`
      process_article_chunk_async_standalone scrape_single all_article_urls slug /\
    (length records <= length all_article_urls)%nat /\
    ((forall chunk, loop_raises chunk = false) ->
     records =
       process_article_chunk_async_standalone scrape_single all_article_urls slug).
Proof.
  destruct (hybrid_chunked scrape_single loop_raises num_processes
              processes_pos all_article_urls slug) as (chunks & Hcat & ->).
  eexists; split; [done|].
  assert (Hsub : concat (map (fun chunk =>
              process_article_chunk_standalone scrape_single loop_raises chunk slug)
              chunks)
            `sublist_of`
          process_article_chunk_async_standalone scrape_single all_article_urls slug).
  { rewrite <- Hcat. unfold process_article_chunk_async_standalone at 1.
    rewrite <- omap_concat. clear Hcat.
    induction chunks as [|c chunks IH]; [done|]. simpl.
    apply sublist_app; [apply chunk_records_sublist | apply IH]. }
  split; [exact Hsub|]. split.
  - etrans; [apply sublist_length, Hsub | apply async_chunk_length].
  - intros Hloops. rewrite <- Hcat.
    unfold process_article_chunk_async_standalone at 1.
    rewrite <- omap_concat. f_equal. apply map_ext. intros chunk.
    unfold process_article_chunk_standalone. by rewrite Hloops.
Qed.

(** X1: cutting the URLs into chunks for the pool changes nothing in what
    comes back.  When no worker's event loop raises,
    [hybrid_scrape_articles] returns the records of one pass over all URLs,
    in URL order, whatever the number of processes; when some loops raise,
    it returns a sublist of them; never more records than URLs. *)
Theorem hybrid_is_one_pass (all_article_urls : list string) slug :
  exists records,
    hybrid_scrape_articles scrape_single loop_raises num_processes
      all_article_urls slug = Ok records /\
    records `sublist_of`
      process_article_chunk_async_standalone scrape_single all_article_urls slug /\
    (length records <= length all_article_urls)%nat /\
    ((forall chunk, loop_raises chunk = false) ->
     records =
       process_article_chunk_async_standalone scrape_single all_article_urls slug).
Proof. apply hybrid_records. Qed.
End HybridFacts.

Lemma hybrid_is_one_pass_witness :
  (1 <= 2)%Z /\
  exists records,
    Dergipark.hybrid_scrape_articles (Payload := nat)
      (fun u _ => if String.eqb u "u2" then None else Some 0%nat)
      (fun _ => false) 2 ["u1"; "u2"; "u3"]%string "j" = Ok records /\
    (length records <= 3)%nat.
Proof.
  split; [lia|].
  destruct (hybrid_is_one_pass (Payload := nat)
              (fun u _ => if String.eqb u "u2" then None else Some 0%nat)
              (fun _ => false) 2 ltac:(lia) ["u1"; "u2"; "u3"]%string "j"%string)
    as (records & Hr & _ & Hlen & _).
  exists records. split; [exact Hr | exact Hlen].
Defined.

(** ** More on discovery *)

Section DiscoveryMore.
Import Dergipark.
Variable get_page : Z -> nat -> PageOutcome.
Variable slug_of : string -> option string.

Lemma add_link_inv st link :
  Crawl.discovery_inv slug_of st -> Crawl.discovery_inv slug_of (add_link slug_of st link).
Proof.
  destruct st as [journal_data seen], link as [href text].
  intros (Hnd & Hseen & Hslug). unfold add_link.
  destruct (slug_of href) as [slug|] eqn:Hs; [|done].
  destruct (decide (slug ∈ seen)) as [Hin|Hnin]; [done|].
  split; [|split]; cbn [fst snd] in *.
  - rewrite map_app. apply NoDup_app. split; [done|]. split.
    + intros x Hx Hx'. apply list_elem_of_singleton in Hx'. simpl in Hx'. subst x.
      apply elem_of_map in Hx as (j & Heq & Hj). apply Hnin. rewrite Heq.
      by apply Hseen.
    + apply NoDup_singleton.
  - intros j Hj. apply elem_of_app in Hj as [Hj|Hj].
    + apply elem_of_union_r. by apply Hseen.
    + apply list_elem_of_singleton in Hj as ->. simpl.
      apply elem_of_union_l. by apply elem_of_singleton.
  - intros j Hj. apply elem_of_app in Hj as [Hj|Hj]; [by apply Hslug|].
    by apply list_elem_of_singleton in Hj as ->.
Qed.

Lemma add_links_inv links st :
  Crawl.discovery_inv slug_of st ->
  Crawl.discovery_inv slug_of (fold_left (add_link slug_of) links st).
Proof.
  revert st. induction links as [|link links IH]; intros st Hst; [done|].
  cbn [fold_left]. by apply IH, add_link_inv.
Qed.

Lemma explore_inv pages st tr :
  Crawl.discovery_inv slug_of st ->
  NoDup (map journal_slug (explore get_page slug_of pages st tr).1) /\
  (forall j, j ∈ (explore get_page slug_of pages st tr).1 ->
     slug_of (explore_url j) = Some (journal_slug j)).
Proof.
  revert st tr. induction pages as [|page_num rest IH]; intros st tr Hst;
    cbn [explore].
  - by destruct Hst as (? & _ & ?).
  - destruct (get_page page_num (page_attempts page_num tr)) as [|[|link links]];
      cbn [fst]; try by destruct Hst as (? & _ & ?).
    apply IH. by apply (add_links_inv (link :: links)).
Qed.

Lemma explore_requests pages st tr p :
  DGet p ∈ (explore get_page slug_of pages st tr).2 -> DGet p ∈ tr \/ p ∈ pages.
Proof.
  revert st tr. induction pages as [|page_num rest IH]; intros st tr;
    cbn [explore]; [by left|].
  assert (Hstop : forall e, e <> DGet p ->
            DGet p ∈ tr ++ [DGet page_num; e] -> DGet p ∈ tr \/ p ∈ page_num :: rest).
  { intros e He Hin. apply elem_of_app in Hin as [Hin|Hin]; [by left|].
    apply elem_of_cons in Hin as [[= ->]|Hin]; [right; apply list_elem_of_here|].
    apply list_elem_of_singleton in Hin. by destruct He. }
  destruct (get_page page_num (page_attempts page_num tr)) as [|[|link links]];
    cbn [snd].
  - by apply Hstop.
  - by apply Hstop.
  - intros Hin. apply IH in Hin as [Hin|Hin].
    + apply elem_of_app in Hin as [Hin|Hin]; [by left|].
      apply list_elem_of_singleton in Hin as [= ->]. right. apply list_elem_of_here.
    + right. by apply list_elem_of_further.
Qed.

(** X2: discovery never returns the same slug twice, every journal it
    returns carries the slug its own link matched, and it only ever asks
    for listing pages 2 to [MAX_JOURNAL_EXPLORE_PAGES]: the first listing
    page is never requested. *)
Theorem discovery_distinct_slugs :
  let found := get_journal_slugs_and_titles_by_scraping get_page slug_of in
  NoDup (map journal_slug found.1) /\
  (forall j, j ∈ found.1 -> slug_of (explore_url j) = Some (journal_slug j)) /\
  (forall p, DGet p ∈ found.2 -> (2 <= p <= MAX_JOURNAL_EXPLORE_PAGES)%Z).
Proof.
  cbn zeta. unfold get_journal_slugs_and_titles_by_scraping.
  assert (Hinit : Crawl.discovery_inv slug_of ([], ∅)).
  { split; [constructor|]. split; intros j Hj; by apply not_elem_of_nil in Hj. }
  destruct (explore_inv (explore_pages MAX_JOURNAL_EXPLORE_PAGES) _ [] Hinit)
    as [Hnd Hslug].
  split; [done|]. split; [done|].
  intros p Hp. apply explore_requests in Hp as [Hp|Hp];
    [by apply not_elem_of_nil in Hp|].
  change (explore_pages MAX_JOURNAL_EXPLORE_PAGES) with [2; 3]%Z in Hp.
  unfold MAX_JOURNAL_EXPLORE_PAGES.
  apply elem_of_cons in Hp as [->|Hp]; [lia|].
  apply list_elem_of_singleton in Hp as ->. lia.
Qed.
End DiscoveryMore.

(** ** More on de-duplication and batches *)

Section DedupMore.
Import Dergipark.

Lemma filter_new_fold_stable (l acc : list string) (seen : gset string) :
  exists new,
    fold_left
      (fun '(new_article_urls, seen) u =>
         let '(fresh, seen') := accept seen u in
         (if fresh then new_article_urls ++ [u] else new_article_urls, seen'))
      l (acc, seen) = (acc ++ new, list_to_set l ∪ seen) /\
    new `sublist_of` l /\
    NoDup new /\
    (forall x, x ∈ new <-> x ∈ l /\ x ∉ seen).
Proof.
  revert acc seen. induction l as [|u l IH]; intros acc seen; cbn [fold_left].
  - exists []. rewrite app_nil_r. split; [|split; [done|split; [constructor|]]].
    + f_equal. apply set_eq. intros x. rewrite elem_of_union. simpl.
      split; [by right | intros [H|H]; [by apply not_elem_of_empty in H | done]].
    + intros x. split; [intros H; by apply not_elem_of_nil in H|].
      intros [H _]. by apply not_elem_of_nil in H.
  - destruct (decide (u ∈ seen)) as [Hu|Hu].
    + rewrite (accept_known _ _ Hu).
      destruct (IH acc seen) as (new & -> & Hsub & Hnd & Hin).
      exists new. split; [|split; [by apply sublist_cons|split; [done|]]].
      * f_equal. apply set_eq. intros x. simpl.
        rewrite !elem_of_union, elem_of_singleton.
        split; [tauto|]. intros [[->|H]|H]; auto.
      * intros x. rewrite Hin, elem_of_cons. split; [tauto|].
        intros [[->|H] Hn]; [done | tauto].
    + rewrite (accept_fresh _ _ Hu).
      destruct (IH (acc ++ [u]) ({[u]} ∪ seen)) as (new & -> & Hsub & Hnd & Hin).
      exists (u :: new). split; [|split; [by apply sublist_skip|split]].
      * rewrite <- app_assoc. f_equal.
        apply set_eq. intros x. simpl.
        rewrite !elem_of_union, elem_of_singleton. tauto.
      * constructor; [|done]. rewrite Hin.
        intros [_ Hn]. apply Hn, elem_of_union_l. by apply elem_of_singleton.
      * intros x. rewrite !elem_of_cons, Hin, elem_of_union, elem_of_singleton.
        destruct (decide (x = u)) as [->|Hne]; [tauto|]. tauto.
Qed.

Lemma filter_new_seen (l : list string) (seen : gset string) :
  (filter_new l seen).2 = list_to_set l ∪ seen.
Proof.
  unfold filter_new.
  by destruct (filter_new_fold_stable l [] seen) as (new & -> & _).
Qed.

(** One more URL at the end of the overview: it is appended if it is new,
    and nothing else changes. *)
Lemma filter_new_snoc (l : list string) (x : string) (seen : gset string) :
  filter_new (l ++ [x]) seen =
    if decide (x ∈ (filter_new l seen).2) then filter_new l seen
    else ((filter_new l seen).1 ++ [x], {[x]} ∪ (filter_new l seen).2).
Proof.
  unfold filter_new. rewrite fold_left_app. cbn [fold_left].
  destruct (fold_left _ l ([], seen)) as [new seen']. cbn [fst snd].
  unfold accept. by destruct (decide (x ∈ seen')).
Qed.

(** The new URLs in closed form: drop the URLs already seen, then keep the
    first occurrence of each ([remove_dups] keeps the last one, hence the
    two reversals). *)
Lemma filter_new_closed (l : list string) (seen : gset string) :
  (filter_new l seen).1 =
    reverse (remove_dups (reverse (filter (fun u => u ∉ seen) l))).
Proof.
  induction l as [|x l IH] using rev_ind; [done|].
  rewrite filter_new_snoc, filter_new_seen, filter_app.
  destruct (decide (x ∈ seen)) as [Hseen|Hseen].
  - assert (filter (fun u => u ∉ seen) [x] = []) as ->.
    { rewrite filter_cons. by destruct (decide (x ∉ seen)). }
    rewrite app_nil_r.
    by destruct (decide (x ∈ list_to_set l ∪ seen)) as [_|[]];
      [|apply elem_of_union_r].
  - assert (filter (fun u => u ∉ seen) [x] = [x]) as ->.
    { rewrite filter_cons. by destruct (decide (x ∉ seen)). }
    rewrite reverse_snoc. cbn [remove_dups].
    destruct (decide (x ∈ l)) as [Hl|Hl].
    + destruct (decide (x ∈ list_to_set l ∪ seen)) as [_|[]];
        [|by apply elem_of_union_l, elem_of_list_to_set].
      destruct (decide_rel elem_of x _) as [_|Hn]; [done|].
      destruct Hn. by apply elem_of_reverse, list_elem_of_filter.
    + destruct (decide (x ∈ list_to_set l ∪ seen)) as [H|_].
      { apply elem_of_union in H as [H|H];
          [by apply elem_of_list_to_set in H | done]. }
      destruct (decide_rel elem_of x _) as [Hin|_].
      * apply elem_of_reverse, list_elem_of_filter in Hin as [_ Hin]. done.
      * cbn [fst]. by rewrite reverse_cons, IH.
Qed.

(** X3: the de-duplication pass keeps, in their order, the first
    occurrence of each URL not seen before and records every URL of the
    overview as seen; passing the same overview again yields nothing new
    and leaves the index as it is. In closed form, the new URLs are the
    overview without the URLs seen before and without every occurrence of
    a URL but its first; a URL added at the end of the overview goes, if
    new, to the end of the new URLs and moves nothing before it. *)
Theorem filter_new_first_occurrences (articles_overview : list string)
    (seen : gset string) :
  let new := (filter_new articles_overview seen).1 in
  let seen' := (filter_new articles_overview seen).2 in
  new `sublist_of` articles_overview /\
  NoDup new /\
  (forall u, u ∈ new <-> u ∈ articles_overview /\ u ∉ seen) /\
  seen' = list_to_set articles_overview ∪ seen /\
  filter_new articles_overview seen' = ([], seen') /\
  new = reverse (remove_dups (reverse
          (filter (fun u => u ∉ seen) articles_overview))) /\
  (forall u,
     (filter_new (articles_overview ++ [u]) seen).1 =
       if decide (u ∈ articles_overview \/ u ∈ seen) then new
       else new ++ [u]).
Proof.
  cbn zeta.
  split; [|split; [|split; [|split; [|split; [|split]]]]].
  6: apply filter_new_closed.
  6:{ intros u. rewrite filter_new_snoc, filter_new_seen.
      destruct (decide (u ∈ list_to_set articles_overview ∪ seen)) as [Hu|Hu];
        destruct (decide (u ∈ articles_overview \/ u ∈ seen)) as [Hv|Hv];
        try done; exfalso.
      - apply Hv. apply elem_of_union in Hu as [Hu|Hu]; [left|by right].
        by apply elem_of_list_to_set in Hu.
      - apply Hu. destruct Hv as [Hv|Hv]; [apply elem_of_union_l|
          by apply elem_of_union_r]. by apply elem_of_list_to_set. }
  all: unfold filter_new;
    destruct (filter_new_fold_stable articles_overview [] seen)
      as (new & -> & Hsub & Hnd & Hin);
    cbn [fst snd app]; try done.
  destruct (filter_new_fold_stable articles_overview []
              (list_to_set articles_overview ∪ seen)) as (new2 & -> & _ & _ & Hin2).
  cbn [app]. f_equal.
  - destruct new2 as [|u new2]; [done|]. exfalso.
    destruct (Hin2 u) as [H _]. destruct (H (list_elem_of_here _ _)) as [Hu Hnu].
    apply Hnu, elem_of_union_l. by apply elem_of_list_to_set.
  - apply set_eq. intros x. rewrite !elem_of_union. tauto.
Qed.
End DedupMore.

Section BatchMore.
Import Dergipark.
Context {Payload : Type}.
Variable scrape_single : string -> string -> option Payload.
Variable loop_raises : list string -> bool.
Variable article_urls_of : string -> list string.
Variable num_processes : Z.
Variable batch_save_size : nat.
Hypothesis processes_pos : (1 <= num_processes)%Z.
Hypothesis batch_pos : (0 < batch_save_size)%nat.

Lemma full_batches_app (log1 log2 : list (PEvent Payload)) :
  Crawl.full_batches batch_save_size log1 ->
  Crawl.full_batches batch_save_size log2 ->
  Crawl.full_batches batch_save_size (log1 ++ log2).
Proof. unfold Crawl.full_batches. intros H1 H2. by apply Forall_app. Qed.

Lemma maybe_flush_bound (batch : list (ArticleData Payload)) log :
  Crawl.full_batches batch_save_size log ->
  exists batch' log',
    maybe_flush batch_save_size batch log = Ok (batch', log') /\
    (length batch' < batch_save_size)%nat /\
    Crawl.full_batches batch_save_size log'.
Proof.
  intros Hlog. unfold maybe_flush.
  destruct (decide (batch_save_size <= length batch)%nat) as [Hge|Hlt].
  - rewrite decide_False by lia. eexists _, _. split; [done|].
    split; [simpl; lia|].
    assert (Hone : Crawl.full_batches batch_save_size (log ++ [SaveBatch batch])).
    { apply full_batches_app; [done|]. by repeat constructor. }
    destruct (decide _); [|done].
    apply full_batches_app; [done|]. by repeat constructor.
  - exists batch, log. split; [done|]. split; [lia | done].
Qed.

(** X4: between journals the in-memory batch always holds fewer than
    [batch_save_size] records, and every batch saved in the loop held at
    least [batch_save_size]; the final save adds at most one batch, a
    non-empty one of fewer than [batch_save_size] records. *)
Theorem batch_stays_below_threshold (journals : list Journal) :
  exists s : @CollectState Payload,
    fold_left
      (collect_journal scrape_single loop_raises article_urls_of num_processes
         batch_save_size) journals (Ok (mkState ∅ [] [])) = Ok s /\
    (length (all_articles_data s) < batch_save_size)%nat /\
    Crawl.full_batches batch_save_size (log s) /\
    (final_save s = log s \/
     final_save s = log s ++ [SaveBatch (all_articles_data s)] /\
     all_articles_data s <> []).
Proof.
  assert (Hloop : forall js (s0 : @CollectState Payload),
    (length (all_articles_data s0) < batch_save_size)%nat ->
    Crawl.full_batches batch_save_size (log s0) ->
    exists s,
      fold_left
        (collect_journal scrape_single loop_raises article_urls_of num_processes
           batch_save_size) js (Ok s0) = Ok s /\
      (length (all_articles_data s) < batch_save_size)%nat /\
      Crawl.full_batches batch_save_size (log s)).
  { induction js as [|j js IH]; intros s0 Hlen Hlog; cbn [fold_left].
    - by exists s0.
    - unfold collect_journal at 2. cbn [bind].
      destruct (filter_new (article_urls_of (journal_slug j)) (seen_article_urls s0))
        as [new seen'].
      destruct (truthy new).
      + destruct (hybrid_urls_sublist scrape_single loop_raises num_processes
                    processes_pos new (journal_slug j)) as (records & -> & _).
        cbn [bind].
        destruct (maybe_flush_bound (all_articles_data s0 ++ records) (log s0) Hlog)
          as (batch' & log' & -> & Hlen' & Hlog').
        cbn [bind fst snd]. by apply IH.
      + by apply IH. }
  destruct (Hloop journals (mkState ∅ [] [])) as (s & Hs & Hlen & Hlog).
  { simpl. lia. } { constructor. }
  exists s. split; [done|]. split; [done|]. split; [done|].
  unfold final_save. destruct (all_articles_data s) eqn:E; [by left|].
  right. by split.
Qed.
End BatchMore.

Lemma batch_stays_below_threshold_witness :
  (1 <= 2)%Z /\ (0 < 2)%nat /\
  exists s,
    fold_left
      (Dergipark.collect_journal (Payload := nat) (fun _ _ => Some 0%nat)
         (fun _ => false) (fun _ => ["u1"; "u2"; "u3"]%string) 2 2)
      [Dergipark.mkJournal "j1" "J1" "/pub/j1"]
      (Ok (Dergipark.mkState ∅ [] [])) = Ok s /\
    (length (Dergipark.all_articles_data s) < 2)%nat.
Proof.
  split; [lia|]. split; [lia|].
  destruct (batch_stays_below_threshold (Payload := nat) (fun _ _ => Some 0%nat)
              (fun _ => false) (fun _ => ["u1"; "u2"; "u3"]%string) 2 2
              ltac:(lia) ltac:(lia) [Dergipark.mkJournal "j1" "J1" "/pub/j1"])
    as (s & Hs & Hlen & _).
  exists s. split; [exact Hs | exact Hlen].
Defined.

(** ** What a DergiPark run persists *)

Section FirstOffers.
Context {A : Type}.
Variable identity : A -> string.

Lemma first_offers_app (seen : gset string) (l1 l2 : list A) :
  Crawl.first_offers identity seen (l1 ++ l2) =
    Crawl.first_offers identity seen l1 ++
    Crawl.first_offers identity (list_to_set (map identity l1) ∪ seen) l2.
Proof.
  revert seen. induction l1 as [|o l1 IH]; intros seen; cbn [app map].
  - cbn [Crawl.first_offers app].
    replace (list_to_set [] ∪ seen) with seen; [done|].
    apply set_eq. intros x. rewrite elem_of_union. simpl.
    split; [by right | intros [H|H]; [by apply not_elem_of_empty in H | done]].
  - cbn [Crawl.first_offers]. destruct (decide (identity o ∈ seen)) as [Ho|Ho].
    + rewrite IH.
      replace (list_to_set (identity o :: map identity l1) ∪ seen)
        with (list_to_set (map identity l1) ∪ seen); [done|].
      apply set_eq. intros x. simpl.
      rewrite !elem_of_union, elem_of_singleton.
      split; [tauto|]. intros [[->|H]|H]; auto.
    + rewrite IH. cbn [app].
      replace (list_to_set (identity o :: map identity l1) ∪ seen)
        with (list_to_set (map identity l1) ∪ ({[identity o]} ∪ seen)); [done|].
      apply set_eq. intros x. simpl.
      rewrite !elem_of_union, elem_of_singleton. tauto.
Qed.

Lemma first_offers_keys (seen : gset string) (l : list A) :
  NoDup (map identity (Crawl.first_offers identity seen l)) /\
  (forall o, o ∈ Crawl.first_offers identity seen l ->
     o ∈ l /\ identity o ∉ seen) /\
  (forall o, o ∈ l -> identity o ∉ seen ->
     identity o ∈ map identity (Crawl.first_offers identity seen l)).
Proof.
  revert seen. induction l as [|o l IH]; intros seen; cbn [Crawl.first_offers].
  - split; [constructor|]. split; intros o Ho; by apply not_elem_of_nil in Ho.
  - destruct (decide (identity o ∈ seen)) as [Hseen|Hseen].
    + destruct (IH seen) as (Hnd & Hin & Hall). split; [done|]. split.
      * intros o' Ho'. destruct (Hin o' Ho'). split; [|done].
        by apply list_elem_of_further.
      * intros o' Ho' Hnew. apply elem_of_cons in Ho' as [->|Ho']; [done|].
        by apply Hall.
    + destruct (IH ({[identity o]} ∪ seen)) as (Hnd & Hin & Hall).
      cbn [map]. split; [|split].
      * constructor; [|done]. intros Ho.
        apply elem_of_map in Ho as (o' & Heq & Ho').
        destruct (Hin o' Ho') as [_ Hn]. apply Hn.
        rewrite <- Heq. by apply elem_of_union_l, elem_of_singleton.
      * intros o' Ho'. apply elem_of_cons in Ho' as [->|Ho'].
        { split; [apply list_elem_of_here | done]. }
        destruct (Hin o' Ho') as [Hl Hn]. split; [by apply list_elem_of_further|].
        intros Hs. apply Hn. by apply elem_of_union_r.
      * intros o' Ho' Hnew.
        destruct (decide (identity o' = identity o)) as [->|Hne];
          [apply list_elem_of_here|].
        apply list_elem_of_further.
        apply elem_of_cons in Ho' as [->|Ho']; [done|].
        apply Hall; [done|].
        rewrite elem_of_union, elem_of_singleton. by intros [?|?].
Qed.
End FirstOffers.

Lemma first_offers_pairs (slug : string) (seen : gset string) (l : list string) :
  Crawl.first_offers fst seen (map (fun u => (u, slug)) l) =
    map (fun u => (u, slug)) (Crawl.first_offers id seen l).
Proof.
  revert seen. induction l as [|u l IH]; intros seen; [done|].
  cbn [map Crawl.first_offers fst id].
  destruct (decide (u ∈ seen)); [apply IH|]. cbn [map]. f_equal. apply IH.
Qed.

Lemma filter_new_first_offers (l : list string) (seen : gset string) :
  Dergipark.filter_new l seen =
    (Crawl.first_offers id seen l, list_to_set l ∪ seen).
Proof.
  unfold Dergipark.filter_new.
  assert (H : forall acc,
    fold_left
      (fun '(new_article_urls, seen) u =>
         let '(fresh, seen') := Dergipark.accept seen u in
         (if fresh then new_article_urls ++ [u] else new_article_urls, seen'))
      l (acc, seen) = (acc ++ Crawl.first_offers id seen l, list_to_set l ∪ seen)).
  { revert seen. induction l as [|u l IH]; intros seen acc; cbn [fold_left].
    - rewrite app_nil_r. f_equal. apply set_eq. intros x. rewrite elem_of_union.
      simpl. split; [by right|].
      intros [H|H]; [by apply not_elem_of_empty in H | done].
    - cbn [Crawl.first_offers id].
      destruct (decide (u ∈ seen)) as [Hu|Hu].
      + rewrite (accept_known _ _ Hu), IH. f_equal.
        apply set_eq. intros x. simpl.
        rewrite !elem_of_union, elem_of_singleton.
        split; [tauto|]. intros [[->|H]|H]; auto.
      + rewrite (accept_fresh _ _ Hu), IH, <- app_assoc. f_equal.
        apply set_eq. intros x. simpl.
        rewrite !elem_of_union, elem_of_singleton. tauto. }
  apply (H []).
Qed.

Section RunRecords.
Import Dergipark.
Context {Payload : Type}.
Variable scrape_single : string -> string -> option Payload.
Variable loop_raises : list string -> bool.
Variable article_urls_of : string -> list string.
Variable num_processes : Z.
Variable batch_save_size : nat.
Hypothesis processes_pos : (1 <= num_processes)%Z.
Hypothesis batch_pos : (0 < batch_save_size)%nat.

Lemma records_of_pairs (slug : string) (l : list string) :
  omap (Crawl.record_of scrape_single) (map (fun u => (u, slug)) l) =
    process_article_chunk_async_standalone scrape_single l slug.
Proof.
  unfold process_article_chunk_async_standalone.
  induction l as [|u l IH]; [done|]. cbn [map omap list_omap].
  unfold Crawl.record_of at 1. cbn [fst snd].
  destruct (scrape_single u slug); cbn; by rewrite <- IH.
Qed.

Lemma record_of_url (o : string * string) (r : ArticleData Payload) :
  Crawl.record_of scrape_single o = Some r -> url r = o.1.
Proof.
  unfold Crawl.record_of. destruct (scrape_single o.1 o.2); [|done].
  by intros [= <-].
Qed.

(** Among the records of offers with distinct identities, an offer has one
    copy if it was fetched and parsed, none otherwise. *)
Lemma copies_of_offers (accepted : list (string * string)) (o : string * string) :
  NoDup (map fst accepted) -> o ∈ accepted ->
  Crawl.copies o.1 (omap (Crawl.record_of scrape_single) accepted) =
    if scrape_single o.1 o.2 is Some _ then 1%nat else 0%nat.
Proof.
  assert (Hnone : forall l u, u ∉ map fst l ->
    Crawl.copies u (omap (Crawl.record_of scrape_single) l) = 0%nat).
  { intros l u Hu. unfold Crawl.copies.
    destruct (filter _ _) as [|r rest] eqn:Hf; [done|]. exfalso.
    assert (Hr : r ∈ filter (fun r => url r = u)
                   (omap (Crawl.record_of scrape_single) l))
      by (rewrite Hf; apply list_elem_of_here).
    apply list_elem_of_filter in Hr as [Hurl Hr].
    apply list_elem_of_omap in Hr as (o' & Ho' & Hrec).
    apply record_of_url in Hrec. apply Hu. rewrite <- Hurl, Hrec.
    by apply (elem_of_map_intro fst). }
  induction accepted as [|o' accepted IH]; intros Hnd Ho;
    [by apply not_elem_of_nil in Ho|].
  cbn [map] in Hnd. apply NoDup_cons in Hnd as [Ho' Hnd].
  cbn [omap list_omap]. apply elem_of_cons in Ho as [->|Ho].
  - destruct (Crawl.record_of scrape_single o') as [r|] eqn:Hrec.
    + pose proof (record_of_url _ _ Hrec) as Hurl.
      unfold Crawl.record_of in Hrec.
      destruct (scrape_single o'.1 o'.2); [|done].
      pose proof (Hnone accepted o'.1 Ho') as Hrest.
      unfold Crawl.copies in *. rewrite filter_cons, decide_True by done.
      cbn [length]. by rewrite Hrest.
    + unfold Crawl.record_of in Hrec.
      destruct (scrape_single o'.1 o'.2); [done|]. by apply Hnone.
  - assert (Hne : o'.1 <> o.1).
    { intros Heq. apply Ho'. rewrite Heq. by apply (elem_of_map_intro fst). }
    destruct (Crawl.record_of scrape_single o') as [r|] eqn:Hrec;
      [|by apply IH].
    unfold Crawl.copies in *. rewrite filter_cons.
    rewrite decide_False; [by apply IH|].
    by rewrite (record_of_url _ _ Hrec).
Qed.

(** The size check, in full. *)
Lemma maybe_flush_step (batch : list (ArticleData Payload)) log :
  exists batch' log',
    maybe_flush batch_save_size batch log = Ok (batch', log') /\
    persisted log' ++ batch' = persisted log ++ batch /\
    (length batch' < batch_save_size)%nat /\
    (Crawl.full_batches batch_save_size log ->
     Crawl.full_batches batch_save_size log').
Proof.
  destruct (maybe_flush_held batch_save_size batch_pos batch log)
    as (batch' & log' & Hflush & Hheld).
  exists batch', log'. split; [done|]. split; [done|].
  assert (Hb : Crawl.full_batches batch_save_size log ->
               (length batch' < batch_save_size)%nat /\
               Crawl.full_batches batch_save_size log').
  { intros Hlog.
    destruct (maybe_flush_bound batch_save_size batch_pos batch log Hlog)
      as (b2 & l2 & H2 & Hlen & Hfull).
    rewrite Hflush in H2. by injection H2 as <- <-. }
  split; [|by intros Hlog; apply Hb].
  unfold maybe_flush in Hflush.
  destruct (decide (batch_save_size <= length batch)%nat).
  - destruct (decide (batch_save_size * 10 = 0)%nat); [done|].
    injection Hflush as <- _. simpl. lia.
  - injection Hflush as <- _. lia.
Qed.

(** One journal of the run: the URLs that are new are scraped, and the
    size check is applied to the accumulation with their records. *)
Lemma collect_journal_flushes (s : @CollectState Payload) (j : Journal) :
  (length (all_articles_data s) < batch_save_size)%nat ->
  exists s' records,
    collect_journal scrape_single loop_raises article_urls_of num_processes
      batch_save_size (Ok s) j = Ok s' /\
    hybrid_scrape_articles scrape_single loop_raises num_processes
      (filter_new (article_urls_of (journal_slug j)) (seen_article_urls s)).1
      (journal_slug j) = Ok records /\
    maybe_flush batch_save_size (all_articles_data s ++ records) (log s) =
      Ok (all_articles_data s', log s') /\
    seen_article_urls s' =
      (filter_new (article_urls_of (journal_slug j)) (seen_article_urls s)).2.
Proof.
  intros Hlen. unfold collect_journal. cbn [bind].
  destruct (filter_new (article_urls_of (journal_slug j)) (seen_article_urls s))
    as [new seen']. cbn [fst snd].
  destruct (truthy new) eqn:Hnew.
  - destruct (hybrid_urls_sublist scrape_single loop_raises num_processes
                processes_pos new (journal_slug j)) as (records & -> & _).
    cbn [bind].
    destruct (maybe_flush_step (all_articles_data s ++ records) (log s))
      as (batch' & log' & Hflush & _).
    rewrite Hflush. cbn [bind fst snd].
    exists (mkState seen' batch' log'), records. by repeat split.
  - destruct new; [|done].
    exists (mkState seen' (all_articles_data s) (log s)), [].
    split; [done|]. split; [done|].
    rewrite app_nil_r. cbn [all_articles_data log seen_article_urls].
    split; [|done].
    by destruct (maybe_flush_spec batch_save_size batch_pos
                   (all_articles_data s) (log s)) as [_ ->].
Qed.

(** The loop over the journals: what it adds to the records held are the
    records of the first offers, and the batch stays below the threshold. *)
Lemma collect_loop_records (journals : list Journal) (s : @CollectState Payload) :
  (length (all_articles_data s) < batch_save_size)%nat ->
  Crawl.full_batches batch_save_size (log s) ->
  exists s' added,
    fold_left
      (collect_journal scrape_single loop_raises article_urls_of num_processes
         batch_save_size) journals (Ok s) = Ok s' /\
    held s' = held s ++ added /\
    added `sublist_of`
      omap (Crawl.record_of scrape_single)
        (Crawl.first_offers fst (seen_article_urls s)
           (Crawl.offers article_urls_of journals)) /\
    ((forall chunk, loop_raises chunk = false) ->
     added =
       omap (Crawl.record_of scrape_single)
         (Crawl.first_offers fst (seen_article_urls s)
            (Crawl.offers article_urls_of journals))) /\
    (length (all_articles_data s') < batch_save_size)%nat /\
    Crawl.full_batches batch_save_size (log s').
Proof.
  revert s. induction journals as [|j journals IH]; intros s Hlen Hlog;
    cbn [fold_left].
  - exists s, []. rewrite app_nil_r. by repeat split.
  - unfold Crawl.offers. cbn [flat_map]. fold (Crawl.offers article_urls_of journals).
    rewrite first_offers_app, first_offers_pairs, omap_app, records_of_pairs.
    rewrite map_map. cbn [fst]. rewrite map_id.
    unfold collect_journal at 2. cbn [bind].
    rewrite filter_new_first_offers.
    set (new := Crawl.first_offers id (seen_article_urls s)
                  (article_urls_of (journal_slug j))).
    set (seen' := list_to_set (article_urls_of (journal_slug j))
                    ∪ seen_article_urls s).
    destruct (truthy new) eqn:Hnew.
    + destruct (hybrid_records scrape_single loop_raises num_processes
                  processes_pos new (journal_slug j))
        as (records & -> & Hsub & _ & Heq).
      cbn [bind].
      destruct (maybe_flush_step (all_articles_data s ++ records) (log s))
        as (batch' & log' & -> & Hheld & Hlen' & Hlog').
      cbn [bind fst snd].
      destruct (IH (mkState seen' batch' log') Hlen' (Hlog' Hlog))
        as (s' & added & -> & Hh & Hs & He & Hl & Hf).
      exists s', (records ++ added). split; [done|]. split; [|split; [|split]].
      * rewrite Hh. unfold held at 1. cbn [log all_articles_data].
        rewrite Hheld. unfold held. by rewrite !app_assoc.
      * by apply sublist_app.
      * intros Hloops. by rewrite (Heq Hloops), (He Hloops).
      * done.
    + destruct new eqn:Hempty; [|done].
      destruct (IH (mkState seen' (all_articles_data s) (log s)) Hlen Hlog)
        as (s' & added & -> & Hh & Hs & He & Hl & Hf).
      exists s', added. split; [done|].
      unfold process_article_chunk_async_standalone. cbn [omap list_omap app].
      by repeat split.
Qed.

Abbreviation run :=
  (collect_all_dergipark_data_HYBRID scrape_single loop_raises article_urls_of
     num_processes batch_save_size).

(** The whole run, from the first journal to the final save. *)
Lemma collect_all_records (journals : list Journal) :
  exists s : @CollectState Payload,
    fold_left
      (collect_journal scrape_single loop_raises article_urls_of num_processes
         batch_save_size) journals (Ok (mkState ∅ [] [])) = Ok s /\
    run journals = Ok (final_save s) /\
    persisted (final_save s) = held s /\
    NoDup (map url (held s)) /\
    held s `sublist_of`
      Crawl.expected_records scrape_single article_urls_of journals /\
    ((forall chunk, loop_raises chunk = false) ->
     held s = Crawl.expected_records scrape_single article_urls_of journals) /\
    (length (all_articles_data s) < batch_save_size)%nat /\
    Crawl.full_batches batch_save_size (log s).
Proof.
  destruct (collect_loop_records journals (mkState ∅ [] []))
    as (s & added & Hs & Hh & Hsub & Heq & Hlen & Hfull).
  { simpl. lia. } { constructor. }
  destruct (collect_all_spec scrape_single loop_raises article_urls_of
              num_processes batch_save_size processes_pos batch_pos journals)
    as (s2 & Hs2 & Hrun & [Hnd _]).
  rewrite Hs in Hs2. injection Hs2 as <-.
  exists s. split; [done|]. split; [done|].
  split; [by destruct (final_save_spec batch_save_size batch_pos s)|]. split; [done|].
  assert (Hadded : held s = added) by (by rewrite Hh).
  rewrite Hadded. by repeat split.
Qed.

(** C4, amended: a fresh identity is accepted and, offered again,
    rejected; a second offer is rejected whatever came before and leaves
    the index as it was. The run ends normally, and what it hands to
    [save_batch] holds no URL twice and nothing but records of first
    offers, in their order. When no worker loop raises it holds exactly
    these: one copy of every URL offered whose page was fetched and parsed
    under the journal that offered it first, and none of a URL whose fetch
    failed, which is not offered again. *)
Theorem dedup_one_copy_per_identity :
  (forall seen u, u ∉ seen ->
     (accept seen u).1 = true /\ (accept (accept seen u).2 u).1 = false) /\
  (forall seen u, accept (accept seen u).2 u = (false, (accept seen u).2)) /\
  (forall journals, exists log,
     run journals = Ok log /\
     NoDup (map url (persisted log)) /\
     persisted log `sublist_of`
       Crawl.expected_records scrape_single article_urls_of journals /\
     ((forall chunk, loop_raises chunk = false) ->
      persisted log =
        Crawl.expected_records scrape_single article_urls_of journals /\
      forall j u, j ∈ journals -> u ∈ article_urls_of (journal_slug j) ->
        exists slug,
          (u, slug) ∈ Crawl.first_offers fst ∅
                        (Crawl.offers article_urls_of journals) /\
          Crawl.copies u (persisted log) =
            if scrape_single u slug is Some _ then 1%nat else 0%nat)).
Proof.
  split; [|split].
  - intros seen u Hu. rewrite (accept_fresh _ _ Hu). cbn [fst snd].
    split; [done|]. rewrite accept_known; [done|].
    by apply elem_of_union_l, elem_of_singleton.
  - intros seen u. destruct (decide (u ∈ seen)) as [Hu|Hu].
    + rewrite (accept_known _ _ Hu). cbn [snd]. by apply accept_known.
    + rewrite (accept_fresh _ _ Hu). cbn [snd]. apply accept_known.
      by apply elem_of_union_l, elem_of_singleton.
  - intros journals.
    destruct (collect_all_records journals)
      as (s & _ & -> & Hp & Hnd & Hsub & Heq & _).
    eexists; split; [done|]. rewrite Hp. split; [done|]. split; [done|].
    intros Hloops. split; [by apply Heq|].
    intros j u Hj Hu. rewrite (Heq Hloops). unfold Crawl.expected_records.
    destruct (first_offers_keys fst ∅ (Crawl.offers article_urls_of journals))
      as (Hkeys & _ & Hall).
    assert (Hoffer : (u, journal_slug j) ∈ Crawl.offers article_urls_of journals).
    { unfold Crawl.offers. apply list_elem_of_In, in_flat_map.
      exists j. split; [by apply list_elem_of_In|].
      apply list_elem_of_In.
      by apply (elem_of_map_intro (fun u => (u, journal_slug j))). }
    specialize (Hall _ Hoffer ltac:(by intros ?%not_elem_of_empty)).
    apply elem_of_map in Hall as ([u' slug] & Hfst & Ho). cbn [fst] in Hfst.
    subst u'. exists slug. split; [done|].
    by apply (copies_of_offers _ (u, slug)).
Qed.

(** C5: at or above [batch_save_size] records the size check makes
    exactly one [save_batch] call, with the whole accumulation, and empties
    the in-memory batch; below it nothing is saved and the batch is kept.
    In the run the check is applied after every journal to the
    accumulation with that journal's records, so that the batch in memory
    is below the threshold between journals and no batch saved in the loop
    is; the final save writes what is left as one batch, and at the end
    of the run every record collected has been handed to [save_batch]: all
    records of first offers when no worker loop raises. *)
Theorem batch_flush_boundary :
  (forall batch (log : list (PEvent Payload)),
     (batch_save_size <= length batch)%nat ->
     exists log',
       maybe_flush batch_save_size batch log = Ok ([], log') /\
       (log' = log ++ [SaveBatch batch] \/
        log' = log ++ [SaveBatch batch; CreateBackup]) /\
       flushes log' = S (flushes log) /\
       persisted log' = persisted log ++ batch) /\
  (forall batch (log : list (PEvent Payload)),
     (length batch < batch_save_size)%nat ->
     maybe_flush batch_save_size batch log = Ok (batch, log)) /\
  (forall (s : @CollectState Payload) j,
     (length (all_articles_data s) < batch_save_size)%nat ->
     exists s' records,
       collect_journal scrape_single loop_raises article_urls_of num_processes
         batch_save_size (Ok s) j = Ok s' /\
       hybrid_scrape_articles scrape_single loop_raises num_processes
         (filter_new (article_urls_of (journal_slug j)) (seen_article_urls s)).1
         (journal_slug j) = Ok records /\
       maybe_flush batch_save_size (all_articles_data s ++ records) (log s) =
         Ok (all_articles_data s', log s')) /\
  (forall journals, exists s : @CollectState Payload,
     fold_left
       (collect_journal scrape_single loop_raises article_urls_of num_processes
          batch_save_size) journals (Ok (mkState ∅ [] [])) = Ok s /\
     run journals = Ok (final_save s) /\
     (length (all_articles_data s) < batch_save_size)%nat /\
     Crawl.full_batches batch_save_size (log s) /\
     (final_save s = log s /\ all_articles_data s = [] \/
      final_save s = log s ++ [SaveBatch (all_articles_data s)] /\
      all_articles_data s <> []) /\
     persisted (final_save s) = persisted (log s) ++ all_articles_data s /\
     persisted (final_save s) `sublist_of`
       Crawl.expected_records scrape_single article_urls_of journals /\
     ((forall chunk, loop_raises chunk = false) ->
      persisted (final_save s) =
        Crawl.expected_records scrape_single article_urls_of journals)).
Proof.
  split; [|split; [|split]].
  - intros batch log Hlen.
    destruct (maybe_flush_spec batch_save_size batch_pos batch log) as [Hge _].
    destruct (Hge Hlen) as (log' & Hflush & Hcount & Hp).
    exists log'. split; [done|]. split; [|done].
    unfold maybe_flush in Hflush. rewrite decide_True in Hflush by done.
    destruct (decide (batch_save_size * 10 = 0)%nat); [done|].
    injection Hflush as <-.
    destruct (decide _); [right; by rewrite <- app_assoc | by left].
  - intros batch log Hlen.
    by destruct (maybe_flush_spec batch_save_size batch_pos batch log) as [_ ->].
  - intros s j Hlen.
    destruct (collect_journal_flushes s j Hlen) as (s' & records & H1 & H2 & H3 & _).
    by exists s', records.
  - intros journals.
    destruct (collect_all_records journals)
      as (s & Hs & Hrun & Hp & _ & Hsub & Heq & Hlen & Hfull).
    exists s. split; [done|]. split; [done|]. split; [done|]. split; [done|].
    split; [|rewrite Hp; by repeat split].
    unfold final_save. destruct (all_articles_data s) eqn:E; [by left|].
    right. by split.
Qed.
End RunRecords.

Lemma dedup_one_copy_per_identity_witness :
  (1 <= 2)%Z /\ (0 < 2)%nat /\
  exists log,
    Dergipark.collect_all_dergipark_data_HYBRID (Payload := nat)
      (fun u _ => if String.eqb u "u2" then None else Some 0%nat)
      (fun _ => false)
      (fun _ => ["u1"; "u2"; "u1"]%string) 2 2
      [Dergipark.mkJournal "j1" "J1" "/pub/j1";
       Dergipark.mkJournal "j2" "J2" "/pub/j2"] = Ok log /\
    Dergipark.persisted log = [Dergipark.mkArticle "j1" "u1" 0%nat].
Proof.
  split; [lia|]. split; [lia|].
  destruct (dedup_one_copy_per_identity (Payload := nat)
              (fun u _ => if String.eqb u "u2" then None else Some 0%nat)
              (fun _ => false)
              (fun _ => ["u1"; "u2"; "u1"]%string) 2 2 ltac:(lia) ltac:(lia))
    as (_ & _ & Hrun).
  destruct (Hrun [Dergipark.mkJournal "j1" "J1" "/pub/j1";
                  Dergipark.mkJournal "j2" "J2" "/pub/j2"])
    as (log & Hlog & _ & _ & Hexact).
  exists log. split; [exact Hlog|].
  destruct (Hexact ltac:(done)) as [-> _]. vm_compute. reflexivity.
Defined.

(** C4, as stated, fails: a URL that the index accepts and whose page
    cannot be fetched has no copy in the persisted output, and the index
    keeps it from being offered again. *)
Lemma one_copy_counterexample : ~ Crawl.exactly_one_copy_claim.
Proof.
  intros Hclaim.
  specialize (Hclaim unit (fun _ _ => None) (fun _ => false)
                (fun _ => ["u1"%string]) 1%Z 1%nat
                [Dergipark.mkJournal "j1" "J1" "/pub/j1"] []
                (Dergipark.mkJournal "j1" "J1" "/pub/j1") "u1"%string
                ltac:(lia) ltac:(lia)).
  assert (Hrun :
    Dergipark.collect_all_dergipark_data_HYBRID (Payload := unit)
      (fun _ _ => None) (fun _ => false) (fun _ => ["u1"%string]) 1 1
      [Dergipark.mkJournal "j1" "J1" "/pub/j1"] = Ok []).
  { vm_compute. reflexivity. }
  specialize (Hclaim Hrun (list_elem_of_here _ _) (list_elem_of_here _ _)).
  discriminate Hclaim.
Qed.

Lemma batch_flush_boundary_witness :
  (1 <= 2)%Z /\ (0 < 2)%nat /\
  exists log',
    Dergipark.maybe_flush (Payload := nat) 2
      [Dergipark.mkArticle "j1" "u1" 0%nat; Dergipark.mkArticle "j1" "u2" 0%nat;
       Dergipark.mkArticle "j1" "u3" 0%nat] []
      = Ok ([], log') /\
    Dergipark.persisted log' =
      [Dergipark.mkArticle "j1" "u1" 0%nat; Dergipark.mkArticle "j1" "u2" 0%nat;
       Dergipark.mkArticle "j1" "u3" 0%nat].
Proof.
  split; [lia|]. split; [lia|].
  destruct (batch_flush_boundary (Payload := nat)
              (fun _ _ => Some 0%nat) (fun _ => false)
              (fun _ => ["u1"]%string) 2 2 ltac:(lia) ltac:(lia))
    as (Hflush & _).
  destruct (Hflush [Dergipark.mkArticle "j1" "u1" 0%nat;
                    Dergipark.mkArticle "j1" "u2" 0%nat;
                    Dergipark.mkArticle "j1" "u3" 0%nat] [] ltac:(simpl; lia))
    as (log' & Hm & _ & _ & Hp).
  exists log'. split; [exact Hm | exact Hp].
Defined.

(** ** More on the year-sharded crawl *)

Lemma slices_negative {A : Type} (l : list A) (step : Z) :
  (step < 0)%Z -> slices l step = Ok [].
Proof.
  intros Hs. unfold slices, range.
  destruct (step =? 0)%Z eqn:E; [lia|]. unfold range_len.
  destruct (Z.ltb_spec 0 step); [lia|].
  destruct (Z.ltb_spec step 0); [|lia].
  destruct (Z.ltb_spec (len l) 0); [unfold len in *; lia|]. reflexivity.
Qed.

Lemma slices_chunk_length {A : Type} (l : list A) (step : Z) chunks :
  slices l step = Ok chunks ->
  Forall (fun c => (length c <= Z.to_nat step)%nat) chunks.
Proof.
  intros Hsl. destruct (Z.lt_trichotomy step 0) as [Hs|[->|Hs]].
  - rewrite slices_negative in Hsl by done. injection Hsl as <-. constructor.
  - by rewrite slices_zero in Hsl.
  - apply Forall_lookup. intros k c Hk.
    destruct (slices_lookup _ _ _ _ _ Hs Hsl Hk) as [-> _].
    rewrite length_take. lia.
Qed.

Section ByYearMore.
Import YokTez.
Context {T : Type}.
Variable new_context_ok : nat -> nat -> bool.
Variable close_ok : nat -> nat -> bool.
Variable single_year : Z -> result (list T).
Variable schedule : nat -> list BEvent -> list BEvent.
Variable extract_pdfs : bool.
Variable pdf_pass : list T -> result (list T).
Hypothesis schedule_perm : forall b l, schedule b l ≡ₚ l.

Lemma pool_bounded_nil k : Crawl.pool_bounded k [].
Proof.
  intros tr1 tr2 H. symmetry in H. apply app_eq_nil in H as [-> _]. simpl. lia.
Qed.

Lemma pool_bounded_app k tr l :
  Crawl.pool_bounded k tr ->
  (forall l1 l2, l = l1 ++ l2 -> (length (unreleased (tr ++ l1)) <= k)%nat) ->
  Crawl.pool_bounded k (tr ++ l).
Proof.
  intros Htr Hl tr1 tr2 Heq.
  apply app_eq_inv in Heq as [(m & -> & ->)|(m & -> & ->)].
  - by eapply Htr.
  - by eapply Hl.
Qed.

Lemma open_contexts_trace b slots tr :
  exists opened,
    (open_contexts new_context_ok b slots tr).2 = tr ++ map (NewContext b) opened /\
    (length opened <= length slots)%nat /\
    ((open_contexts new_context_ok b slots tr).1 = Ok tt -> opened = slots).
Proof.
  revert tr. induction slots as [|i slots IH]; intros tr; cbn [open_contexts].
  - exists []. rewrite app_nil_r. by split.
  - destruct (new_context_ok b i).
    + destruct (IH (tr ++ [NewContext b i])) as (opened & -> & Hlen & Hall).
      exists (i :: opened). split; [by rewrite <- app_assoc|].
      split; [simpl; lia|]. intros Hok. by rewrite (Hall Hok).
    + exists []. rewrite app_nil_r. split; [done|]. split; [simpl; lia | done].
Qed.

Lemma bounded_opens k b opened tr :
  Crawl.pool_bounded k tr -> unreleased tr = [] -> (length opened <= k)%nat ->
  Crawl.pool_bounded k (tr ++ map (NewContext b) opened).
Proof.
  intros Htr Hnone Hlen. apply pool_bounded_app; [done|].
  intros l1 l2 Heq. apply fmap_app_inv in Heq as (o1 & o2 & -> & -> & ->).
  change (NewContext b <$> o1) with (map (NewContext b) o1).
  rewrite unreleased_opens, Hnone. simpl.
  rewrite length_map. rewrite length_app in Hlen. lia.
Qed.

Lemma bounded_same k tr l :
  Crawl.pool_bounded k tr -> (length (unreleased tr) <= k)%nat ->
  (forall l1 l2, l = l1 ++ l2 -> unreleased (tr ++ l1) = unreleased tr) ->
  Crawl.pool_bounded k (tr ++ l).
Proof.
  intros Htr Hlen Hsame. apply pool_bounded_app; [done|].
  intros l1 l2 Heq. by rewrite (Hsame l1 l2 Heq).
Qed.

Lemma bounded_closes k b closed tr :
  Crawl.pool_bounded k tr -> (length (unreleased tr) <= k)%nat ->
  Crawl.pool_bounded k (tr ++ map (CloseContext b) closed).
Proof.
  intros Htr Hlen. apply pool_bounded_app; [done|].
  intros l1 l2 Heq. apply fmap_app_inv in Heq as (c1 & c2 & -> & -> & ->).
  change (CloseContext b <$> c1) with (map (CloseContext b) c1).
  rewrite unreleased_closes. etrans; [apply length_filter | done].
Qed.

Lemma close_contexts_trace b slots tr :
  exists closed,
    (close_contexts close_ok b slots tr).2 = tr ++ map (CloseContext b) closed /\
    ((close_contexts close_ok b slots tr).1 = Ok tt -> closed = slots).
Proof.
  revert tr. induction slots as [|i slots IH]; intros tr; cbn [close_contexts].
  - exists []. by rewrite app_nil_r.
  - destruct (close_ok b i).
    + destruct (IH (tr ++ [CloseContext b i])) as (closed & -> & Hall).
      exists (i :: closed). split; [by rewrite <- app_assoc|].
      intros Hok. by rewrite (Hall Hok).
    + exists []. by rewrite app_nil_r.
Qed.

Lemma scheduled_tasks b n : Forall is_task (schedule b (task_events b n)).
Proof.
  apply Forall_forall. intros e He.
  rewrite (schedule_perm b (task_events b n)) in He.
  by apply task_events_spec in He as [? _].
Qed.

(** One sub-batch of at most [k] years, started with no context open. *)
Lemma run_batch_bounded k b batch_years all_theses tr :
  (length batch_years <= k)%nat ->
  Crawl.pool_bounded k tr -> unreleased tr = [] ->
  Crawl.pool_bounded k
    (run_batch new_context_ok close_ok single_year schedule
       b batch_years all_theses tr).2 /\
  (forall all',
     (run_batch new_context_ok close_ok single_year schedule
        b batch_years all_theses tr).1 = Ok all' ->
     unreleased
       (run_batch new_context_ok close_ok single_year schedule
          b batch_years all_theses tr).2 = []).
Proof.
  intros Hk Htr Hnone. unfold run_batch.
  set (slots := seq 0 (length batch_years)).
  assert (Hslots : length slots = length batch_years) by apply length_seq.
  destruct (open_contexts_trace b slots tr) as (opened & Htr1 & Hlen1 & Hall1).
  destruct (open_contexts new_context_ok b slots tr) as [[[]|e1] tr1];
    cbn [fst snd] in *; subst tr1.
  2:{ split; [|done]. apply bounded_opens; [done | done | lia]. }
  rewrite (Hall1 eq_refl) in *. clear Hall1 Hlen1 opened.
  assert (Hb1 : Crawl.pool_bounded k (tr ++ map (NewContext b) slots))
    by (apply bounded_opens; [done | done | lia]).
  assert (Hopen1 : unreleased (tr ++ map (NewContext b) slots) = map (pair b) slots)
    by (by rewrite unreleased_opens, Hnone).
  pose proof (scheduled_tasks b (length batch_years)) as Htask.
  set (tr2 := (tr ++ map (NewContext b) slots) ++
              schedule b (task_events b (length batch_years))) in *.
  assert (Hb2 : Crawl.pool_bounded k tr2).
  { apply bounded_same; [done | rewrite Hopen1, length_map; lia |].
    intros l1 l2 Heq. apply unreleased_tasks.
    rewrite Heq in Htask. by apply Forall_app in Htask as [? _]. }
  assert (Hopen2 : unreleased tr2 = map (pair b) slots).
  { subst tr2. by rewrite unreleased_tasks. }
  destruct (close_contexts_trace b slots tr2) as (closed & Htr3 & Hall3).
  destruct (close_contexts close_ok b slots tr2) as [[[]|e3] tr3];
    cbn [fst snd] in *; subst tr3.
  2:{ split; [|done]. apply bounded_closes; [done|].
      rewrite Hopen2, length_map. lia. }
  rewrite (Hall3 eq_refl) in *. clear Hall3 closed.
  assert (Hb3 : Crawl.pool_bounded k (tr2 ++ map (CloseContext b) slots)).
  { apply bounded_closes; [done|]. rewrite Hopen2, length_map. lia. }
  assert (Hnone3 : unreleased (tr2 ++ map (CloseContext b) slots) = [])
    by (by apply unreleased_all_closed).
  destruct (collect_results single_year batch_years all_theses) as [all1|e1];
    cbn [fst snd]; [|by split].
  split.
  - apply bounded_same; [done | rewrite Hnone3; simpl; lia |].
    intros l1 l2 Heq. destruct l1 as [|e l1]; [by rewrite app_nil_r|].
    injection Heq as <- Hl1. symmetry in Hl1. apply app_eq_nil in Hl1 as [-> _].
    by rewrite unreleased_app.
  - intros all' _. by rewrite unreleased_app.
Qed.

Lemma run_batches_bounded k batches b all_theses tr :
  Forall (fun c => (length c <= k)%nat) batches ->
  Crawl.pool_bounded k tr -> unreleased tr = [] ->
  Crawl.pool_bounded k
    (run_batches new_context_ok close_ok single_year schedule
       b batches all_theses tr).2 /\
  (forall all',
     (run_batches new_context_ok close_ok single_year schedule
        b batches all_theses tr).1 = Ok all' ->
     unreleased
       (run_batches new_context_ok close_ok single_year schedule
          b batches all_theses tr).2 = []).
Proof.
  intros Hall. revert b all_theses tr.
  induction Hall as [|batch_years rest Hlen _ IH]; intros b all_theses tr Htr Hnone;
    cbn [run_batches]; [done|].
  destruct (run_batch_bounded k b batch_years all_theses tr Hlen Htr Hnone)
    as [Hb Hnone1].
  destruct (run_batch new_context_ok close_ok single_year schedule
              b batch_years all_theses tr) as [[all1|e1] tr1];
    cbn [fst snd] in *; [|done].
  apply IH; [done|]. by apply (Hnone1 all1).
Qed.

(** The PDF pass, started with no context open, holds one context. *)
Lemma pdf_extraction_bounded k b all_theses tr :
  (1 <= k)%nat -> Crawl.pool_bounded k tr -> unreleased tr = [] ->
  Crawl.pool_bounded k
    (pdf_extraction new_context_ok close_ok extract_pdfs pdf_pass
       b all_theses tr).2.
Proof.
  intros Hk Htr Hnone. unfold pdf_extraction.
  assert (Hopen : Crawl.pool_bounded k (tr ++ [NewContext b 0])).
  { apply (bounded_opens k b [0%nat]); [done | done | simpl; lia]. }
  destruct (extract_pdfs && truthy all_theses); [|done].
  destruct (new_context_ok b 0); [|done].
  destruct (pdf_pass all_theses) as [theses|e]; [|done].
  destruct (close_ok b 0); [|done]. cbn [snd].
  replace (tr ++ [NewContext b 0; CloseContext b 0])
    with ((tr ++ [NewContext b 0]) ++ map (CloseContext b) [0%nat])
    by (by rewrite <- app_assoc).
  apply bounded_closes; [done|].
  rewrite unreleased_app, Hnone. simpl. lia.
Qed.

(** X5: the year-sharded crawl never holds more than [year_batch] browser
    contexts open at a time, whatever the order in which the tasks of a
    sub-batch run and wherever [new_context] or [close] raises. *)
Theorem context_pool_bounded (years : list Z) (year_batch : Z) :
  Crawl.pool_bounded (Z.to_nat year_batch)
    (_scrape_university_by_year new_context_ok close_ok single_year schedule
       extract_pdfs pdf_pass years year_batch).2.
Proof.
  unfold _scrape_university_by_year.
  destruct (slices years year_batch) as [batches|e] eqn:Hsl;
    [|apply pool_bounded_nil].
  destruct (run_batches_bounded (Z.to_nat year_batch) batches 0 [] [])
    as [Hb Hnone];
    [by eapply slices_chunk_length | apply pool_bounded_nil | done |].
  destruct (Z.lt_trichotomy year_batch 0) as [Hneg|[->|Hpos]].
  - rewrite slices_negative in Hsl by done. injection Hsl as <-.
    cbn [run_batches]. unfold pdf_extraction. cbn [truthy].
    rewrite andb_false_r. apply pool_bounded_nil.
  - by rewrite slices_zero in Hsl.
  - destruct (run_batches new_context_ok close_ok single_year schedule
                0 batches [] []) as [[all1|e1] tr1]; cbn [fst snd] in *;
      [|done].
    apply pdf_extraction_bounded; [lia | done | by apply (Hnone all1)].
Qed.
End ByYearMore.

Lemma context_pool_bounded_witness :
  (forall (b : nat) (l : list YokTez.BEvent), reverse l ≡ₚ l) /\
  Crawl.pool_bounded 2
    (YokTez._scrape_university_by_year (T := nat)
       (fun _ _ => true) (fun _ _ => true) (fun y => Ok [Z.to_nat y])
       (fun _ l => reverse l) true (fun l => Ok l)
       [1980; 1981; 1982]%Z 2).2.
Proof.
  split; [intros b l; apply reverse_Permutation|].
  apply (context_pool_bounded (T := nat)
           (fun _ _ => true) (fun _ _ => true) (fun y => Ok [Z.to_nat y])
           (fun _ l => reverse l) true (fun l => Ok l)
           ltac:(intros; apply reverse_Permutation)
           [1980; 1981; 1982]%Z 2).
Defined.

Section ByYearResult.
Import YokTez.
Context {T : Type}.
Variable new_context_ok : nat -> nat -> bool.
Variable close_ok : nat -> nat -> bool.
Variable single_year : Z -> result (list T).
Variable schedule : nat -> list BEvent -> list BEvent.
Variable extract_pdfs : bool.
Variable pdf_pass : list T -> result (list T).

Lemma collect_results_app (ys1 ys2 : list Z) (all_theses : list T) :
  collect_results single_year (ys1 ++ ys2) all_theses =
  (do collected <- collect_results single_year ys1 all_theses;
   collect_results single_year ys2 collected).
Proof.
  revert all_theses. induction ys1 as [|y ys1 IH]; intros all_theses; [done|].
  cbn [app collect_results]. destruct (single_year y) as [theses|e]; [apply IH|].
  destruct (is_Exception e); [apply IH | done].
Qed.

(** When no task is cancelled the results are the theses of the years
    whose task returned. *)
Lemma collect_results_returned (ys : list Z) (all_theses : list T) :
  (forall y e, y ∈ ys -> single_year y = Raise e -> is_Exception e = true) ->
  collect_results single_year ys all_theses =
    Ok (all_theses ++ Crawl.year_theses single_year ys).
Proof.
  revert all_theses. induction ys as [|y ys IH]; intros all_theses Hexn.
  - unfold Crawl.year_theses. simpl. by rewrite app_nil_r.
  - cbn [collect_results]. unfold Crawl.year_theses. cbn [map concat].
    fold (Crawl.year_theses single_year ys).
    assert (Hrest : forall z e, z ∈ ys -> single_year z = Raise e ->
                      is_Exception e = true)
      by (intros z e Hz; by apply Hexn, list_elem_of_further).
    destruct (single_year y) as [theses|e] eqn:Hy.
    + rewrite IH by done. by rewrite app_assoc.
    + rewrite (Hexn y e (list_elem_of_here _ _) Hy). by rewrite IH.
Qed.

(** A cancelled task among the years makes the collection raise. *)
Lemma collect_results_cancelled (ys : list Z) (all_theses : list T) y :
  y ∈ ys -> single_year y = Raise CancelledError ->
  collect_results single_year ys all_theses = Raise TypeError.
Proof.
  intros Hy Hcancel. revert all_theses.
  induction ys as [|z ys IH]; intros all_theses;
    [by apply not_elem_of_nil in Hy|].
  cbn [collect_results].
  destruct (decide (z = y)) as [->|Hne]; [by rewrite Hcancel|].
  apply elem_of_cons in Hy as [->|Hy]; [done|].
  destruct (single_year z) as [theses|e]; [by apply IH|].
  destruct e; cbn [is_Exception]; by try apply IH.
Qed.

Lemma open_contexts_all_ok b slots tr :
  (forall i, new_context_ok b i = true) ->
  (open_contexts new_context_ok b slots tr).1 = Ok tt.
Proof.
  intros Hok. revert tr. induction slots as [|i slots IH]; intros tr;
    cbn [open_contexts]; [done|]. by rewrite Hok.
Qed.

Lemma close_contexts_all_ok b slots tr :
  (forall i, close_ok b i = true) ->
  (close_contexts close_ok b slots tr).1 = Ok tt.
Proof.
  intros Hok. revert tr. induction slots as [|i slots IH]; intros tr;
    cbn [close_contexts]; [done|]. by rewrite Hok.
Qed.

Lemma run_batches_all_ok batches b all_theses tr :
  (forall b i, new_context_ok b i = true) ->
  (forall b i, close_ok b i = true) ->
  (run_batches new_context_ok close_ok single_year schedule
     b batches all_theses tr).1 =
  collect_results single_year (concat batches) all_theses.
Proof.
  intros Hnew Hclose. revert b all_theses tr.
  induction batches as [|batch_years rest IH]; intros b all_theses tr;
    cbn [run_batches]; [done|].
  cbn [concat]. rewrite collect_results_app. unfold run_batch.
  pose proof (open_contexts_all_ok b (seq 0 (length batch_years)) tr (Hnew b)) as Ho.
  destruct (open_contexts new_context_ok b _ tr) as [[[]|e1] tr1];
    cbn [fst] in Ho; [|done].
  pose proof (close_contexts_all_ok b (seq 0 (length batch_years))
                (tr1 ++ schedule b (task_events b (length batch_years)))
                (Hclose b)) as Hc.
  destruct (close_contexts close_ok b _ _) as [[[]|e3] tr3];
    cbn [fst] in Hc; [|done].
  destruct (collect_results single_year batch_years all_theses) as [all1|e];
    cbn [bind fst]; [apply IH | done].
Qed.

(** With a browser that opens and closes every context, what the crawl
    returns is what the collection of all years gives, passed through the
    PDF pass if that is asked for and there is any thesis. *)
Lemma by_year_all_ok (years : list Z) (year_batch : Z) :
  (forall b i, new_context_ok b i = true) ->
  (forall b i, close_ok b i = true) ->
  (0 < year_batch)%Z ->
  (_scrape_university_by_year new_context_ok close_ok single_year schedule
     extract_pdfs pdf_pass years year_batch).1 =
  (do all_theses <- collect_results single_year years [];
   if extract_pdfs && truthy all_theses then pdf_pass all_theses
   else Ok all_theses).
Proof.
  intros Hnew Hclose Hpos. unfold _scrape_university_by_year.
  destruct (slices years year_batch) as [batches|e] eqn:Hsl;
    [|by rewrite slices_pos in Hsl].
  pose proof (run_batches_all_ok batches 0 [] [] Hnew Hclose) as Hres.
  rewrite (slices_concat _ _ _ Hpos Hsl) in Hres.
  destruct (run_batches new_context_ok close_ok single_year schedule
              0 batches [] []) as [r tr]. cbn [fst] in Hres. subst r.
  destruct (collect_results single_year years []) as [all_theses|e];
    cbn [bind fst]; [|done].
  unfold pdf_extraction.
  destruct (extract_pdfs && truthy all_theses); [|done].
  rewrite Hnew. destruct (pdf_pass all_theses); [|done]. by rewrite Hclose.
Qed.

(** X6: when the browser opens and closes every context and no year's
    task is cancelled, the year-sharded crawl ends with the theses of all
    years, concatenated in year order, whatever the (positive) sub-batch
    size and whatever the order in which the tasks complete; a year whose
    task raised contributes nothing. These theses are what it returns,
    unless [extract_pdfs] is set and there is a thesis: then it returns
    what the PDF pass makes of them, or raises what the pass raises. A
    cancelled year task makes the crawl raise [TypeError]. *)
Theorem all_years_in_order (years : list Z) (year_batch : Z) :
  (forall b i, new_context_ok b i = true) ->
  (forall b i, close_ok b i = true) ->
  (0 < year_batch)%Z ->
  let run :=
    _scrape_university_by_year new_context_ok close_ok single_year schedule
      extract_pdfs pdf_pass years year_batch in
  let all_theses := Crawl.year_theses single_year years in
  ((forall y e, y ∈ years -> single_year y = Raise e ->
      is_Exception e = true) ->
   run.1 =
     if extract_pdfs && truthy all_theses then pdf_pass all_theses
     else Ok all_theses) /\
  (forall y, y ∈ years -> single_year y = Raise CancelledError ->
     run.1 = Raise TypeError).
Proof.
  intros Hnew Hclose Hpos. cbn zeta.
  rewrite (by_year_all_ok years year_batch Hnew Hclose Hpos). split.
  - intros Hexn. by rewrite (collect_results_returned years [] Hexn).
  - intros y Hy Hcancel.
    by rewrite (collect_results_cancelled years [] y Hy Hcancel).
Qed.

(** X7: a sub-batch size of 0 makes the crawl raise [ValueError] before
    any context is opened, and a negative one makes it return no thesis at
    all, without opening a context or starting a task, although there are
    years to scrape. *)
Theorem year_batch_not_positive (years : list Z) (year_batch : Z) :
  (year_batch <= 0)%Z ->
  _scrape_university_by_year new_context_ok close_ok single_year schedule
    extract_pdfs pdf_pass years year_batch =
  (if (year_batch =? 0)%Z then Raise ValueError else Ok [], []).
Proof.
  intros Hle. unfold _scrape_university_by_year.
  destruct (year_batch =? 0)%Z eqn:E.
  - apply Z.eqb_eq in E as ->. by rewrite slices_zero.
  - apply Z.eqb_neq in E. rewrite slices_negative by lia.
    cbn [run_batches]. unfold pdf_extraction. cbn [truthy].
    by rewrite andb_false_r.
Qed.
End ByYearResult.

Lemma all_years_in_order_witness :
  let visit := fun _ : string => PdfUrls.Visited (Some "k"%string) in
  let single_year := fun y : Z =>
    if (y =? 1981)%Z then Raise OtherException
    else Ok [({["detail_url"%string := "d"%string]} : YokTez.Thesis)] in
  let pdf_pass := fun theses : list YokTez.Thesis =>
    (PdfUrls._extract_pdf_urls_concurrent visit theses 50).1 in
  (YokTez._scrape_university_by_year
     (fun _ _ => true) (fun _ _ => true) single_year
     (fun _ l => reverse l) true pdf_pass [1980; 1981; 1982]%Z 2).1
  = pdf_pass (Crawl.year_theses single_year [1980; 1981; 1982]%Z).
Proof.
  intros visit single_year pdf_pass.
  destruct (all_years_in_order (fun _ _ => true) (fun _ _ => true) single_year
              (fun _ l => reverse l) true pdf_pass [1980; 1981; 1982]%Z 2
              ltac:(done) ltac:(done) ltac:(lia)) as [Hreturned _].
  rewrite Hreturned; [reflexivity|].
  intros y e _. unfold single_year.
  destruct (y =? 1981)%Z; [by intros [= <-] | done].
Defined.

Lemma year_batch_not_positive_witness :
  YokTez._scrape_university_by_year (T := nat)
    (fun _ _ => true) (fun _ _ => true) (fun _ => Ok [7%nat])
    (fun _ l => l) true (fun l => Ok l) [1980; 1981]%Z (-3)
  = (Ok [], []).
Proof.
  apply (year_batch_not_positive (T := nat) (fun _ _ => true) (fun _ _ => true)
           (fun _ => Ok [7%nat]) (fun _ l => l) true (fun l => Ok l)
           [1980; 1981]%Z (-3)).
  lia.
Defined.

(** ** More on the incremental CSV *)

Section CsvMore.
Import YokTez.

Lemma row_lookup (hs : list string) (t : Thesis) (i : nat) (k : string) :
  hs !! i = Some k -> row hs t !! i = Some (default EmptyString (t !! k)).
Proof.
  intros Hk. unfold row.
  change (map ?f hs) with (f <$> hs). by rewrite list_lookup_fmap, Hk.
Qed.

Lemma row_insert_other (hs : list string) (t : Thesis) (k v : string) :
  k ∉ hs -> row hs (<[k := v]> t) = row hs t.
Proof.
  intros Hk. unfold row. apply map_ext_in. intros h Hh.
  apply list_elem_of_In in Hh. rewrite lookup_insert_ne; [done|].
  intros ->. done.
Qed.

(** X8: a CSV written by [_save_csv] is rectangular and follows its
    header: there is one line per thesis after the header, every line has as
    many cells as the header, the cell under a header is the thesis' value
    for that key, or the empty string when the key is missing, and a field
    that is not a header never changes the line. *)
Theorem csv_follows_header (theses : list Thesis) (has_pdfs : bool) :
  length (csv_of theses has_pdfs) = S (length theses) /\
  Forall (fun line => length line = length (headers has_pdfs))
         (csv_of theses has_pdfs) /\
  (forall n t i k,
     theses !! n = Some t -> headers has_pdfs !! i = Some k ->
     exists line,
       csv_of theses has_pdfs !! S n = Some line /\
       line !! i = Some (default EmptyString (t !! k))) /\
  (forall t k v, k ∉ headers has_pdfs ->
     row (headers has_pdfs) (<[k := v]> t) = row (headers has_pdfs) t).
Proof.
  unfold csv_of. split; [simpl; by rewrite length_map|]. split; [|split].
  - constructor; [done|]. apply Forall_forall. intros line Hline.
    apply elem_of_map in Hline as (t & -> & _). unfold row. by rewrite length_map.
  - intros n t i k Hn Hk. exists (row (headers has_pdfs) t). split.
    + simpl. change (map ?f theses) with (f <$> theses).
      by rewrite list_lookup_fmap, Hn.
    + by apply row_lookup.
  - intros t k v Hk. by apply row_insert_other.
Qed.

Lemma saves_collect filename has_pdfs unis all_theses (fs : gmap string Csv) :
  (fold_left (save_incrementally filename has_pdfs) unis (all_theses, fs)).1 =
  all_theses ++ concat (map Crawl.tag_university unis).
Proof.
  revert all_theses fs. induction unis as [|[[uni_name theses] io] unis IH];
    intros all_theses fs; cbn [fold_left].
  - simpl. by rewrite app_nil_r.
  - unfold save_incrementally at 2. rewrite IH. cbn [map concat].
    unfold Crawl.tag_university at 2. cbn [fst snd].
    destruct theses as [|t theses]; simpl; [done|]. by rewrite <- app_assoc.
Qed.

Lemma saves_frame filename has_pdfs unis all_theses (fs : gmap string Csv) g :
  g <> filename ->
  (fold_left (save_incrementally filename has_pdfs) unis (all_theses, fs)).2 !! g
  = fs !! g.
Proof.
  intros Hg. revert all_theses fs.
  induction unis as [|[[uni_name theses] io] unis IH]; intros all_theses fs;
    cbn [fold_left]; [done|].
  unfold save_incrementally at 2. rewrite IH.
  destruct (truthy _); [by apply save_csv_frame | done].
Qed.

(** X9: [scrape_all_universities] collects, in visiting order, the theses
    of every university, each tagged with its university's name; its saves
    touch no file but the output file; and when the save after the last
    university goes through, the output file holds the header and one row
    for every thesis collected, whatever happened to the saves before. *)
Theorem incremental_saves_result filename has_pdfs unis last_name last_theses
    (fs : gmap string Csv) :
  let run := scrape_all_universities_saves filename has_pdfs
               (unis ++ [(last_name, last_theses, WriteOk)]) fs in
  run.1 = concat (map Crawl.tag_university
                    (unis ++ [(last_name, last_theses, WriteOk)])) /\
  Forall (fun t : Thesis => is_Some (t !! "university"%string)) run.1 /\
  (forall g, g <> filename -> run.2 !! g = fs !! g) /\
  (truthy run.1 = true -> run.2 !! filename = Some (csv_of run.1 has_pdfs)).
Proof.
  cbn zeta. unfold scrape_all_universities_saves.
  split; [by rewrite saves_collect|]. split; [|split].
  - rewrite saves_collect. cbn [app]. apply Forall_forall. intros t Ht.
    apply list_elem_of_In, in_concat in Ht as (l & Hl & Ht).
    apply in_map_iff in Hl as (u & <- & _).
    unfold Crawl.tag_university in Ht.
    apply in_map_iff in Ht as (t0 & <- & _).
    rewrite lookup_insert_eq. by eexists.
  - intros g Hg. by apply saves_frame.
  - rewrite fold_left_app. cbn [fold_left].
    destruct (fold_left _ unis ([], fs)) as [all_theses fs1].
    unfold save_incrementally. cbn [fst snd].
    intros Hall. rewrite Hall. by apply save_csv_ok.
Qed.
End CsvMore.

(** ** The two page workers *)

Section OracleWorkerFacts.
Import Doaj.
Context {Resp Article : Type}.
Variable fetch : Z -> nat -> FetchError + Resp.
Variable resp_truthy : Resp -> bool.
Variable extract : Resp -> result (list Article).
Variable delay_positive : bool.

Abbreviation simple_page :=
  (Doaj.process_page fetch resp_truthy extract delay_positive).
Abbreviation oracle_page :=
  (DoajOracle.process_page fetch resp_truthy extract delay_positive).

(** One round of either worker: the same articles and trace; the counting
    worker counts the round exactly when it did not fail. *)
Lemma oracle_page_simulates (st : DoajOracle.State (Article := Article)) page_num :
  let st' := oracle_page st page_num in
  simple_page (DoajOracle.all_articles st, DoajOracle.trace st) page_num =
    (DoajOracle.all_articles st', DoajOracle.trace st') /\
  DoajOracle.pages_successfully_processed st' =
    (DoajOracle.pages_successfully_processed st +
     if attempt_fails fetch resp_truthy extract page_num
          (attempts page_num (DoajOracle.trace st))
     then 0 else 1)%nat.
Proof.
  cbn zeta. unfold DoajOracle.process_page, Doaj.process_page, attempt_fails,
    get_articles_page_standalone.
  destruct (fetch page_num (attempts page_num (DoajOracle.trace st)))
    as [e|response]; cbn [DoajOracle.all_articles DoajOracle.trace
                          DoajOracle.pages_successfully_processed].
  - split; [done|lia].
  - destruct (resp_truthy response);
      [destruct (extract response)|];
      cbn [DoajOracle.all_articles DoajOracle.trace
           DoajOracle.pages_successfully_processed]; split; (done || lia).
Qed.

Lemma oracle_fold_simulates pages (st : DoajOracle.State (Article := Article)) :
  let st' := fold_left oracle_page pages st in
  fold_left simple_page pages (DoajOracle.all_articles st, DoajOracle.trace st) =
    (DoajOracle.all_articles st', DoajOracle.trace st') /\
  (DoajOracle.pages_successfully_processed st <=
     DoajOracle.pages_successfully_processed st' <=
     DoajOracle.pages_successfully_processed st + length pages)%nat /\
  (forall u, u ∈ pages ->
     (forall k, attempt_fails fetch resp_truthy extract u k = true) ->
     (DoajOracle.pages_successfully_processed st' <
        DoajOracle.pages_successfully_processed st + length pages)%nat).
Proof.
  cbn zeta. revert st. induction pages as [|p pages IH]; intros st; cbn [fold_left].
  - split; [done|]. split; [simpl; lia|]. intros u Hu. by apply not_elem_of_nil in Hu.
  - destruct (oracle_page_simulates st p) as [Hsim Hcount]. cbn zeta in *.
    rewrite Hsim. destruct (IH (oracle_page st p)) as (IH1 & IH2 & IH3).
    split; [exact IH1|]. split.
    + rewrite Hcount in IH2. simpl.
      destruct (attempt_fails _ _ _ _ _); lia.
    + intros u Hu Hfail. simpl. apply elem_of_cons in Hu as [->|Hu].
      * rewrite Hcount, Hfail in IH2. lia.
      * specialize (IH3 u Hu Hfail). rewrite Hcount in IH3.
        destruct (attempt_fails _ _ _ _ _); lia.
Qed.

(** X10: the page worker that counts its pages returns the same articles
    as the plain one and makes the same requests, log lines and pauses.
    Its count is the number of pages that yielded data, never above the
    chunk length, and strictly below it when a page of the chunk fails at
    every request; the plain worker reports the whole chunk as done all the
    same. *)
Theorem counting_worker_agrees (page_numbers : list Z) :
  let counted :=
    DoajOracle.process_page_chunk_with_oracle_standalone
      fetch resp_truthy extract delay_positive page_numbers [] in
  let plain :=
    process_page_chunk_simple fetch resp_truthy extract delay_positive
      page_numbers [] in
  DoajOracle.all_articles counted = plain.1.1 /\
  DoajOracle.trace counted = plain.2 /\
  plain.1.2 = length page_numbers /\
  (DoajOracle.pages_successfully_processed counted <= length page_numbers)%nat /\
  (forall u, u ∈ page_numbers ->
     (forall k, attempt_fails fetch resp_truthy extract u k = true) ->
     (DoajOracle.pages_successfully_processed counted < plain.1.2)%nat).
Proof.
  cbn zeta. unfold DoajOracle.process_page_chunk_with_oracle_standalone,
    process_page_chunk_simple.
  destruct (oracle_fold_simulates page_numbers (DoajOracle.mkState [] 0 [] []))
    as (Hsim & Hle & Hlt).
  cbn zeta in *. cbn [DoajOracle.all_articles DoajOracle.trace
                      DoajOracle.pages_successfully_processed] in *.
  rewrite Hsim. cbn [fst snd].
  split; [done|]. split; [done|]. split; [done|]. split; [lia|].
  intros u Hu Hfail. specialize (Hlt u Hu Hfail). lia.
Qed.
End OracleWorkerFacts.

(** ** PDF links *)

Section PdfFacts.
Import YokTez PdfUrls.
Variable visit : string -> Visit.

Lemma gather_app {A : Type} (l1 l2 : list (result A)) :
  gather (l1 ++ l2) =
  (do r1 <- gather l1; do r2 <- gather l2; Ok (r1 ++ r2)).
Proof.
  induction l1 as [|t l1 IH]; simpl.
  - by destruct (gather l2).
  - destruct t as [r|e]; simpl; [|done]. rewrite IH.
    destruct (gather l1); simpl; [|done]. by destruct (gather l2).
Qed.

Lemma gather_lookup {A B : Type} (f : A -> result B) (l : list A) rs :
  gather (map f l) = Ok rs ->
  length rs = length l /\
  (forall i x, l !! i = Some x -> exists r, rs !! i = Some r /\ f x = Ok r).
Proof.
  revert rs. induction l as [|x l IH]; intros rs; simpl.
  - intros [= <-]. split; [done|]. intros i y Hy. by rewrite lookup_nil in Hy.
  - destruct (f x) as [r|e] eqn:Hx; simpl; [|done].
    destruct (gather (map f l)) as [rs'|e] eqn:Hl; simpl; [|done].
    intros [= <-]. destruct (IH rs' eq_refl) as [Hlen Hlook].
    split; [simpl; lia|]. intros [|i] y Hy; simpl in *.
    + injection Hy as <-. eauto.
    + by apply Hlook.
Qed.

(** Each thesis comes back with [pdf_url] set and nothing else changed. *)
Lemma extract_single_frame (thesis r : Thesis) :
  extract_single visit thesis = Ok r ->
  exists v, r = <["pdf_url"%string := v]> thesis.
Proof.
  unfold extract_single.
  destruct (thesis !! "detail_url"%string) as [[|c detail_url]|];
    try (intros [= <-]; by eexists).
  destruct (visit _) as [| |[key|]]; try done; intros [= <-]; by eexists.
Qed.

Lemma extract_batches_result batches i batch_size total results sleeps :
  (extract_batches visit batches i batch_size total results sleeps).1 =
  (do rs <- gather (map (extract_single visit) (concat batches));
   Ok (results ++ rs)).
Proof.
  revert i results sleeps.
  induction batches as [|batch rest IH]; intros i results sleeps;
    cbn [extract_batches concat].
  - simpl. by rewrite app_nil_r.
  - rewrite map_app, gather_app.
    destruct (gather (map (extract_single visit) batch)) as [rs|e]; simpl; [|done].
    rewrite IH.
    destruct (gather (map (extract_single visit) (concat rest))); simpl; [|done].
    by rewrite app_assoc.
Qed.

Lemma extract_batches_sleeps batches i batch_size total results sleeps rs :
  (0 < batch_size)%Z -> batches <> [] ->
  (i + batch_size * (Z.of_nat (length batches) - 1) < total
     <= i + batch_size * Z.of_nat (length batches))%Z ->
  (extract_batches visit batches i batch_size total results sleeps).1 = Ok rs ->
  (extract_batches visit batches i batch_size total results sleeps).2 =
    (sleeps + length batches - 1)%nat.
Proof.
  intros Hbs. revert i results sleeps.
  induction batches as [|batch rest IH]; intros i results sleeps Hne Hcover;
    [done|]. cbn [extract_batches].
  destruct (gather (map (extract_single visit) batch)) as [brs|e]; [|done].
  destruct rest as [|batch2 rest].
  - cbn [extract_batches length] in *. intros _. simpl.
    destruct (Z.ltb_spec (i + batch_size) total); lia.
  - intros Hok. rewrite IH; [| done | | exact Hok].
    + cbn [length] in *. destruct (Z.ltb_spec (i + batch_size) total); lia.
    + cbn [length] in *. lia.
Qed.

(** X11: the PDF pass hands every thesis back, in order, with a [pdf_url]
    field added and every other field as it was; cutting the theses into
    batches does not change the outcome, which is that of visiting them one
    by one; and the pass pauses between batches only, never after the last
    one. *)
Theorem pdf_urls_added (theses : list Thesis) (batch_size : Z) :
  (0 < batch_size)%Z ->
  let run := _extract_pdf_urls_concurrent visit theses batch_size in
  run.1 = gather (map (extract_single visit) theses) /\
  (forall results, run.1 = Ok results ->
     length results = length theses /\
     (forall i t, theses !! i = Some t ->
        exists r v, results !! i = Some r /\ r = <["pdf_url"%string := v]> t) /\
     (theses <> [] ->
      (Z.of_nat run.2 * batch_size < len theses
         <= (Z.of_nat run.2 + 1) * batch_size)%Z)).
Proof.
  intros Hbs. cbn zeta. unfold _extract_pdf_urls_concurrent.
  destruct (slices theses batch_size) as [batches|e] eqn:Hsl;
    [|by rewrite slices_pos in Hsl].
  pose proof (slices_concat _ _ _ Hbs Hsl) as Hcat.
  assert (Hres : (extract_batches visit batches 0 batch_size (len theses) [] 0).1 =
                 gather (map (extract_single visit) theses)).
  { rewrite extract_batches_result, Hcat.
    by destruct (gather (map (extract_single visit) theses)). }
  split; [exact Hres|].
  intros results Hok. rewrite Hres in Hok.
  destruct (gather_lookup _ _ _ Hok) as [Hlen Hlook].
  split; [done|]. split.
  - intros i t Ht. destruct (Hlook i t Ht) as (r & Hr & Hsingle).
    destruct (extract_single_frame _ _ Hsingle) as [v ->]. eauto.
  - intros Hne.
    pose proof (slices_length _ _ _ Hbs Hsl) as Hn.
    pose proof (range_len_pos (len theses) batch_size Hbs
                  ltac:(unfold len; lia)) as Hrl.
    assert (Hpos : (0 < len theses)%Z).
    { unfold len. destruct theses; [done|]. simpl. lia. }
    assert (Hbne : batches <> []).
    { intros ->. simpl in Hn. nia. }
    rewrite <- Hres in Hok.
    rewrite (extract_batches_sleeps batches 0 batch_size (len theses) [] 0
               results Hbs Hbne); [| |exact Hok].
    + destruct batches; [done|]. simpl length in *. nia.
    + rewrite Hn. nia.
Qed.
End PdfFacts.

Lemma pdf_urls_added_witness :
  let visit := fun u : string =>
    if String.eqb u "d1" then PdfUrls.Visited (Some "k1"%string)
    else PdfUrls.Visited None in
  (0 < 2)%Z /\
  (PdfUrls._extract_pdf_urls_concurrent visit
     [{["detail_url"%string := "d1"%string]};
      {["detail_url"%string := "d2"%string]};
      {["title"%string := "T"%string]}] 2).1
  = PdfUrls.gather (map (PdfUrls.extract_single visit)
     [{["detail_url"%string := "d1"%string]};
      {["detail_url"%string := "d2"%string]};
      {["title"%string := "T"%string]}]).
Proof.
  intros visit. split; [lia|].
  apply (pdf_urls_added visit _ 2). lia.
Defined.

(** ** Articles out of a response *)

Section ParseFacts.
Import DoajParse.
Variable py_str : Json -> string.
Variable py_int : string -> option Z.

Lemma parse_hit_id (hit : Json) :
  article_id <$> parse_hit py_str py_int hit =
  source_id py_str <$> source_of hit.
Proof.
  destruct hit as [| | | | |?|h]; try done. simpl.
  destruct (dict_lookup h "_source") as [[]|]; done.
Qed.

Lemma hits_ids (hits : list Json) :
  map article_id (omap (parse_hit py_str py_int) hits) =
  map (source_id py_str) (omap source_of hits).
Proof.
  induction hits as [|hit hits IH]; [done|]. cbn [omap list_omap].
  pose proof (parse_hit_id hit) as Hid.
  destruct (parse_hit py_str py_int hit), (source_of hit); simpl in *;
    try done. injection Hid as ->. by rewrite IH.
Qed.

Lemma dict_lookup_truth (d : list (string * Json)) key v :
  dict_lookup d key = Some v -> truth (JDict d) = true.
Proof. by destruct d. Qed.

(** X12: out of a response of the search engine's shape, a dict whose
    [hits] is a dict whose [hits] is a list, and out of a response that is
    the list of hits itself, the extraction returns one article for each
    hit that is a dict with a dict under [_source], in the order of the
    hits and with the identifier of that source; every other hit is
    skipped without an error. *)
Theorem sourced_hits_become_articles (hits : list Json) :
  let expected articles :=
    map article_id articles = map (source_id py_str) (omap source_of hits) in
  (forall d inner,
     dict_lookup d "hits" = Some (JDict inner) ->
     dict_lookup inner "hits" = Some (JList hits) ->
     exists articles,
       extract_articles_from_response_standalone py_str py_int (JDict d)
         = Ok articles /\
       expected articles) /\
  (list_has_str "hits" hits = false ->
     exists articles,
       extract_articles_from_response_standalone py_str py_int (JList hits)
         = Ok articles /\
       expected articles).
Proof.
  cbn zeta. split.
  - intros d inner Hd Hinner.
    unfold extract_articles_from_response_standalone.
    rewrite (dict_lookup_truth _ _ _ Hd). cbn [negb].
    rewrite Hd. unfold dict_get. rewrite Hinner. cbn [articles_of_hits].
    eexists. split; [done|]. apply hits_ids.
  - intros Hno. unfold extract_articles_from_response_standalone.
    destruct hits as [|hit hits]; [by exists []|].
    cbn [truth negb]. rewrite Hno. cbn [articles_of_hits].
    eexists. split; [done|]. apply hits_ids.
Qed.

Lemma title_of_abstract_entry (abstract_obj t : Json) :
  title_of_abstract abstract_obj = Some t ->
  exists language title, t = title_entry language title.
Proof.
  destruct abstract_obj as [| | | | | |a]; try done. simpl.
  destruct (dict_lookup a "title"), (dict_lookup a "language"); try done.
  intros [= <-]. eauto.
Qed.

(** X13: the parser returns an article only for a [_source] that is a
    dict, and the article is normalised: its identifier is [str] of the
    source's [id] (of ['unknown'] without one), the year is [None] or an
    [int], the DOI is [None] or a string, the journal information is never
    [None], and every title entry holds a language and a title. A source
    that has no [abstracts] key gets no title, whatever else it holds. *)
Theorem parsed_article_is_normalised (source_data : Json) (article : Article) :
  parse_article_from_source_standalone py_str py_int source_data = Ok article ->
  (exists src, source_data = JDict src /\
     article_id article = source_id py_str src /\
     (dict_lookup src "abstracts" = None -> titles article = [])) /\
  (publication_year article = JNone \/
   isinstance_int (publication_year article) = true) /\
  (doi article = JNone \/ exists s, doi article = JStr s) /\
  journal_info article <> JNone /\
  Forall (fun t => exists language title, t = title_entry language title)
    (titles article).
Proof.
  destruct source_data as [| | | | | |src]; try done.
  unfold parse_article_from_source_standalone. intros [= <-]. cbn.
  split; [|split; [|split; [|split]]].
  - exists src. split; [done|]. split; [done|].
    intros Hnone. unfold dict_get. by rewrite Hnone.
  - destruct (dict_get src "publicationYear" JNone) as [| | | |s| |];
      cbn; auto. destruct (py_int s); cbn; auto.
  - destruct (dict_get src "doi" JNone) as [|b|n|f|s|l|d]; eauto;
      match goal with |- context [if ?c then _ else _] => destruct c end; eauto.
  - by destruct (dict_get src "journal" (JDict [])).
  - destruct (dict_get src "abstracts" (JList [])) as [| | | | |elems|];
      try (destruct (dict_lookup src "title");
           [apply Forall_singleton; eauto | apply Forall_nil_2]).
    apply Forall_forall. intros t Ht.
    apply list_elem_of_omap in Ht as (abstract_obj & _ & Ht).
    by apply title_of_abstract_entry in Ht.
Qed.

(** A source that is not a dict makes the parser fail. *)
Lemma parse_needs_dict (source_data : Json) :
  (exists article, parse_article_from_source_standalone py_str py_int source_data = Ok article) <->
  (exists src, source_data = JDict src).
Proof.
  split.
  - intros [article Hok]. destruct source_data; try done. eauto.
  - intros [src ->]. unfold parse_article_from_source_standalone. eauto.
Qed.

Section PageWithScalarHits.
Variable fetch : Z -> nat -> Doaj.FetchError + Json.
Variable delay_positive : bool.

(** X14: a page whose response carries, where the list of hits should
    be, [None], a number or a boolean makes the extraction raise; the
    worker then keeps the articles it has, logs the page as failed, skips
    the pause and asks for the page once only. *)
Theorem scalar_hits_page_is_logged (d inner : list (string * Json))
    (h : Json) (page : Z) (all_articles : list Article)
    (tr : list Doaj.Event) :
  fetch page (Doaj.attempts page tr) = inr (JDict d) ->
  dict_lookup d "hits" = Some (JDict inner) ->
  dict_lookup inner "hits" = Some h ->
  scalar h = true ->
  (exists e,
     extract_articles_from_response_standalone py_str py_int (JDict d)
       = Raise e) /\
  Doaj.process_page fetch truth
    (extract_articles_from_response_standalone py_str py_int) delay_positive
    (all_articles, tr) page
  = (all_articles, tr ++ [Doaj.EvGet page; Doaj.EvLogError page]).
Proof.
  intros Hfetch Hd Hinner Hscalar.
  assert (Hraise :
    extract_articles_from_response_standalone py_str py_int (JDict d)
      = Raise OtherException).
  { unfold extract_articles_from_response_standalone.
    rewrite (dict_lookup_truth _ _ _ Hd). cbn [negb].
    rewrite Hd. unfold dict_get. rewrite Hinner.
    by destruct h. }
  split; [eauto|].
  unfold Doaj.process_page, Doaj.get_articles_page_standalone.
  rewrite Hfetch, (dict_lookup_truth _ _ _ Hd), Hraise.
  by rewrite <- app_assoc.
Qed.
End PageWithScalarHits.
End ParseFacts.

Lemma sourced_hits_become_articles_witness :
  let py_str := fun v : DoajParse.Json =>
    match v with DoajParse.JStr s => s | _ => "?"%string end in
  let py_int := fun _ : string => @None Z in
  let hits :=
    [DoajParse.JDict
       [("_source"%string, DoajParse.JDict [("id"%string, DoajParse.JStr "a1")])];
     DoajParse.JInt 3;
     DoajParse.JDict [("_source"%string, DoajParse.JNone)]] in
  exists articles,
    DoajParse.extract_articles_from_response_standalone py_str py_int
      (DoajParse.JDict
         [("hits"%string,
           DoajParse.JDict [("hits"%string, DoajParse.JList hits)])])
    = Ok articles /\
    map DoajParse.article_id articles = ["a1"%string].
Proof.
  intros py_str py_int hits.
  destruct (sourced_hits_become_articles py_str py_int hits) as [Hshape _].
  destruct (Hshape
              [("hits"%string,
                DoajParse.JDict [("hits"%string, DoajParse.JList hits)])]
              [("hits"%string, DoajParse.JList hits)] eq_refl eq_refl)
    as (articles & Hok & Hids).
  exists articles. split; [exact Hok | exact Hids].
Defined.

Lemma parsed_article_is_normalised_witness :
  let py_str := fun v : DoajParse.Json =>
    match v with DoajParse.JStr s => s | _ => "?"%string end in
  let py_int := fun _ : string => Some 2020%Z in
  let source_data := DoajParse.JDict
    [("id"%string, DoajParse.JStr "a1");
     ("title"%string, DoajParse.JStr "T");
     ("publicationYear"%string, DoajParse.JStr "2020");
     ("doi"%string, DoajParse.JInt 7)] in
  exists article,
    DoajParse.parse_article_from_source_standalone py_str py_int source_data
      = Ok article /\
    DoajParse.titles article = [] /\
    DoajParse.journal_info article <> DoajParse.JNone.
Proof.
  intros py_str py_int source_data. eexists. split; [reflexivity|].
  pose proof (parsed_article_is_normalised py_str py_int source_data _ eq_refl)
    as ((src & Hsrc & _ & Habs) & _ & _ & Hjournal & _).
  split; [|exact Hjournal].
  injection Hsrc as <-. apply Habs. reflexivity.
Defined.

Lemma scalar_hits_page_is_logged_witness :
  let py_str := fun _ : DoajParse.Json => "?"%string in
  let py_int := fun _ : string => @None Z in
  let inner := [("hits"%string, DoajParse.JNone)] in
  let d := [("hits"%string, DoajParse.JDict inner)] in
  let fetch := fun (_ : Z) (_ : nat) =>
    @inr Doaj.FetchError DoajParse.Json (DoajParse.JDict d) in
  Doaj.process_page fetch DoajParse.truth
    (DoajParse.extract_articles_from_response_standalone py_str py_int)
    true ([], []) 3
  = ([], [Doaj.EvGet 3; Doaj.EvLogError 3]).
Proof.
  intros py_str py_int inner d fetch.
  apply (scalar_hits_page_is_logged py_str py_int fetch true d inner
           DoajParse.JNone 3 [] []); reflexivity.
Defined.

(** ** The whole TRDizin run *)

Section RunFacts.
Import Partitioner Doaj DoajRun.
Context {Resp Article : Type}.
Variable fetch : Z -> nat -> FetchError + Resp.
Variable resp_truthy : Resp -> bool.
Variable extract : Resp -> result (list Article).
Variable delay_positive : bool.

(** In a worker that has not asked for any of its pages yet and whose
    pages are distinct, every page is answered by its first request. *)
Lemma fold_first_requests pages all_articles tr :
  NoDup pages ->
  (forall p, p ∈ pages -> attempts p tr = 0%nat) ->
  (fold_left (process_page fetch resp_truthy extract delay_positive) pages
     (all_articles, tr)).1 =
  all_articles ++
    flat_map (fun p => page_yield fetch resp_truthy extract p 0) pages.
Proof.
  intros Hnd. revert all_articles tr.
  induction Hnd as [|q pages Hq Hnd IH]; intros all_articles tr Hfresh;
    cbn [fold_left flat_map].
  - by rewrite app_nil_r.
  - pose proof (process_page_articles fetch resp_truthy extract delay_positive
                  all_articles tr q) as Harts.
    pose proof (process_page_attempts fetch resp_truthy extract delay_positive
                  all_articles tr q) as Hatt.
    destruct (process_page _ _ _ _ (all_articles, tr) q) as [a' tr'].
    cbn [fst snd] in *. rewrite IH.
    + rewrite Harts, (Hfresh q) by apply list_elem_of_here.
      by rewrite <- app_assoc.
    + intros p Hp. rewrite Hatt, (Hfresh p) by by apply list_elem_of_further.
      destruct (decide (q = p)) as [->|]; done.
Qed.

Lemma chunk_first_requests pages :
  NoDup pages ->
  (process_page_chunk_simple fetch resp_truthy extract delay_positive
     pages []).1 =
  (flat_map (fun p => page_yield fetch resp_truthy extract p 0) pages,
   length pages).
Proof.
  intros Hnd. unfold process_page_chunk_simple.
  pose proof (fold_first_requests pages [] [] Hnd ltac:(done)) as H.
  destruct (fold_left _ _ _) as [a tr]. cbn [fst snd] in *. by rewrite H.
Qed.

Lemma concat_filter_truthy {A : Type} (ls : list (list A)) :
  concat (filter (fun l => truthy l = true) ls) = concat ls.
Proof.
  induction ls as [|l ls IH]; [done|]. rewrite filter_cons.
  destruct (decide _) as [|Hl]; simpl; [by rewrite IH|].
  rewrite IH. by destruct l.
Qed.

Lemma pool_map_results (chunks : list (list Z)) :
  NoDup (concat chunks) ->
  concat (map (fun r => r.1.1)
            (pool_map fetch resp_truthy extract delay_positive chunks)) =
    flat_map (fun p => page_yield fetch resp_truthy extract p 0)
      (concat chunks) /\
  sum_list (map (fun r => r.1.2)
              (pool_map fetch resp_truthy extract delay_positive chunks)) =
    length (concat chunks).
Proof.
  induction chunks as [|chunk chunks IH]; [done|]. cbn [concat].
  intros [Hc [_ Hcs]]%NoDup_app. destruct (IH Hcs) as [IH1 IH2].
  cbn [pool_map map concat sum_list] in *.
  rewrite (chunk_first_requests chunk Hc). cbn [fst snd].
  unfold pool_map in *. rewrite IH1, IH2, flat_map_app, length_app. done.
Qed.

Lemma page_numbers_NoDup (max_pages : Z) pages :
  page_numbers max_pages = Ok pages -> NoDup pages.
Proof.
  rewrite page_numbers_explicit. intros [= <-].
  change (map ?f ?l) with (f <$> l).
  apply NoDup_fmap_2; [|apply NoDup_seq]. intros a b. lia.
Qed.

Lemma simple_chunks_count (n max_pages : Z) chunks :
  (1 <= n)%Z -> (1 <= max_pages)%Z ->
  scrape_all_articles_SIMPLE_chunks n max_pages = Ok chunks ->
  (length chunks <= Z.to_nat n)%nat.
Proof.
  intros Hn Hm. unfold scrape_all_articles_SIMPLE_chunks.
  destruct (page_numbers max_pages) as [pages|] eqn:Hp;
    [|by rewrite page_numbers_explicit in Hp].
  pose proof (page_numbers_length _ _ Hp) as Hlen.
  assert (Hl : truthy pages = true)
    by (apply truthy_length; unfold len in Hlen; lia).
  simpl.
  destruct (chunk_loop_explicit n pages Hn Hl) as (Hs & Hcover & ->).
  intros [= <-]. rewrite length_map, length_seq.
  assert (Hpos : (0 < chunk_size_of n pages)%Z) by lia.
  pose proof (range_len_pos (len pages) _ Hpos ltac:(unfold len; lia)) as Hrl.
  unfold len in *. nia.
Qed.

Lemma simple_run_with_budget (num_processes m : Z) :
  let run :=
    scrape_all_articles_SIMPLE fetch resp_truthy extract delay_positive
      num_processes (Some m) in
  ((exists r, run = Ok r) <-> (1 <= num_processes)%Z /\ (1 <= m)%Z) /\
  (forall r, run = Ok r ->
     returned r = [] /\
     concat (save_batch_calls r) =
       flat_map (fun p => page_yield fetch resp_truthy extract p 0)
         (map (fun k : nat => (1 + Z.of_nat k)%Z) (seq 0 (Z.to_nat m))) /\
     Forall (fun batch => batch <> []) (save_batch_calls r) /\
     (length (save_batch_calls r) <= Z.to_nat num_processes)%nat /\
     sum_list (update_progress_calls r) = Z.to_nat m).
Proof.
  cbn zeta. unfold scrape_all_articles_SIMPLE,
    scrape_all_articles_SIMPLE_schedule. cbn [effective_max_pages bind].
  assert (Hiff : forall r,
    (do process_args <- scrape_all_articles_SIMPLE_chunks num_processes m;
     do pool <- Pool num_processes;
     Ok (mkRun []
          (filter (fun chunk_articles => truthy chunk_articles = true)
             (map (fun r => r.1.1)
                (pool_map fetch resp_truthy extract delay_positive process_args)))
          (map (fun r => r.1.2)
             (pool_map fetch resp_truthy extract delay_positive process_args))))
    = Ok r -> (1 <= num_processes)%Z /\ (1 <= m)%Z).
  { intros r Hr.
    assert (Hn : (1 <= num_processes)%Z).
    { destruct (scrape_all_articles_SIMPLE_chunks num_processes m);
        [|done]. simpl in Hr. unfold Pool in Hr.
      destruct (Z.ltb_spec num_processes 1); [done|lia]. }
    split; [done|].
    destruct (Z.le_gt_cases 1 m) as [|Hm]; [done|].
    destruct (simple_chunks_empty_page_list num_processes m) as (_ & Hraise & _);
      [lia|lia|]. by rewrite Hraise in Hr. }
  split.
  - split; [intros [r Hr]; by apply (Hiff r)|].
    intros [Hn Hm].
    destruct (simple_chunks_partition num_processes m Hn Hm)
      as (pages & chunks & _ & -> & _). simpl. unfold Pool.
    destruct (Z.ltb_spec num_processes 1); [lia|]. simpl. eauto.
  - intros r Hr. destruct (Hiff r Hr) as [Hn Hm].
    destruct (simple_chunks_partition num_processes m Hn Hm)
      as (pages & chunks & Hpages & Hchunks & Hcat & _).
    pose proof (simple_chunks_count _ _ _ Hn Hm Hchunks) as Hcount.
    pose proof (page_numbers_NoDup _ _ Hpages) as Hnd.
    rewrite Hchunks in Hr. simpl in Hr. unfold Pool in Hr.
    destruct (Z.ltb_spec num_processes 1); [lia|]. simpl in Hr.
    injection Hr as <-. cbn [returned save_batch_calls update_progress_calls].
    rewrite <- Hcat in Hnd.
    destruct (pool_map_results chunks Hnd) as [Hres Hsum].
    rewrite page_numbers_explicit in Hpages. injection Hpages as Hpages.
    split; [done|]. split; [|split; [|split]].
    + by rewrite concat_filter_truthy, Hres, Hcat, Hpages.
    + apply Forall_forall. intros batch Hb.
      apply list_elem_of_filter in Hb as [Hb _]. by destruct batch.
    + etrans; [apply length_filter|]. unfold pool_map.
      by rewrite !length_map.
    + rewrite Hsum, Hcat, <- Hpages. by rewrite length_map, length_seq.
Qed.

(** X15: the run returns normally exactly when it is given a page budget
    of at least one page and has at least one process; without a budget
    ([max_pages = None]) it raises [AttributeError] at the call of the
    missing [discover_total_pages]. When it returns, it returns the empty
    list: the articles go to [save_batch] only. Put together, the saved
    batches are what the first request for each of the pages 1 to
    [max_pages] yields, in page order, whatever the number of processes;
    no batch is empty, there are at most [num_processes] of them, and the
    page counts reported to the tracker add up to [max_pages], failed
    pages included. *)
Theorem simple_run_saves_each_page_once (num_processes : Z)
    (max_pages : option Z) :
  let run :=
    scrape_all_articles_SIMPLE fetch resp_truthy extract delay_positive
      num_processes max_pages in
  ((exists r, run = Ok r) <->
   exists m, max_pages = Some m /\ (1 <= num_processes)%Z /\ (1 <= m)%Z) /\
  (max_pages = None -> run = Raise AttributeError) /\
  (forall m r, max_pages = Some m -> run = Ok r ->
     returned r = [] /\
     concat (save_batch_calls r) =
       flat_map (fun p => page_yield fetch resp_truthy extract p 0)
         (map (fun k : nat => (1 + Z.of_nat k)%Z) (seq 0 (Z.to_nat m))) /\
     Forall (fun batch => batch <> []) (save_batch_calls r) /\
     (length (save_batch_calls r) <= Z.to_nat num_processes)%nat /\
     sum_list (update_progress_calls r) = Z.to_nat m).
Proof.
  cbn zeta. destruct max_pages as [m|].
  - destruct (simple_run_with_budget num_processes m) as [Hiff Hrun].
    split; [|split; [done|]].
    + rewrite Hiff. split; [intros [Hn Hm]; by exists m|].
      by intros (m' & [= <-] & Hn & Hm).
    + intros m' r [= <-]. apply Hrun.
  - split; [|split; [done|done]].
    split; [by intros [r Hr] | by intros (m & Hm & _)].
Qed.
End RunFacts.

(** ** The article links of a journal *)

Section IssueFacts.
Import DergiparkIssues.
Context {Html : Type}.
Variable requests_get : string -> Response Html.
Variable session_get : string -> Response Html.
Variable issue_anchors : Html -> list (string * string).
Variable article_cards : Html -> list (string * string).
Variable urljoin : string -> string -> string.

Lemma issue_links_filtered archive_url issue :
  issue ∈ scrape_issue_links_from_archive requests_get issue_anchors urljoin
            archive_url ->
  contains "/issue/" (issue_url issue) = true /\
  contains "article" (issue_url issue) = false.
Proof.
  unfold scrape_issue_links_from_archive.
  destruct (requests_get archive_url) as [|code html];
    [by intros ?%not_elem_of_nil|].
  destruct (raise_for_status code); [by intros ?%not_elem_of_nil|].
  intros (link & _ & Hlink)%list_elem_of_omap. cbn zeta in Hlink.
  destruct (contains "/issue/" _) eqn:E1; [|done].
  destruct (contains "article" _) eqn:E2; [done|].
  simpl in Hlink. by injection Hlink as <-.
Qed.

Lemma issue_page_tagged issue_url slug :
  Forall (fun a => journal_slug a = slug)
    (scrape_articles_from_issue_page requests_get article_cards urljoin
       issue_url slug).
Proof.
  unfold scrape_articles_from_issue_page.
  destruct (requests_get issue_url) as [|code html]; [done|].
  destruct (raise_for_status code); [done|].
  apply Forall_forall. intros a Ha.
  by apply elem_of_map in Ha as (card & -> & _).
Qed.

Lemma all_issues_tagged issue_links slug :
  Forall (fun a => journal_slug a = slug)
    (scrape_all_issues_parallel session_get article_cards urljoin
       issue_links slug).
Proof.
  unfold scrape_all_issues_parallel.
  induction issue_links as [|issue issue_links IH]; [done|].
  cbn [omap list_omap]. unfold scrape_single_issue_async at 1.
  destruct (session_get (issue_url issue)) as [|code html]; [done|].
  destruct (code =? 200)%Z; [|done]. cbn [concat].
  apply Forall_app. split; [|done].
  apply Forall_forall. intros a Ha.
  by apply elem_of_map in Ha as (card & -> & _).
Qed.

Lemma all_issues_unanswered issue_links slug :
  (forall issue, issue ∈ issue_links ->
     forall html, session_get (issue_url issue) <> Status 200 html) ->
  scrape_all_issues_parallel session_get article_cards urljoin issue_links slug
    = [].
Proof.
  unfold scrape_all_issues_parallel.
  induction issue_links as [|issue issue_links IH]; [done|]. intros Hbad.
  cbn [omap list_omap]. unfold scrape_single_issue_async at 1.
  pose proof (Hbad issue (list_elem_of_here _ _)) as Hissue.
  destruct (session_get (issue_url issue)) as [|code html].
  - cbn [concat app]. apply IH. intros i Hi. by apply Hbad, list_elem_of_further.
  - destruct (Z.eqb_spec code 200) as [->|_]; [by destruct (Hissue html)|].
    apply IH. intros i Hi. by apply Hbad, list_elem_of_further.
Qed.

Lemma issue_links_spec archive_url code html :
  requests_get archive_url = Status code html ->
  raise_for_status code = false ->
  scrape_issue_links_from_archive requests_get issue_anchors urljoin archive_url
  = map (fun link : string * string =>
           mkIssue (urljoin archive_url link.1) link.2)
        (filter (fun link : string * string =>
                   contains "/issue/" (urljoin archive_url link.1) = true /\
                   contains "article" (urljoin archive_url link.1) = false)
                (issue_anchors html)).
Proof.
  intros Hget Hcode. unfold scrape_issue_links_from_archive.
  rewrite Hget, Hcode.
  induction (issue_anchors html) as [|link links IH]; [done|].
  rewrite filter_cons. cbn [omap list_omap]. cbn zeta.
  destruct (decide _) as [[H1 H2]|Hno].
  - rewrite H1, H2. cbn [andb negb map]. f_equal. exact IH.
  - destruct (contains "/issue/" _) eqn:E1; cbn [andb]; [|exact IH].
    destruct (contains "article" _) eqn:E2; cbn [negb]; [exact IH|].
    by destruct Hno.
Qed.

Lemma all_issues_flat issue_links slug :
  scrape_all_issues_parallel session_get article_cards urljoin issue_links slug
  = flat_map
      (fun issue =>
         match session_get (issue_url issue) with
         | GetRaises => []
         | Status code html =>
             if (code =? 200)%Z
             then map (fun card : string * string =>
                         mkLink (urljoin (issue_url issue) card.1) card.2 slug)
                      (article_cards html)
             else []
         end)
      issue_links.
Proof.
  unfold scrape_all_issues_parallel.
  induction issue_links as [|issue issue_links IH]; [done|].
  cbn [omap list_omap flat_map]. unfold scrape_single_issue_async at 1.
  destruct (session_get (issue_url issue)) as [|code html]; [exact IH|].
  destruct (code =? 200)%Z; [|exact IH].
  cbn [concat]. by rewrite IH.
Qed.

Lemma string_length_app (s1 s2 : string) :
  String.length (s1 ++ s2) = (String.length s1 + String.length s2)%nat.
Proof. induction s1 as [|c s1 IH]; simpl; [done | by rewrite IH]. Qed.

Lemma request_url_eq (u v : string) : RequestsGet u = RequestsGet v -> u = v.
Proof. by intros [= ->]. Qed.

Lemma archive_is_not_main (slug : string) :
  (BASE_URL ++ "/en/pub/" ++ slug ++ "/archive")%string
  <> (BASE_URL ++ "/en/pub/" ++ slug)%string.
Proof.
  intros Heq. apply (f_equal String.length) in Heq.
  rewrite !string_length_app in Heq. simpl in Heq. lia.
Qed.

(** X16: the links collected for a journal all carry that journal's slug.
    The archive page is asked for first and once. The journal's main page
    is read, as if it were an issue, exactly when the archive gave no issue
    link, which includes an archive request that raised or came back with a
    4xx or 5xx status. Otherwise one request goes to each issue link, each
    with [/issue/] and without [article] in its URL; an issue that raises or
    answers with another status than 200 adds nothing, and when every issue
    does so the result is empty: there is no fallback then.  An archive that
    answers below 400 or from 600 gives, in the order of its anchors, the
    anchors whose joined URL has [/issue/] and not [article].  When there is
    an issue link the requests are the archive and then one [session.get]
    per issue link, in order, and the result is, issue after issue, the
    cards of each issue that answered 200, joined to that issue's URL. *)
Theorem journal_links_and_fallback (slug : string) :
  let archive_url := (BASE_URL ++ "/en/pub/" ++ slug ++ "/archive")%string in
  let main_journal_url := (BASE_URL ++ "/en/pub/" ++ slug)%string in
  let issue_links :=
    scrape_issue_links_from_archive requests_get issue_anchors urljoin
      archive_url in
  let run :=
    collect_all_article_urls_for_journal requests_get session_get
      issue_anchors article_cards urljoin slug in
  Forall (fun a => journal_slug a = slug) run.1 /\
  (exists rest, run.2 = RequestsGet archive_url :: rest /\
                RequestsGet archive_url ∉ rest) /\
  (RequestsGet main_journal_url ∈ run.2 <-> issue_links = []) /\
  ((requests_get archive_url = GetRaises \/
    exists code html, requests_get archive_url = Status code html /\
                      (400 <= code < 600)%Z) ->
   run = (scrape_articles_from_issue_page requests_get article_cards urljoin
            main_journal_url slug,
          [RequestsGet archive_url; RequestsGet main_journal_url])) /\
  (forall u, SessionGet u ∈ run.2 ->
     contains "/issue/" u = true /\ contains "article" u = false) /\
  (issue_links <> [] ->
   (forall issue, issue ∈ issue_links ->
      forall html, session_get (issue_url issue) <> Status 200 html) ->
   run.1 = []) /\
  (forall code html,
     requests_get archive_url = Status code html ->
     ~ (400 <= code < 600)%Z ->
     issue_links =
       map (fun link : string * string =>
              mkIssue (urljoin archive_url link.1) link.2)
           (filter (fun link : string * string =>
                      contains "/issue/" (urljoin archive_url link.1) = true /\
                      contains "article" (urljoin archive_url link.1) = false)
                   (issue_anchors html))) /\
  (issue_links <> [] ->
   run.2 = RequestsGet archive_url
             :: map (fun issue => SessionGet (issue_url issue)) issue_links /\
   run.1 = flat_map
             (fun issue =>
                match session_get (issue_url issue) with
                | GetRaises => []
                | Status code html =>
                    if (code =? 200)%Z
                    then map (fun card : string * string =>
                                mkLink (urljoin (issue_url issue) card.1)
                                       card.2 slug)
                             (article_cards html)
                    else []
                end)
             issue_links).
Proof.
  cbn zeta. unfold collect_all_article_urls_for_journal.
  pose proof (archive_is_not_main slug) as Hne.
  set (archive_url := (BASE_URL ++ "/en/pub/" ++ slug ++ "/archive")%string) in *.
  set (main_journal_url := (BASE_URL ++ "/en/pub/" ++ slug)%string) in *.
  pose proof (issue_links_filtered archive_url) as Hfiltered.
  assert (Hfail :
    requests_get archive_url = GetRaises \/
    (exists code html, requests_get archive_url = Status code html /\
                       (400 <= code < 600)%Z) ->
    scrape_issue_links_from_archive requests_get issue_anchors urljoin
      archive_url = []).
  { unfold scrape_issue_links_from_archive.
    intros [->|(code & html & -> & Hcode)]; [done|].
    unfold raise_for_status.
    destruct (Z.leb_spec 400 code); [|lia].
    destruct (Z.ltb_spec code 600); [done|lia]. }
  assert (Hspec : forall code html,
    requests_get archive_url = Status code html ->
    ~ (400 <= code < 600)%Z ->
    scrape_issue_links_from_archive requests_get issue_anchors urljoin
      archive_url =
    map (fun link : string * string =>
           mkIssue (urljoin archive_url link.1) link.2)
        (filter (fun link : string * string =>
                   contains "/issue/" (urljoin archive_url link.1) = true /\
                   contains "article" (urljoin archive_url link.1) = false)
                (issue_anchors html))).
  { intros code html Hget Hcode. apply (issue_links_spec _ code html Hget).
    unfold raise_for_status.
    destruct (Z.leb_spec 400 code); [|done].
    destruct (Z.ltb_spec code 600); [lia|done]. }
  pose proof (all_issues_flat
                (scrape_issue_links_from_archive requests_get issue_anchors
                   urljoin archive_url) slug) as Hflat.
  destruct (scrape_issue_links_from_archive requests_get issue_anchors urljoin
              archive_url) as [|issue issue_links] eqn:Hlinks; cbn [truthy negb fst snd].
  - split; [apply issue_page_tagged|]. split.
    { eexists. split; [done|]. intros Hin.
      apply list_elem_of_singleton in Hin. by apply Hne, (request_url_eq _ _ Hin). }
    split; [split; [done|]; intros _; set_unfold; tauto|].
    split; [done|]. split; [|split; [done|split; [exact Hspec|done]]].
    intros u Hu. set_unfold. destruct Hu as [Hu|Hu]; [done|].
    destruct Hu as [Hu|Hu]; [done|]. done.
  - split; [apply all_issues_tagged|]. split.
    { eexists. split; [done|]. intros Hin.
      apply elem_of_map in Hin as (i & Hi & _). done. }
    split.
    { split; [|done]. intros Hin.
      apply elem_of_cons in Hin as [Hin|Hin];
        [by destruct Hne; rewrite (request_url_eq _ _ Hin)|].
      apply elem_of_map in Hin as (i & Hi & _). done. }
    split; [intros Hbad; by specialize (Hfail Hbad)|]. split.
    + intros u Hu. apply elem_of_cons in Hu as [Hu|Hu]; [done|].
      apply elem_of_map in Hu as (i & [= ->] & Hi). by apply Hfiltered.
    + split; [intros _ Hbad; by apply all_issues_unanswered|].
      split; [exact Hspec|]. intros _. split; [done | exact Hflat].
Qed.
End IssueFacts.

(** ** A run that is cut short *)

Section AbortFacts.
Import YokTez YokTezRun.
Variable filename : string.
Variable has_pdfs : bool.

Lemma run_through (before : list (string * list Thesis * IOOutcome))
    (rest : list University) all_theses (fs : gmap string Csv) :
  visit_universities filename has_pdfs (map returns before ++ rest)
    all_theses fs =
  let st := fold_left (save_incrementally filename has_pdfs) before
              (all_theses, fs) in
  visit_universities filename has_pdfs rest st.1 st.2.
Proof.
  revert all_theses fs.
  induction before as [|[[uni_name theses] io] before IH]; intros all_theses fs;
    [done|].
  cbn [map app returns fst snd visit_universities fold_left].
  rewrite IH. cbn zeta.
  by destruct (save_incrementally filename has_pdfs (all_theses, fs)
                 (uni_name, theses, io)).
Qed.

(** X17: when the scrape of a university raises, the run ends with that
    exception (or with the one of closing the browser) and no later
    university is visited, but the output file is left as the save after
    the last university before it wrote it: the theses collected so far
    are lost as a return value only. A run without such a failure returns
    all theses collected, unless closing the browser raises, and leaves the
    file of the last save. *)
Theorem abort_keeps_the_saved_file
    (before : list (string * list Thesis * IOOutcome))
    (uni_name : string) (e : exn) (io : IOOutcome) (later : list University)
    (browser_close : result unit) (fs : gmap string Csv) :
  let saved := scrape_all_universities_saves filename has_pdfs before fs in
  scrape_all_universities filename has_pdfs
    (map returns before ++ (uni_name, Raise e, io) :: later) browser_close fs
    = (Raise (match browser_close with Raise e' => e' | Ok _ => e end),
       saved.2) /\
  scrape_all_universities filename has_pdfs (map returns before)
    browser_close fs
    = (match browser_close with Raise e' => Raise e' | Ok _ => Ok saved.1 end,
       saved.2) /\
  (forall last_name last_theses before',
     before = before' ++ [(last_name, last_theses, WriteOk)] ->
     truthy saved.1 = true ->
     saved.2 !! filename = Some (csv_of saved.1 has_pdfs)).
Proof.
  cbn zeta. unfold scrape_all_universities, scrape_all_universities_saves.
  split; [|split].
  - rewrite run_through. cbn. by destruct browser_close.
  - rewrite <- (app_nil_r (map returns before)), run_through. cbn zeta.
    by destruct (fold_left _ before _).
  - intros last_name last_theses before' -> Hall.
    rewrite fold_left_app in *. cbn [fold_left] in *.
    destruct (fold_left _ before' ([], fs)) as [all_theses fs1].
    unfold save_incrementally in *. cbn [fst snd] in *.
    rewrite Hall. by apply save_csv_ok.
Qed.
End AbortFacts.

(** ** Failure containment *)


Section YearFailures.
Import YokTez.
Context {T : Type}.
Variable new_context_ok : nat -> nat -> bool.
Variable close_ok : nat -> nat -> bool.
Variable schedule : nat -> list BEvent -> list BEvent.
Variable extract_pdfs : bool.
Variable pdf_pass : list T -> result (list T).



End YearFailures.



